(** * Trustpilot review scraper: the scraping pipeline, checked against its specification

  A shallow embedding of the TypeScript sources

  - [src/rate-limiter.ts]         ([RateLimiter]),
  - [src/data-transformer.ts]     ([DataTransformer]),
  - [src/content-extractor.ts]    ([ContentExtractor]),
  - [src/scraper-orchestrator.ts] ([ScraperOrchestrator]),
  - [src/error-handler.ts]        ([ErrorHandler]),

  together with the properties that the design document states about them.

  Conventions of the embedding.

  - A JavaScript string is a [string]; one [ascii] stands for one UTF-16
    code unit of the range 0..255, and [String.length] is the [.length] of
    the source.
  - Millisecond amounts and HTTP status codes are integers ([Z]); loop
    counters and page counts are [nat].  The arithmetic of the code on
    them is that of binary64, which is exact up to 2^53; the statements
    that depend on it say so in their hypotheses.
  - A JavaScript [number] holding a parsed rating is the rational value of
    the binary64 it denotes ([Q], in lowest terms).
  - Asynchronous calls to the outside (browser, file system, timers) are
    modelled by the outcome they produce, supplied as input, and by the
    trace of effects the code performs. *)

From Stdlib Require Import ZArith QArith String Ascii List Bool Lia.
From stdpp Require Import gmap strings list pretty.

Open Scope string_scope.
Open Scope Z_scope.

(* stdpp's set_solver clears hypotheses that may be absent. *)
#[global] Set Warnings "-clear-no-such-hyp".

(** ** JavaScript string primitives used by the sources *)

Module JsString.

(** [WhiteSpace] and [LineTerminator] code units below 256: TAB, LF, VT,
    FF, CR, SP and NBSP.  This is the set removed by [String.prototype.trim]
    and skipped by [parseInt]. *)
Definition is_js_space (c : ascii) : bool :=
  match nat_of_ascii c with
  | 9%nat | 10%nat | 11%nat | 12%nat | 13%nat | 32%nat | 160%nat => true
  | _ => false
  end.

Definition is_digit (c : ascii) : bool :=
  let n := nat_of_ascii c in (48 <=? n)%nat && (n <=? 57)%nat.

Definition digit_value (c : ascii) : Z := Z.of_nat (nat_of_ascii c) - 48.

Definition LF : ascii := ascii_of_nat 10.
Definition CR : ascii := ascii_of_nat 13.

(** [s.includes(needle)] *)
Fixpoint includes (needle s : string) : bool :=
  String.prefix needle s
  || match s with
     | EmptyString => false
     | String _ s' => includes needle s'
     end.

(** Truthiness of a string value: only the empty string is falsy. *)
Definition truthy (s : string) : bool :=
  match s with EmptyString => false | _ => true end.

Fixpoint skip_spaces (s : string) : string :=
  match s with
  | String c s' => if is_js_space c then skip_spaces s' else s
  | EmptyString => EmptyString
  end.

(** Value of the longest prefix of decimal digits, with [acc] the value of
    the digits read so far; [None] when no digit has been read. *)
Fixpoint read_digits (s : string) (acc : option Z) : option Z :=
  match s with
  | String c s' =>
      if is_digit c
      then read_digits s' (Some (10 * default 0 acc + digit_value c))
      else acc
  | EmptyString => acc
  end.

(** [parseInt(s, 10)]: leading white space, an optional sign, then the
    longest run of decimal digits; [None] is [NaN].  The value is the
    integer read; it is the Number that the code obtains as long as its
    absolute value is at most 2^53, beyond which the code holds the
    nearest binary64. *)
Definition parseInt (s : string) : option Z :=
  match skip_spaces s with
  | String "-" s' => Z.opp <$> read_digits s' None
  | String "+" s' => read_digits s' None
  | s' => read_digits s' None
  end.

(** [s.trim()], as [trimEnd] after [trimStart]. *)
Definition trimStart (s : string) : string := skip_spaces s.

Fixpoint trimEnd (s : string) : string :=
  match s with
  | EmptyString => EmptyString
  | String c s' =>
      match trimEnd s' with
      | EmptyString => if is_js_space c then EmptyString else String c EmptyString
      | t => String c t
      end
  end.

Definition trim (s : string) : string := trimEnd (trimStart s).

Definition starts_with_space (s : string) : bool :=
  match s with
  | String c _ => is_js_space c
  | EmptyString => false
  end.

Fixpoint ends_with_space (s : string) : bool :=
  match s with
  | EmptyString => false
  | String c EmptyString => is_js_space c
  | String _ s' => ends_with_space s'
  end.

Fixpoint drop_chars (n : nat) (s : string) : string :=
  match n, s with
  | S n', String _ s' => drop_chars n' s'
  | _, _ => s
  end.

(** [s.replace(pattern, replacement)] for a string [pattern] and a
    [replacement] without [$]: only the first occurrence is replaced. *)
Fixpoint replaceFirst (pattern replacement s : string) : string :=
  if String.prefix pattern s
  then replacement +:+ drop_chars (String.length pattern) s
  else match s with
       | EmptyString => EmptyString
       | String c s' => String c (replaceFirst pattern replacement s')
       end.

(** [s.split(sep)] for a separator of one code unit. *)
Fixpoint split (sep : ascii) (s : string) : list string :=
  match s with
  | EmptyString => [EmptyString]
  | String c s' =>
      match split sep s' with
      | cur :: rest =>
          if Ascii.eqb c sep then EmptyString :: cur :: rest
          else String c cur :: rest
      | [] => []
      end
  end.

(** [l.reduce(f)] without an initial value, on a non-empty array. *)
Definition reduce {A} (f : A -> A -> A) (first : A) (rest : list A) : A :=
  fold_left f rest first.

(** The double quote, for messages that contain one. *)
Definition dquote : string := String (ascii_of_nat 34) EmptyString.

End JsString.

(** ** [src/rate-limiter.ts] *)

Module RateLimiter.
Import JsString.

Record RetryConfig := {
  maxRetries : nat;
  baseDelay : Z;
  maxDelay : Z
}.

(** The default value of the [config] parameter of [retryWithBackoff]. *)
Definition defaultRetryConfig : RetryConfig :=
  {| maxRetries := 3; baseDelay := 1000; maxDelay := 8000 |}.

(** The part of a thrown object that the limiter reads:
    [error.response.status], [error.response.headers], [error.message] and
    [error.status].  An absent property is [None]. *)
Record Response := {
  status : option Z;
  headers : option (gmap string string)
}.

Record JsError := {
  message : option string;
  err_status : option Z;
  response : option Response
}.

(** A value caught by [catch (error)]: either falsy ([undefined], [null],
    [0], the empty string), on which every optional chain yields
    [undefined], or a truthy value seen through the properties above. *)
Inductive Thrown :=
| Falsy
| Err (e : JsError).

Definition plainError (msg : string) : JsError :=
  {| message := Some msg; err_status := None; response := None |}.

(** The first [if] of [extractRetryAfter]: the [retry-after] header of a 429
    response, when it is present, truthy and [parseInt] reads a number. *)
Definition parsedRetryAfterHeader (e : JsError) : option Z :=
  match response e with
  | Some r =>
      if bool_decide (status r = Some 429) then
        match headers r ≫= (.!! "retry-after") with
        | Some retryAfter =>
            if truthy retryAfter then parseInt retryAfter else None
        | None => None
        end
      else None
  | None => None
  end.

(** [error?.message?.includes('429') || error?.status === 429] *)
Definition mentions429 (e : JsError) : bool :=
  match message e with Some m => includes "429" m | None => false end
  || bool_decide (err_status e = Some 429).

(** [extractRetryAfter] on a truthy value. *)
Definition extractRetryAfterErr (e : JsError) : option Z :=
  match parsedRetryAfterHeader e with
  | Some parsed => Some parsed
  | None => if mentions429 e then Some 60 else None
  end.

(** [extractRetryAfter(error)]: the wait hint in seconds, [None] for
    [null]. *)
Definition extractRetryAfter (t : Thrown) : option Z :=
  match t with
  | Falsy => None
  | Err e => extractRetryAfterErr e
  end.

(** One invocation of the operation either resolves or rejects. *)
Inductive Attempt (T : Type) :=
| Resolves (v : T)
| Rejects (t : Thrown).
Arguments Resolves {T} v.
Arguments Rejects {T} t.

(** What [retryWithBackoff] did: the arguments of its successive
    [this.sleep] calls, the number of times it invoked the operation, and
    how it ended. *)
Inductive Outcome (T : Type) :=
| Returned (v : T)
| Raised (t : Thrown).
Arguments Returned {T} v.
Arguments Raised {T} t.

Record Run (T : Type) := {
  sleeps : list Z;
  calls : nat;
  outcome : Outcome T
}.
Arguments sleeps {T} r.
Arguments calls {T} r.
Arguments outcome {T} r.

Definition slept {T} (ms : Z) (r : Run T) : Run T :=
  {| sleeps := ms :: sleeps r; calls := calls r; outcome := outcome r |}.

Definition called {T} (r : Run T) : Run T :=
  {| sleeps := sleeps r; calls := S (calls r); outcome := outcome r |}.

(** [throw lastError || new Error('Operation failed after retries')] *)
Definition throwLast {T} (lastError : option Thrown) : Run T :=
  let raised :=
    match lastError with
    | Some (Err e) => Err e
    | Some Falsy | None => Err (plainError "Operation failed after retries")
    end in
  {| sleeps := []; calls := 0; outcome := Raised raised |}.

Section Retry.
Context {T : Type}.
(** [operation k] is the outcome of the invocation that follows [k]
    earlier invocations. *)
Variable operation : nat -> Attempt T.
Variable config : RetryConfig.

(** [Math.min(config.baseDelay * Math.pow(2, attempt), config.maxDelay)],
    over the integers.  This is the Number that the code computes for a
    positive [baseDelay] and a finite [maxDelay], also where the product
    overflows to [Infinity]; with [baseDelay = 0] it is so up to attempt
    1023, after which the code has [NaN]. *)
Definition exponentialDelay (attempt : nat) : Z :=
  Z.min (baseDelay config * 2 ^ Z.of_nat attempt) (maxDelay config).

(** The [for] loop from iteration [attempt] on; [fuel] bounds the
    iterations left, the loop test and the [break] are those of the
    source. *)
Fixpoint retryLoop (fuel attempt : nat) (lastError : option Thrown) : Run T :=
  match fuel with
  | O => throwLast lastError
  | S fuel' =>
      if (attempt <=? maxRetries config)%nat then
        called
          match operation attempt with
          | Resolves v => {| sleeps := []; calls := 0; outcome := Returned v |}
          | Rejects error =>
              if (attempt =? maxRetries config)%nat then throwLast (Some error)
              else
                match extractRetryAfter error with
                | Some retryAfter =>
                    slept (retryAfter * 1000)
                      (retryLoop fuel' (S attempt) (Some error))
                | None =>
                    slept (exponentialDelay attempt)
                      (retryLoop fuel' (S attempt) (Some error))
                end
          end
      else throwLast lastError
  end.

Definition retryWithBackoff : Run T :=
  retryLoop (S (maxRetries config)) 0 None.

End Retry.

Definition totalSleep {T} (r : Run T) : Z := fold_right Z.add 0 (sleeps r).

(** An operation given by the list of its first outcomes; it resolves to
    [dflt] afterwards. *)
Definition scripted {T} (script : list (Attempt T)) (dflt : T) (k : nat) : Attempt T :=
  nth k script (Resolves dflt).

End RateLimiter.


(** ** [src/content-extractor.ts]: the raw review *)

Module ReviewElement.

(** [interface ReviewElement]; an optional property that is absent is
    [None]. *)
Record t := {
  rating : string;
  text : string;
  date : string;
  reviewerName : string;
  title : option string;
  verified : option bool
}.

End ReviewElement.

(** ** [src/data-transformer.ts] *)

Module DataTransformer.
Import JsString.

(** [interface TransformedReview] *)
Record TransformedReview := {
  rating : Q;
  text : string;
  date : string;
  reviewerName : string;
  title : string;
  verified : bool
}.

(** *** [sanitizeText] *)

(** [.replace(/\r\n/g, '\n')] *)
Fixpoint replaceCRLF (s : string) : string :=
  match s with
  | String c1 ((String c2 rest) as tl) =>
      if Ascii.eqb c1 CR && Ascii.eqb c2 LF
      then String LF (replaceCRLF rest)
      else String c1 (replaceCRLF tl)
  | _ => s
  end.

(** [.replace(/\r/g, '\n')] *)
Fixpoint replaceCR (s : string) : string :=
  match s with
  | String c s' => String (if Ascii.eqb c CR then LF else c) (replaceCR s')
  | EmptyString => EmptyString
  end.

(** [.replace(/\n{3,}/g, '\n\n')]: the quantifier is greedy, so a match is
    a maximal run of at least three LF, and it is replaced by two.  [run]
    counts the LF read since the last other character; the third and later
    LF of a run are dropped. *)
Fixpoint collapseLFfrom (run : nat) (s : string) : string :=
  match s with
  | String c s' =>
      if Ascii.eqb c LF
      then if (run <? 2)%nat
           then String LF (collapseLFfrom (S run) s')
           else collapseLFfrom (S run) s'
      else String c (collapseLFfrom 0 s')
  | EmptyString => EmptyString
  end.

Definition collapseLF (s : string) : string := collapseLFfrom 0 s.

Definition sanitizeText (text : string) : string :=
  if negb (truthy text) then EmptyString
  else collapseLF (replaceCR (replaceCRLF (trim text))).

(** *** [parseRating] *)

(** The longest prefix of decimal digits, and what follows it. *)
Fixpoint span_digits (s : string) : string * string :=
  match s with
  | String c s' =>
      if is_digit c
      then let '(d, r) := span_digits s' in (String c d, r)
      else (EmptyString, s)
  | EmptyString => (EmptyString, EmptyString)
  end.

(** The digits matched by the optional group [(?:\.\d+)?] at the start of
    [rest]: a dot and as many digits as follow it; empty when no dot or no
    digit is there, in which case the group matches nothing. *)
Definition fraction_of (rest : string) : string :=
  match rest with
  | String c r => if Ascii.eqb c "." then fst (span_digits r) else EmptyString
  | EmptyString => EmptyString
  end.

(** A match of [(\d+(?:\.\d+)?)] that starts at the first character: as
    many digits as there are, then the optional group. *)
Definition match_number_here (s : string) : option string :=
  let '(int, rest) := span_digits s in
  if truthy int
  then Some (if truthy (fraction_of rest)
             then int +:+ "." +:+ fraction_of rest
             else int)
  else None.

(** [trimmed.match(/(\d+(?:\.\d+)?)/)]: the leftmost match; the result is
    [numberMatch[1]]. *)
Fixpoint match_number (s : string) : option string :=
  match match_number_here s with
  | Some tok => Some tok
  | None =>
      match s with
      | String _ s' => match_number s'
      | EmptyString => None
      end
  end.

(** A Number: the rational value of a finite binary64, or [+Infinity]. *)
Inductive Number :=
| Finite (q : Q)
| Infinity.

(** The integer nearest to [n / d], ties to even ([0 <= n], [0 < d]). *)
Definition roundHalfEven (n d : Z) : Z :=
  let q := n / d in
  match 2 * (n mod d) ?= d with
  | Lt => q
  | Gt => q + 1
  | Eq => if Z.even q then q else q + 1
  end.

(** [floor (log2 (n / d))] for [0 < n] and [0 < d]. *)
Definition binade (n d : Z) : Z :=
  let e0 := Z.log2 n - Z.log2 d in
  if (if 0 <=? e0 then d * 2 ^ e0 <=? n else d <=? n * 2 ^ (- e0))
  then e0 else e0 - 1.

(** The Number value of the rational [n / d] ([0 <= n], [0 < d]): round to
    nearest, ties to even, with 53 bits of precision, the least exponent
    [-1074] and overflow to [+Infinity]. *)
Definition binary64 (n d : Z) : Number :=
  if n =? 0 then Finite 0
  else
    let q := Z.max (binade n d - 52) (-1074) in
    let m := if 0 <=? q then roundHalfEven n (d * 2 ^ q)
             else roundHalfEven (n * 2 ^ (- q)) d in
    if 0 <=? q
    then if 2 ^ 1024 <=? m * 2 ^ q then Infinity
         else Finite (inject_Z (m * 2 ^ q))
    else Finite (Qred (Qmake m (Z.to_pos (2 ^ (- q))))).

(** The value of a string of decimal digits. *)
Fixpoint digits_value (s : string) (acc : Z) : Z :=
  match s with
  | String c s' => digits_value s' (10 * acc + digit_value c)
  | EmptyString => acc
  end.

(** [parseFloat] on what the regular expression hands it: digits,
    optionally followed by a dot and digits (no white space, sign or
    exponent occurs). *)
Definition parseFloat (tok : string) : Number :=
  let '(int, rest) := span_digits tok in
  let frac := fraction_of rest in
  binary64 (digits_value frac (digits_value int 0))
           (10 ^ Z.of_nat (String.length frac)).

(** [rating >= 1 && rating <= 5] *)
Definition inRange (rating : Number) : bool :=
  match rating with
  | Finite q => Qle_bool 1 q && Qle_bool q 5
  | Infinity => false
  end.

(** [if (rating >= 1 && rating <= 5) return rating], else the fallback
    [return 0]. *)
Definition acceptRating (rating : Number) : Q :=
  match rating with
  | Finite q => if inRange rating then q else 0%Q
  | Infinity => 0%Q
  end.

Definition parseRating (ratingString : string) : Q :=
  if negb (truthy ratingString) then 0%Q
  else
    let trimmed := trim ratingString in
    match match_number trimmed with
    | Some tok => acceptRating (parseFloat tok)
    | None => 0%Q
    end.

(** *** [transform] *)

Section Transform.
(** [normalizeDate] rests on the date-fns library and on the clock; the
    pipeline is stated for any such function. *)
Variable normalizeDate : string -> string.

Definition transform (review : ReviewElement.t) : TransformedReview :=
  {| rating := parseRating (ReviewElement.rating review);
     text := sanitizeText (ReviewElement.text review);
     date := normalizeDate (ReviewElement.date review);
     reviewerName := sanitizeText (ReviewElement.reviewerName review);
     title := match ReviewElement.title review with
              | Some t => if truthy t then sanitizeText t else EmptyString
              | None => EmptyString
              end;
     verified := default false (ReviewElement.verified review) |}.

End Transform.

End DataTransformer.


(** ** [src/content-extractor.ts]: [extractField] *)

Module ContentExtractor.
Import JsString.

(** A call into the page either throws or gives a value. *)
Inductive Call (A : Type) :=
| Throws
| Gives (a : A).
Arguments Throws {A}.
Arguments Gives {A} a.

#[global] Instance call_bind : MBind Call := fun A B k c =>
  match c with
  | Throws => Throws
  | Gives a => k a
  end.

(** The element found by [element.$(selector)]: [getAttribute(name)] and
    [textContent()], whose [null] is [None]. *)
Record FieldElement := {
  getAttribute : string -> Call (option string);
  textContent : Call (option string)
}.

(** A review container: [element.$(selector)], the paragraphs of
    [element.$$('p')] each with the outcome of its [textContent()], and the
    container's own [textContent()]. *)
Record ElementHandle := {
  query : string -> Call (option FieldElement);
  paragraphs : Call (list (Call (option string)));
  ownTextContent : Call (option string)
}.

(** [value || ''] *)
Definition orEmpty (value : option string) : string := default EmptyString value.

(** The text taken from a matched element, before [trim]. *)
Definition fieldText (fieldName : string) (fieldElement : FieldElement) : Call string :=
  if String.eqb fieldName "rating" then
    alt ← getAttribute fieldElement "alt";
    if truthy (orEmpty alt) then Gives (orEmpty alt)
    else
      dataRating ← getAttribute fieldElement "data-rating";
      if truthy (orEmpty dataRating) then Gives (orEmpty dataRating)
      else
        content ← textContent fieldElement;
        Gives (orEmpty content)
  else if String.eqb fieldName "date" then
    datetime ← getAttribute fieldElement "datetime";
    if truthy (orEmpty datetime) then Gives (orEmpty datetime)
    else
      content ← textContent fieldElement;
      Gives (orEmpty content)
  else
    content ← textContent fieldElement;
    Gives (orEmpty content).

(** The [for (const selector of selectors)] loop: the first selector whose
    element yields a non-empty trimmed text; a selector that throws is
    skipped. [None] when the loop ends without returning. *)
Fixpoint trySelectors (element : ElementHandle) (selectors : list string)
    (fieldName : string) : option string :=
  match selectors with
  | [] => None
  | selector :: rest =>
      let attempt :=
        fieldElement ← query element selector;
        match fieldElement with
        | Some fe => text ← fieldText fieldName fe ; Gives (trim text)
        | None => Gives EmptyString
        end in
      match attempt with
      | Gives text =>
          if truthy text then Some text
          else trySelectors element rest fieldName
      | Throws => trySelectors element rest fieldName
      end
  end.

(** The [for (const p of paragraphs)] loop of the fallback. *)
Fixpoint firstSubstantial (ps : list (Call (option string))) : Call (option string) :=
  match ps with
  | [] => Gives None
  | p :: rest =>
      content ← p;
      let text := trim (orEmpty content) in
      if truthy text && (20 <? String.length text)%nat then Gives (Some text)
      else firstSubstantial rest
  end.

(** [(a, b) => a.length > b.length ? a : b] *)
Definition longer (a b : string) : string :=
  if (String.length b <? String.length a)%nat then a else b.

(** [allText.split('\n').map(l => l.trim()).filter(l => l.length > 20)] *)
Definition substantialLines (allText : string) : list string :=
  filter (fun l => (20 < String.length l)%nat) (map trim (split LF allText)).

(** The body of the [try] of the fallback for the text field. *)
Definition textFallback (element : ElementHandle) : Call (option string) :=
  ps ← paragraphs element;
  found ← firstSubstantial ps;
  match found with
  | Some text => Gives (Some text)
  | None =>
      content ← ownTextContent element;
      match substantialLines (trim (orEmpty content)) with
      | first :: rest => Gives (Some (reduce longer first rest))
      | [] => Gives None
      end
  end.

(** The result of [extractField]: the text, or the [Error] it throws. *)
Inductive Extracted :=
| Text (s : string)
| NotFound (message : string).

Definition extractField (element : ElementHandle) (selectors : list string)
    (fieldName : string) (required : bool) : Extracted :=
  match trySelectors element selectors fieldName with
  | Some text => Text text
  | None =>
      let fallback :=
        if String.eqb fieldName "text" && required
        then match textFallback element with
             | Gives found => found
             | Throws => None
             end
        else None in
      match fallback with
      | Some text => Text text
      | None =>
          if required
          then NotFound ("Required field " +:+ dquote +:+ fieldName +:+ dquote +:+ " not found")
          else Text EmptyString
      end
  end.

(** [REVIEW_SELECTORS.text] *)
Definition quoted (s : string) : string := dquote +:+ s +:+ dquote.

Definition textSelectors : list string :=
  [ "p[data-service-review-text-typography]";
    "div[data-service-review-text]";
    "p.review-content__text";
    "[class*=" +:+ quoted "reviewContent" +:+ "]";
    "p[class*=" +:+ quoted "typography_body" +:+ "]";
    "[class*=" +:+ quoted "review-text" +:+ "]";
    "[class*=" +:+ quoted "reviewText" +:+ "]";
    "p[class*=" +:+ quoted "content" +:+ "]";
    "div[class*=" +:+ quoted "text" +:+ "]" ].

End ContentExtractor.

(** ** [src/scraper-orchestrator.ts] *)

Module ScraperOrchestrator.
Import JsString DataTransformer.

(** [ScraperConfig], as far as [scrape] reads it; [maxPages = None] is
    [Infinity]. *)
Record ScraperConfig := {
  targetURL : string;
  outputFilename : string;
  maxPages : option nat;
  delayMs : Z;
  headless : bool
}.

(** A thrown value, as far as [scrape] reads it: [(error as Error).message]. *)
Record Error := { message : string }.

(** [csvExporter.export(reviews, {filename})] resolves to the path written
    or rejects. *)
Inductive ExportOutcome :=
| Written (outputPath : string)
| ExportFails (exportError : Error).

(** What the target site does from one listing page on.  A page either makes
    [extractReviews] reject or yields raw reviews; [checkpoint] is the
    outcome of the checkpoint export, should one be made on this page.
    [detectNextPageButton] and [clickNextPage] never reject: the first
    yields a boolean, the second a [NavigationResult]. *)
Inductive Site :=
| ExtractThrows (pageError : Error)
| Extracted (rawReviews : list ReviewElement.t) (checkpoint : ExportOutcome)
            (next : Advance)
with Advance :=
| NoNextButton                           (* detectNextPageButton() = false *)
| ClickFails (error : option string)     (* {success: false, error} *)
| ClickedLast                            (* {success: true, hasNextPage: false} *)
| ClickedNext (page : Site).             (* {success: true, hasNextPage: true} *)

(** The outcomes of the calls [scrape] makes to its collaborators. *)
Record World := {
  initialize : option Error;      (* browserController.initialize() rejects *)
  createPage : option Error;      (* browserController.createPage() rejects *)
  navigateToURL : bool;
  site : Site;
  exportAfterLoop : ExportOutcome;
  exportInCatch : ExportOutcome;
  close : option Error            (* browserController.close() rejects *)
}.

(** The effects of [scrape], in the order they happen: calls to the logger,
    to the exporter, to the rate limiter and to [browserController.close]. *)
Inductive Event :=
| LogConfiguration
| LogInfo (msg : string)
| LogWarn (msg : string)
| LogError (msg : string) (error : option Error)
| LogPageProgress (pageNumber reviewCount : nat)
| LogSummary (totalReviews pagesProcessed : nat) (outputFile : string)
| Export (reviews : list TransformedReview) (filename : string)
| RateDelay (milliseconds : Z)
| WaitForUserInput
| BrowserClose.

(** [interface ScrapingResult], without the two timestamps. *)
Record ScrapingResult := {
  totalReviews : nat;
  pagesProcessed : nat;
  outputFile : string;
  errors : list string
}.

Inductive Completion :=
| Returns (result : ScrapingResult)
| Throws (error : Error).

(** The variables of [scrape]. *)
Record Progress := {
  currentPage : nat;
  seenReviews : gset string;
  allReviews : list TransformedReview;
  pagesDone : nat;                  (* pagesProcessed *)
  errorLog : list string;           (* errors *)
  trace : list Event
}.

Definition emit (ev : Event) (st : Progress) : Progress :=
  {| currentPage := currentPage st; seenReviews := seenReviews st;
     allReviews := allReviews st; pagesDone := pagesDone st;
     errorLog := errorLog st; trace := trace st ++ [ev] |}.

Definition emits (evs : list Event) (st : Progress) : Progress :=
  fold_left (fun s ev => emit ev s) evs st.

(** [errors.push(msg)] *)
Definition pushError (msg : string) (st : Progress) : Progress :=
  {| currentPage := currentPage st; seenReviews := seenReviews st;
     allReviews := allReviews st; pagesDone := pagesDone st;
     errorLog := errorLog st ++ [msg]; trace := trace st |}.

(** [const reviewKey = `${review.text}|${review.reviewerName}|${review.date}`] *)
Definition reviewKey (review : TransformedReview) : string :=
  text review +:+ "|" +:+ reviewerName review +:+ "|" +:+ date review.

(** [transformedReviews.filter(review => ...)] with the set [seenReviews]
    that its callback reads and extends. *)
Fixpoint filterUnique (seen : gset string) (reviews : list TransformedReview)
    : list TransformedReview * gset string :=
  match reviews with
  | [] => ([], seen)
  | review :: rest =>
      if bool_decide (reviewKey review ∈ seen)
      then filterUnique seen rest
      else let '(unique, seen') := filterUnique ({[reviewKey review]} ∪ seen) rest in
           (review :: unique, seen')
  end.

(** [this.config.outputFilename.replace('.csv', `_checkpoint_page${pagesProcessed}.csv`)] *)
Definition checkpointFilename (outputFilename : string) (pagesProcessed : nat) : string :=
  replaceFirst ".csv" ("_checkpoint_page" +:+ pretty pagesProcessed +:+ ".csv")
    outputFilename.

Definition initialProgress : Progress :=
  {| currentPage := 1; seenReviews := ∅; allReviews := []; pagesDone := 0;
     errorLog := []; trace := [] |}.

Section Scrape.
Variable normalizeDate : string -> string.
Variable config : ScraperConfig.

(** [currentPage <= this.config.maxPages] *)
Definition withinMaxPages (currentPage : nat) : bool :=
  match maxPages config with
  | Some m => (currentPage <=? m)%nat
  | None => true
  end.

(** [currentPage >= this.config.maxPages] *)
Definition reachedMaxPages (currentPage : nat) : bool :=
  match maxPages config with
  | Some m => (m <=? currentPage)%nat
  | None => false
  end.

(** The statements of the loop body from [extractReviews] to
    [pagesProcessed++]. *)
Definition collect (rawReviews : list ReviewElement.t) (st : Progress) : Progress :=
  let transformedReviews := map (transform normalizeDate) rawReviews in
  let '(uniqueReviews, seen) := filterUnique (seenReviews st) transformedReviews in
  let duplicateCount := (length transformedReviews - length uniqueReviews)%nat in
  let warned :=
    if (0 <? duplicateCount)%nat
    then [LogWarn ("Filtered out " +:+ pretty duplicateCount
                   +:+ " duplicate reviews on page " +:+ pretty (currentPage st))]
    else [] in
  {| currentPage := currentPage st;
     seenReviews := seen;
     allReviews := allReviews st ++ uniqueReviews;
     pagesDone := S (pagesDone st);
     errorLog := errorLog st;
     trace := trace st ++ warned
              ++ [LogPageProgress (currentPage st) (length uniqueReviews)] |}.

(** [if (pagesProcessed % 50 === 0) { try { ... } catch (checkpointError) { ... } }] *)
Definition saveCheckpoint (checkpoint : ExportOutcome) (st : Progress) : Progress :=
  if (pagesDone st mod 50 =? 0)%nat then
    let filename := checkpointFilename (outputFilename config) (pagesDone st) in
    let st := emit (Export (allReviews st) filename) st in
    match checkpoint with
    | Written _ =>
        emit (LogInfo ("Checkpoint saved: " +:+ filename +:+ " ("
                       +:+ pretty (length (allReviews st)) +:+ " reviews)")) st
    | ExportFails checkpointError =>
        emit (LogWarn ("Failed to save checkpoint: " +:+ message checkpointError)) st
    end
  else st.

Definition nextPage (st : Progress) : Progress :=
  {| currentPage := S (currentPage st); seenReviews := seenReviews st;
     allReviews := allReviews st; pagesDone := pagesDone st;
     errorLog := errorLog st; trace := trace st |}.

(** [while (hasNextPage && currentPage <= this.config.maxPages)], entered
    with [hasNextPage = true]; [page] is the listing page on display.  The
    function returns when the loop is left. *)
Fixpoint scrapeLoop (page : Site) (st : Progress) : Progress :=
  if withinMaxPages (currentPage st) then
    let st := emit (LogInfo ("Extracting reviews from page "
                             +:+ pretty (currentPage st) +:+ "...")) st in
    match page with
    | ExtractThrows pageError =>
        (* catch (pageError): hasNextPage = false *)
        let errorMsg := "Error processing page " +:+ pretty (currentPage st)
                        +:+ ": " +:+ message pageError in
        pushError errorMsg (emit (LogError errorMsg (Some pageError)) st)
    | Extracted rawReviews checkpoint next =>
        let st := saveCheckpoint checkpoint (collect rawReviews st) in
        if reachedMaxPages (currentPage st) then
          (* break *)
          emit (LogInfo ("Reached maximum pages limit ("
                         +:+ from_option pretty "Infinity" (maxPages config) +:+ ")")) st
        else
          let advancing :=
            emits [LogInfo ("Waiting " +:+ pretty (delayMs config) +:+ "ms before next page...");
                   RateDelay (delayMs config);
                   LogInfo "Navigating to next page..."] st in
          match next with
          | NoNextButton => emit (LogInfo "No more pages to scrape") st
          | ClickFails error =>
              let errorMsg := "Pagination failed on page " +:+ pretty (currentPage st)
                              +:+ ": " +:+ (if truthy (default "" error)
                                            then default "" error else "unknown error") in
              pushError errorMsg (emit (LogWarn errorMsg) advancing)
          | ClickedLast => nextPage advancing
          | ClickedNext page' => scrapeLoop page' (nextPage advancing)
          end
    end
  else st.

Definition manualLoginBanner : list Event :=
  [ LogInfo "";
    LogInfo "========================================";
    LogInfo "Browser window is open for manual login";
    LogInfo "========================================";
    LogInfo "";
    LogInfo "Instructions:";
    LogInfo "1. Log in to Trustpilot if needed";
    LogInfo "2. Navigate to the reviews page if needed";
    LogInfo "3. Press ENTER in this terminal to start scraping";
    LogInfo "";
    WaitForUserInput;
    LogInfo "Starting scrape...";
    LogInfo "" ].

Definition resultOf (st : Progress) (outputFile : string) : ScrapingResult :=
  {| totalReviews := length (allReviews st);
     pagesProcessed := pagesDone st;
     outputFile := outputFile;
     errors := errorLog st |}.

Definition summary (st : Progress) (outputFile : string) : Event :=
  LogSummary (length (allReviews st)) (pagesDone st) outputFile.

(** The [try] block of [scrape]. *)
Definition tryBlock (w : World) : Progress * Completion :=
  let st := emits [LogConfiguration; LogInfo "Initializing browser..."] initialProgress in
  match initialize w with
  | Some e => (st, Throws e)
  | None =>
  match createPage w with
  | Some e => (st, Throws e)
  | None =>
  let st := emit (LogInfo "Navigating to target URL...") st in
  if negb (navigateToURL w)
  then (st, Throws {| message := "Failed to navigate to target URL" |})
  else
    let st := if headless config then st else emits manualLoginBanner st in
    let st := scrapeLoop (site w) st in
    let st := emits [LogInfo ("Exporting " +:+ pretty (length (allReviews st))
                              +:+ " reviews to CSV...");
                     Export (allReviews st) (outputFilename config)] st in
    match exportAfterLoop w with
    | ExportFails e => (st, Throws e)
    | Written outputFile =>
        (emit (summary st outputFile) st, Returns (resultOf st outputFile))
    end
  end end.

(** The [catch (error)] block of [scrape]. *)
Definition catchBlock (w : World) (error : Error) (st : Progress) : Progress * Completion :=
  let st := pushError (message error)
              (emit (LogError "Critical error during scraping" (Some error)) st) in
  if (0 <? length (allReviews st))%nat then
    let st := emits [LogInfo ("Exporting " +:+ pretty (length (allReviews st))
                              +:+ " partial reviews to CSV...");
                     Export (allReviews st) (outputFilename config)] st in
    match exportInCatch w with
    | Written outputFile =>
        (emit (summary st outputFile) st, Returns (resultOf st outputFile))
    | ExportFails exportError =>
        let st := pushError ("Export failed: " +:+ message exportError)
                    (emit (LogError "Failed to export partial data" (Some exportError)) st) in
        (st, Throws error)
    end
  else (st, Throws error).

(** The [finally] block: [isInitialized()] holds once [initialize] has
    resolved; a rejection of [close] replaces the completion. *)
Definition finallyBlock (w : World) (st : Progress) (c : Completion) : Progress * Completion :=
  match initialize w with
  | None =>
      let st := emits [LogInfo "Closing browser..."; BrowserClose] st in
      match close w with
      | Some e => (st, Throws e)
      | None => (st, c)
      end
  | Some _ => (st, c)
  end.

Definition scrape (w : World) : list Event * Completion :=
  let '(st, c) := tryBlock w in
  let '(st, c) := match c with
                  | Returns r => (st, Returns r)
                  | Throws error => catchBlock w error st
                  end in
  let '(st, c) := finallyBlock w st c in
  (trace st, c).

End Scrape.

(** A site of [n] further pages after the first, every page yielding
    [rawReviews] and every checkpoint export [checkpoint]. *)
Fixpoint uniformSite (n : nat) (rawReviews : list ReviewElement.t)
    (checkpoint : ExportOutcome) : Site :=
  match n with
  | O => Extracted rawReviews checkpoint NoNextButton
  | S n' => Extracted rawReviews checkpoint
              (ClickedNext (uniformSite n' rawReviews checkpoint))
  end.

End ScraperOrchestrator.

(** ** [src/rate-limiter.ts]: [delay] *)

Module RateLimiterDelay.

(** The private field [lastRequestTime] of a [RateLimiter]. *)
Record Limiter := { lastRequestTime : Z }.

(** [private lastRequestTime: number = 0] *)
Definition newLimiter : Limiter := {| lastRequestTime := 0 |}.

(** One call of [delay(milliseconds)].  The two readings of [Date.now()],
    [now] on entry and [after] at the final assignment, are inputs.  The
    result is the argument of [this.sleep] when it is called, and the
    limiter after the call. *)
Definition delay (milliseconds now after : Z) (l : Limiter) : option Z * Limiter :=
  let timeSinceLastRequest := now - lastRequestTime l in
  (if timeSinceLastRequest <? milliseconds
   then Some (milliseconds - timeSinceLastRequest)
   else None,
   {| lastRequestTime := after |}).

(** What the timer and the clock guarantee between the two readings: the
    clock does not go back, and a sleep lasts at least the time asked
    for. *)
Definition clockAdvances (now after : Z) (sleep : option Z) : Prop :=
  now + default 0 sleep <= after.

End RateLimiterDelay.

(** ** [src/content-extractor.ts]: [extractReviews] *)

Module ReviewExtraction.
Import JsString ContentExtractor.
Import ScraperOrchestrator (Event, LogInfo, LogWarn).

(** [interface ReviewSelectors] *)
Record ReviewSelectors := {
  reviewContainer : list string;
  rating : list string;
  text : list string;
  date : list string;
  reviewerName : list string;
  title : list string;
  verified : list string
}.

Definition REVIEW_SELECTORS : ReviewSelectors :=
  {| reviewContainer :=
       [ "article[data-service-review-card-paper]";
         "div[data-service-review-card-paper]";
         "article.review";
         "div.review-card";
         "[class*=" +:+ quoted "review" +:+ "][class*=" +:+ quoted "card" +:+ "]";
         "article[class*=" +:+ quoted "styles_reviewCard" +:+ "]" ];
     rating :=
       [ "div[data-service-review-rating] img[alt]";
         "div[class*=" +:+ quoted "star-rating" +:+ "] img[alt]";
         "[data-rating]";
         "img[alt*=" +:+ quoted "star" +:+ " i]";
         "[class*=" +:+ quoted "rating" +:+ "]" ];
     text := textSelectors;
     date :=
       [ "time[datetime]";
         "div[data-service-review-date-time-ago]";
         "span.review-date";
         "[class*=" +:+ quoted "date" +:+ "]" ];
     reviewerName :=
       [ "span[data-consumer-name-typography]";
         "div[data-consumer-name]";
         "span.consumer-information__name";
         "[class*=" +:+ quoted "consumerName" +:+ "]";
         "span[class*=" +:+ quoted "typography_heading" +:+ "]" ];
     title :=
       [ "h2[data-service-review-title-typography]";
         "div[data-service-review-title]";
         "h3.review-content__title";
         "[class*=" +:+ quoted "reviewTitle" +:+ "]";
         "h2[class*=" +:+ quoted "typography_heading" +:+ "]" ];
     verified :=
       [ "div[data-service-review-verified]";
         "span.review-content-header__verified";
         "[class*=" +:+ quoted "verified" +:+ "]";
         "svg[class*=" +:+ quoted "verified" +:+ "]" ] |}.

(** The page, as far as the extractor reads it: [page.$$(selector)]. *)
Record Page := {
  queryAll : string -> Call (list ElementHandle)
}.

(** A promise that resolves to a value or rejects with an [Error] of the
    given message. *)
Inductive Result (A : Type) :=
| Ok (a : A)
| Raises (message : string).
Arguments Ok {A} a.
Arguments Raises {A} message.

#[global] Instance result_bind : MBind Result := fun A B k r =>
  match r with
  | Ok a => k a
  | Raises message => Raises message
  end.

(** [await this.extractField(...)] *)
Definition awaitField (e : Extracted) : Result string :=
  match e with
  | Text s => Ok s
  | NotFound message => Raises message
  end.

Definition extractSingleReview (element : ElementHandle) : Result ReviewElement.t :=
  rating ← awaitField (extractField element (rating REVIEW_SELECTORS) "rating" true);
  text ← awaitField (extractField element (text REVIEW_SELECTORS) "text" true);
  date ← awaitField (extractField element (date REVIEW_SELECTORS) "date" true);
  reviewerName ← awaitField (extractField element (reviewerName REVIEW_SELECTORS)
                               "reviewerName" true);
  title ← awaitField (extractField element (title REVIEW_SELECTORS) "title" false);
  verifiedText ← awaitField (extractField element (verified REVIEW_SELECTORS)
                               "verified" false);
  (* verifiedText !== '' && verifiedText !== null *)
  let verified := negb (String.eqb verifiedText EmptyString) in
  Ok {| ReviewElement.rating := rating;
        ReviewElement.text := text;
        ReviewElement.date := date;
        ReviewElement.reviewerName := reviewerName;
        (* title || undefined *)
        ReviewElement.title := if truthy title then Some title else None;
        (* verified || undefined *)
        ReviewElement.verified := if verified then Some true else None |}.

(** The [for (const selector of REVIEW_SELECTORS.reviewContainer)] loop of
    [findReviewContainers], with the calls it makes to the logger. *)
Fixpoint findContainers (page : Page) (selectors : list string)
    : list Event * list ElementHandle :=
  match selectors with
  | [] => ([], [])
  | selector :: rest =>
      match queryAll page selector with
      | Gives elements =>
          if (0 <? length elements)%nat
          then ([LogInfo ("Found reviews using selector: " +:+ selector)], elements)
          else findContainers page rest
      | Throws => findContainers page rest
      end
  end.

Definition findReviewContainers (page : Page) : list Event * list ElementHandle :=
  findContainers page (reviewContainer REVIEW_SELECTORS).

(** The [for (let i = 0; i < reviewElements.length; i++)] loop of
    [extractReviews] from index [i] on, [reviews] being the array filled so
    far. *)
Fixpoint extractLoop (i : nat) (reviewElements : list ElementHandle)
    (reviews : list ReviewElement.t) : list Event * list ReviewElement.t :=
  match reviewElements with
  | [] => ([], reviews)
  | element :: rest =>
      match extractSingleReview element with
      | Ok review => extractLoop (S i) rest (reviews ++ [review])%list
      | Raises message =>
          let '(warnings, reviews) := extractLoop (S i) rest reviews in
          (LogWarn ("Failed to extract review " +:+ pretty (i + 1)%nat +:+ ": " +:+ message)
             :: warnings, reviews)
      end
  end.

(** [extractReviews]: the calls to the logger and the array returned.  No
    call of its [try] block rejects ([findReviewContainers] and the loop
    catch what the page throws), so its [catch], which logs and rethrows,
    is not entered. *)
Definition extractReviews (page : Page) : list Event * list ReviewElement.t :=
  let '(found, reviewElements) := findReviewContainers page in
  if (length reviewElements =? 0)%nat
  then ((found ++ [LogWarn "No review elements found on page"])%list, [])
  else
    let '(warnings, reviews) := extractLoop 0 reviewElements [] in
    ((found
      ++ [LogInfo ("Found " +:+ pretty (length reviewElements) +:+ " review elements")]
      ++ warnings
      ++ [LogInfo ("Successfully extracted " +:+ pretty (length reviews) +:+ " reviews")])%list,
     reviews).

End ReviewExtraction.

(** ** [src/error-handler.ts] *)

Module ErrorHandler.
Import JsString.
Import ScraperOrchestrator (Error, message, Event, LogWarn, LogError).

(** [String.prototype.toLowerCase] on code units below 256: the letters A
    to Z and the capital letters of the Latin-1 supplement (U+00C0 to
    U+00DE without the multiplication sign U+00D7) are moved by 32. *)
Definition toLowerCaseUnit (c : ascii) : ascii :=
  let n := nat_of_ascii c in
  if ((65 <=? n) && (n <=? 90)
      || (192 <=? n) && (n <=? 222) && negb (n =? 215))%nat
  then ascii_of_nat (n + 32)
  else c.

Fixpoint toLowerCase (s : string) : string :=
  match s with
  | String c s' => String (toLowerCaseUnit c) (toLowerCase s')
  | EmptyString => EmptyString
  end.

(** [array.join(separator)] *)
Fixpoint join (separator : string) (parts : list string) : string :=
  match parts with
  | [] => EmptyString
  | [part] => part
  | part :: rest => part +:+ separator +:+ join separator rest
  end.

Inductive ErrorCategory :=
| CRITICAL
| RECOVERABLE
| NON_CRITICAL.

Inductive ErrorAction :=
| TERMINATE
| RETRY
| CONTINUE.

(** [interface ErrorContext]; an absent property is [None], and the values
    of [additionalInfo] are given by the strings that a template literal
    makes of them. *)
Record ErrorContext := {
  operation : string;
  url : option string;
  pageNumber : option nat;
  attemptNumber : option nat;
  additionalInfo : option (list (string * string))
}.

Definition captchaIndicators : list string :=
  [ "captcha"; "recaptcha"; "challenge"; "cloudflare"; "access denied";
    "blocked"; "bot detection"; "security check" ].

(** [captchaIndicators.some(indicator => errorMessage.includes(indicator))] *)
Definition isCaptchaError (errorMessage : string) : bool :=
  existsb (fun indicator => includes indicator errorMessage) captchaIndicators.

Definition isCriticalError (errorMessage : string) (context : ErrorContext) : bool :=
  if includes "invalid" errorMessage && includes "url" errorMessage then true
  else if includes "browser" errorMessage
          && (includes "launch" errorMessage || includes "initialize" errorMessage)
  then true
  else if isCaptchaError errorMessage then true
  else if includes "eacces" errorMessage
          || includes "eperm" errorMessage
          || includes "permission denied" errorMessage
  then true
  else if includes "enoent" errorMessage && String.eqb (operation context) "export"
  then true
  else false.

Definition isRecoverableError (errorMessage : string) : bool :=
  if includes "timeout" errorMessage || includes "timed out" errorMessage then true
  else if includes "500" errorMessage
          || includes "502" errorMessage
          || includes "503" errorMessage
          || includes "504" errorMessage
  then true
  else if includes "econnrefused" errorMessage
          || includes "econnreset" errorMessage
          || includes "connection" errorMessage && includes "refused" errorMessage
  then true
  else if includes "429" errorMessage || includes "rate limit" errorMessage then true
  else if includes "network" errorMessage || includes "net::" errorMessage then true
  else false.

Definition classifyError (error : Error) (context : ErrorContext) : ErrorCategory :=
  let errorMessage := toLowerCase (message error) in
  if isCriticalError errorMessage context then CRITICAL
  else if isRecoverableError errorMessage then RECOVERABLE
  else NON_CRITICAL.

Definition formatContext (context : ErrorContext) : string :=
  let parts :=
    (match url context with
     | Some u => if truthy u then ["URL: " +:+ u] else []
     | None => []
     end
     ++ match pageNumber context with
        | Some n => ["Page: " +:+ pretty n]
        | None => []
        end
     ++ match additionalInfo context with
        | Some entries =>
            let infoStr :=
              join ", " (map (fun '(key, value) => key +:+ ": " +:+ value) entries) in
            if truthy infoStr then [infoStr] else []
        | None => []
        end)%list in
  if (0 <? length parts)%nat then " [" +:+ join ", " parts +:+ "]" else EmptyString.

Definition logCriticalError (error : Error) (context : ErrorContext) : Event :=
  LogError ("CRITICAL ERROR [" +:+ operation context +:+ "]: " +:+ message error
            +:+ formatContext context) (Some error).

Definition logRecoverableError (error : Error) (context : ErrorContext) : Event :=
  let attemptInfo :=
    match attemptNumber context with
    | Some (S n) => " (attempt " +:+ pretty (S n) +:+ ")"
    | Some O | None => EmptyString
    end in
  LogWarn ("Recoverable error [" +:+ operation context +:+ "]" +:+ attemptInfo +:+ ": "
           +:+ message error +:+ formatContext context).

Definition logNonCriticalError (error : Error) (context : ErrorContext) : Event :=
  LogWarn ("Non-critical error [" +:+ operation context +:+ "]: " +:+ message error
           +:+ formatContext context +:+ " - continuing execution").

(** [handleError]: the call it makes to the logger and the action it
    returns. *)
Definition handleError (error : Error) (context : ErrorContext) : Event * ErrorAction :=
  match classifyError error context with
  | CRITICAL => (logCriticalError error context, TERMINATE)
  | RECOVERABLE => (logRecoverableError error context, RETRY)
  | NON_CRITICAL => (logNonCriticalError error context, CONTINUE)
  end.

(** [isCaptcha(error)] *)
Definition isCaptcha (error : Error) : bool :=
  isCaptchaError (toLowerCase (message error)).

(** [getErrorCategory(error, context)] *)
Definition getErrorCategory (error : Error) (context : ErrorContext) : ErrorCategory :=
  classifyError error context.

End ErrorHandler.


(** * Properties *)

(** ** The retry scheduler *)

Module RateLimiterSpec.
Import JsString RateLimiter.

(** The sleep that follows a failed attempt which is not the last one. *)
Definition delayAfter (config : RetryConfig) (attempt : nat) (error : Thrown) : Z :=
  match extractRetryAfter error with
  | Some seconds => seconds * 1000
  | None => Z.min (baseDelay config * 2 ^ Z.of_nat attempt) (maxDelay config)
  end.

Section Loop.
Context {T : Type}.
Variable operation : nat -> Attempt T.
Variable config : RetryConfig.

Lemma sleeps_called (r : Run T) : sleeps (called r) = sleeps r.
Proof. reflexivity. Qed.

Lemma sleeps_slept ms (r : Run T) : sleeps (slept ms r) = ms :: sleeps r.
Proof. reflexivity. Qed.

(** One iteration of the loop on a failure that leaves a retry. *)
Lemma retryLoop_rejects fuel attempt lastError error :
  (attempt < maxRetries config)%nat ->
  operation attempt = Rejects error ->
  retryLoop operation config (S fuel) attempt lastError =
    called (slept (delayAfter config attempt error)
              (retryLoop operation config fuel (S attempt) (Some error))).
Proof.
  intros Hlt Hop. cbn [retryLoop].
  assert (Hle : (attempt <=? maxRetries config)%nat = true)
    by (apply Nat.leb_le; lia).
  assert (Hne : (attempt =? maxRetries config)%nat = false)
    by (apply Nat.eqb_neq; lia).
  rewrite Hle, Hop, Hne. unfold delayAfter, exponentialDelay.
  destruct (extractRetryAfter error); reflexivity.
Qed.

(** The [j]-th sleep from iteration [attempt] on, when the attempts up to
    [attempt + j] all fail and a retry remains after the last of them. *)
Lemma retryLoop_sleep_at (failure : nat -> Thrown) j :
  forall fuel attempt lastError,
    (attempt + fuel = S (maxRetries config))%nat ->
    (forall i, (attempt <= i <= attempt + j)%nat -> operation i = Rejects (failure i)) ->
    (attempt + j < maxRetries config)%nat ->
    sleeps (retryLoop operation config fuel attempt lastError) !! j =
      Some (delayAfter config (attempt + j)%nat (failure (attempt + j)%nat)).
Proof.
  induction j as [|j IH]; intros fuel attempt lastError Hfuel Hfail Hlt.
  - destruct fuel as [|fuel]; [lia|].
    rewrite (retryLoop_rejects fuel attempt lastError (failure attempt)) by (try apply Hfail; lia).
    rewrite sleeps_called, sleeps_slept, Nat.add_0_r. reflexivity.
  - destruct fuel as [|fuel]; [lia|].
    rewrite (retryLoop_rejects fuel attempt lastError (failure attempt)) by (try apply Hfail; lia).
    rewrite sleeps_called, sleeps_slept. cbn [lookup list_lookup].
    replace (attempt + S j)%nat with (S attempt + j)%nat by lia.
    apply IH; [lia | intros i Hi; apply Hfail; lia | lia].
Qed.

Lemma retryWithBackoff_sleep_at (failure : nat -> Thrown) k :
  (forall i, (i <= k)%nat -> operation i = Rejects (failure i)) ->
  (k < maxRetries config)%nat ->
  sleeps (retryWithBackoff operation config) !! k =
    Some (delayAfter config k (failure k)).
Proof.
  intros Hfail Hlt. unfold retryWithBackoff.
  apply (retryLoop_sleep_at failure k (S (maxRetries config)) 0 None);
    [lia | intros i Hi; apply Hfail; lia | lia].
Qed.

End Loop.

(** The scenario of the design document, on concrete failures. *)
Definition timeoutError : Thrown := Err (plainError "Navigation timeout of 30000 ms exceeded").

Definition threeTimeouts : nat -> Attempt string :=
  scripted [Rejects timeoutError; Rejects timeoutError; Rejects timeoutError] "success".

Definition fourTimeouts : nat -> Attempt string :=
  scripted [Rejects timeoutError; Rejects timeoutError; Rejects timeoutError;
            Rejects (Err (plainError "fourth failure"))] "success".

(** C4, as stated, fails: after three consecutive failures without a wait
    hint the call does return the operation's result, but it has slept
    1000 + 2000 + 4000 = 7000 ms, not 1000 + 2000 ms. *)
Lemma three_failures_sleep_7000 :
  outcome (retryWithBackoff threeTimeouts defaultRetryConfig) = Returned "success"
  /\ totalSleep (retryWithBackoff threeTimeouts defaultRetryConfig) = 7000
  /\ totalSleep (retryWithBackoff threeTimeouts defaultRetryConfig) <> 1000 + 2000.
Proof. vm_compute. repeat split; discriminate. Qed.

(** C4 (amended): under [{maxRetries: 3, baseDelay: 1000, maxDelay: 8000}],
    an operation that fails three consecutive times with errors carrying no
    wait hint and then succeeds is returned by [retryWithBackoff] on the
    third retry (its fourth invocation) after sleeps of 1000, 2000 and
    4000 ms; if it fails a fourth consecutive time, that last failure is
    re-raised unmodified after the same sleeps. *)
Theorem three_failures_then_success {T} (operation : nat -> Attempt T) e1 e2 e3 :
  operation 0%nat = Rejects e1 ->
  operation 1%nat = Rejects e2 ->
  operation 2%nat = Rejects e3 ->
  extractRetryAfter e1 = None ->
  extractRetryAfter e2 = None ->
  extractRetryAfter e3 = None ->
  (forall v, operation 3%nat = Resolves v ->
     retryWithBackoff operation defaultRetryConfig =
       {| sleeps := [1000; 2000; 4000]; calls := 4; outcome := Returned v |})
  /\ (forall e4, operation 3%nat = Rejects (Err e4) ->
        retryWithBackoff operation defaultRetryConfig =
          {| sleeps := [1000; 2000; 4000]; calls := 4; outcome := Raised (Err e4) |}).
Proof.
  intros H0 H1 H2 N1 N2 N3.
  split; intros x H3; unfold retryWithBackoff; cbn [retryLoop maxRetries defaultRetryConfig];
    cbn [Nat.leb Nat.eqb]; rewrite H0, H1, H2, H3, N1, N2, N3; reflexivity.
Qed.

Lemma three_failures_then_success_witness :
  retryWithBackoff threeTimeouts defaultRetryConfig =
    {| sleeps := [1000; 2000; 4000]; calls := 4; outcome := Returned "success" |}
  /\ retryWithBackoff fourTimeouts defaultRetryConfig =
       {| sleeps := [1000; 2000; 4000]; calls := 4;
          outcome := Raised (Err (plainError "fourth failure")) |}.
Proof.
  split.
  - apply (proj1 (three_failures_then_success threeTimeouts
                    timeoutError timeoutError timeoutError
                    eq_refl eq_refl eq_refl eq_refl eq_refl eq_refl)).
    reflexivity.
  - apply (proj2 (three_failures_then_success fourTimeouts
                    timeoutError timeoutError timeoutError
                    eq_refl eq_refl eq_refl eq_refl eq_refl eq_refl)).
    reflexivity.
Defined.

(** A 429 response that carries [retry-after: 5]. *)
Definition rateLimited5 : Thrown :=
  Err {| message := None; err_status := None;
         response := Some {| status := Some 429;
                             headers := Some {[ "retry-after" := "5" ]} |} |}.






(** C10: if a failure handled by [retryWithBackoff] has a message that
    contains 429, or a [status] equal to 429, and no parseable retry-after
    header, and a retry remains, then the sleep before the next attempt is
    60 seconds, whatever [maxDelay] is: in particular it exceeds a
    [maxDelay] below 60000 ms. *)
Theorem rate_limit_default_wait {T} (operation : nat -> Attempt T)
    (config : RetryConfig) (failure : nat -> Thrown) (k : nat) (e : JsError) :
  (forall i, (i < k)%nat -> operation i = Rejects (failure i)) ->
  operation k = Rejects (Err e) ->
  (k < maxRetries config)%nat ->
  mentions429 e = true ->
  parsedRetryAfterHeader e = None ->
  sleeps (retryWithBackoff operation config) !! k = Some (60 * 1000)
  /\ (maxDelay config < 60 * 1000 ->
      exists ms, sleeps (retryWithBackoff operation config) !! k = Some ms
                 /\ maxDelay config < ms).
Proof.
  intros Hbefore Hk Hlt H429 Hheader.
  assert (Hsleep : sleeps (retryWithBackoff operation config) !! k = Some (60 * 1000)).
  { rewrite (retryWithBackoff_sleep_at operation config
               (fun i => if (i =? k)%nat then Err e else failure i) k).
    - unfold delayAfter. rewrite Nat.eqb_refl. cbn [extractRetryAfter].
      unfold extractRetryAfterErr. rewrite Hheader, H429. reflexivity.
    - intros i Hi. destruct (Nat.eqb_spec i k) as [->|Hne]; [exact Hk|].
      apply Hbefore. lia.
    - exact Hlt. }
  split; [exact Hsleep|]. intros Hmax. exists (60 * 1000). split; [exact Hsleep | exact Hmax].
Qed.

(** A failure whose message mentions 429, and one whose [status] is 429 with
    a 429 response whose retry-after header is an HTTP date. *)
Definition tooManyRequests : JsError := plainError "HTTP 429 Too Many Requests".

Definition rateLimitedWithDate : JsError :=
  {| message := Some "rate limited"; err_status := Some 429;
     response := Some {| status := Some 429;
                         headers := Some {[ "retry-after" := "Wed, 21 Oct 2026 07:28:00 GMT" ]} |} |}.

Lemma rate_limit_default_wait_witness :
  sleeps (retryWithBackoff (scripted [Rejects timeoutError; Rejects (Err tooManyRequests)] "success")
            defaultRetryConfig) !! 1%nat = Some 60000
  /\ sleeps (retryWithBackoff (scripted [Rejects (Err rateLimitedWithDate)] "success")
               defaultRetryConfig) !! 0%nat = Some 60000.
Proof.
  split.
  - apply (rate_limit_default_wait
             (scripted [Rejects timeoutError; Rejects (Err tooManyRequests)] "success")
             defaultRetryConfig (fun _ => timeoutError) 1 tooManyRequests).
    + intros [|i] Hi; [reflexivity | lia].
    + reflexivity.
    + vm_compute; lia.
    + vm_compute; reflexivity.
    + vm_compute; reflexivity.
  - apply (rate_limit_default_wait
             (scripted [Rejects (Err rateLimitedWithDate)] "success")
             defaultRetryConfig (fun _ => Falsy) 0 rateLimitedWithDate).
    + intros i Hi; lia.
    + reflexivity.
    + vm_compute; lia.
    + vm_compute; reflexivity.
    + vm_compute; reflexivity.
Defined.

End RateLimiterSpec.

(** ** Facts about the string primitives *)

Module JsStringFacts.
Import JsString.

Lemma append_nil_l (s : string) : EmptyString +:+ s = s.
Proof. reflexivity. Qed.

Lemma append_cons c (s t : string) : String c s +:+ t = String c (s +:+ t).
Proof. reflexivity. Qed.

Ltac push_append := rewrite ?append_cons, ?append_nil_l.
Tactic Notation "push_append" "in" hyp(H) :=
  rewrite ?append_cons, ?append_nil_l in H.

Lemma prefix_spec (p s : string) :
  String.prefix p s = true <-> exists rest, s = p +:+ rest.
Proof.
  revert s. induction p as [|a p IH]; intros s.
  - split; [intros _; exists s; reflexivity | intros _; destruct s; reflexivity].
  - destruct s as [|b s]; cbn [String.prefix].
    + split; [discriminate | intros [rest H]; discriminate].
    + destruct (ascii_dec a b) as [->|Hne].
      * rewrite IH. split; intros [rest H]; exists rest.
        -- cbn. now rewrite H.
        -- cbn in H. now injection H.
      * split; [discriminate|]. intros [rest H]. cbn in H. injection H as H1 _.
        now destruct Hne.
Qed.

Lemma includes_cons (needle : string) c s :
  includes needle (String c s) = String.prefix needle (String c s) || includes needle s.
Proof. reflexivity. Qed.

(** [includes] is the substring test. *)
Lemma includes_spec (needle s : string) :
  includes needle s = true <-> exists a b, s = a +:+ needle +:+ b.
Proof.
  induction s as [|c s IH].
  - cbn [includes]. rewrite orb_false_r, prefix_spec. split.
    + intros [rest H]. exists EmptyString, rest. exact H.
    + intros [[|x a] [b H]]; [exists b; exact H | discriminate].
  - rewrite includes_cons, orb_true_iff, prefix_spec, IH. split.
    + intros [[rest H]|[a [b H]]].
      * exists EmptyString, rest. exact H.
      * exists (String c a), b. cbn. now rewrite H.
    + intros [[|x a] [b H]].
      * left. exists b. exact H.
      * right. cbn in H. injection H as _ H. exists a, b. exact H.
Qed.

Lemma digit_not_space c : is_digit c = true -> is_js_space c = false.
Proof.
  unfold is_digit, is_js_space. intros H.
  apply andb_true_iff in H as [H1 H2].
  apply Nat.leb_le in H1, H2.
  destruct (nat_of_ascii c) as [|n]; [lia|].
  do 48 (destruct n as [|n]; [lia|]).
  do 10 (destruct n as [|n]; [reflexivity|]). lia.
Qed.

Lemma space_not_digit c : is_js_space c = true -> is_digit c = false.
Proof.
  intros Hs. destruct (is_digit c) eqn:Hd; [|reflexivity].
  apply digit_not_space in Hd. congruence.
Qed.

Lemma LF_is_space : is_js_space LF = true.
Proof. reflexivity. Qed.

Lemma CR_is_space : is_js_space CR = true.
Proof. reflexivity. Qed.

Lemma not_space_not_LF c : is_js_space c = false -> c <> LF.
Proof. intros H ->. discriminate. Qed.

Lemma not_space_not_CR c : is_js_space c = false -> c <> CR.
Proof. intros H ->. discriminate. Qed.

(** *** [trim] *)

Lemma skip_spaces_start s : starts_with_space (skip_spaces s) = false.
Proof.
  induction s as [|c s IH]; [reflexivity|]. cbn [skip_spaces].
  destruct (is_js_space c) eqn:Hc; [exact IH | cbn; exact Hc].
Qed.

Lemma trimEnd_start s :
  starts_with_space s = false -> starts_with_space (trimEnd s) = false.
Proof.
  destruct s as [|c s]; [reflexivity|]. cbn [starts_with_space trimEnd]. intros Hc.
  destruct (trimEnd s); [rewrite Hc|]; cbn; exact Hc.
Qed.

Lemma trimEnd_end s : ends_with_space (trimEnd s) = false.
Proof.
  induction s as [|c s IH]; [reflexivity|]. cbn [trimEnd].
  destruct (trimEnd s) as [|c' t].
  - destruct (is_js_space c) eqn:Hc; [reflexivity | cbn; exact Hc].
  - exact IH.
Qed.

Lemma trim_start s : starts_with_space (trim s) = false.
Proof. apply trimEnd_start, skip_spaces_start. Qed.

Lemma trim_end s : ends_with_space (trim s) = false.
Proof. apply trimEnd_end. Qed.

(** A string that does not end with white space is empty or ends with
    another character. *)
Lemma ends_snoc s c : ends_with_space (s +:+ String c EmptyString) = is_js_space c.
Proof.
  induction s as [|a s IH]; [reflexivity|].
  push_append. cbn [ends_with_space]. destruct s; exact IH.
Qed.

Lemma snoc_cases s : s = EmptyString \/ exists u c, s = u +:+ String c EmptyString.
Proof.
  induction s as [|a s IH]; [now left|]. right.
  destruct IH as [->|[u [c ->]]].
  - exists EmptyString, a. reflexivity.
  - exists (String a u), c. reflexivity.
Qed.

Lemma no_trailing_space_cases s :
  ends_with_space s = false ->
  s = EmptyString \/ exists u c, s = u +:+ String c EmptyString /\ is_js_space c = false.
Proof.
  intros H. destruct (snoc_cases s) as [->|[u [c ->]]]; [now left|].
  right. exists u, c. split; [reflexivity|]. now rewrite ends_snoc in H.
Qed.

End JsStringFacts.

(** ** The normalizer: [sanitizeText] *)

Module SanitizeTextSpec.
Import JsString JsStringFacts DataTransformer.

Definition CRs : string := String CR EmptyString.
Definition LF3 : string := String LF (String LF (String LF EmptyString)).

(** Number of LF at the start of a string. *)
Fixpoint leadingLF (s : string) : nat :=
  match s with
  | String c s' => if Ascii.eqb c LF then S (leadingLF s') else O
  | EmptyString => O
  end.

Fixpoint hasCR (s : string) : bool :=
  match s with
  | String c s' => Ascii.eqb c CR || hasCR s'
  | EmptyString => false
  end.

Lemma replaceCRLF_cons2 c1 c2 rest :
  replaceCRLF (String c1 (String c2 rest)) =
    if Ascii.eqb c1 CR && Ascii.eqb c2 LF
    then String LF (replaceCRLF rest)
    else String c1 (replaceCRLF (String c2 rest)).
Proof. reflexivity. Qed.

(** *** The three replacements keep a first and a last character that is
    not white space *)

Lemma replaceCRLF_start s :
  starts_with_space s = false -> starts_with_space (replaceCRLF s) = false.
Proof.
  destruct s as [|c1 [|c2 rest]]; try (intros H; exact H).
  rewrite replaceCRLF_cons2. cbn [starts_with_space]. intros H.
  destruct (Ascii.eqb_spec c1 CR) as [->|Hne]; [discriminate | exact H].
Qed.

Lemma replaceCR_start s :
  starts_with_space s = false -> starts_with_space (replaceCR s) = false.
Proof.
  destruct s as [|c s]; [reflexivity|]. cbn [starts_with_space replaceCR]. intros H.
  destruct (Ascii.eqb_spec c CR) as [->|Hne]; [discriminate | exact H].
Qed.

Lemma collapseLFfrom_start run s :
  starts_with_space s = false -> starts_with_space (collapseLFfrom run s) = false.
Proof.
  destruct s as [|c s]; [reflexivity|]. cbn [starts_with_space collapseLFfrom]. intros H.
  destruct (Ascii.eqb_spec c LF) as [->|Hne]; [discriminate | exact H].
Qed.

Lemma replaceCRLF_snoc c :
  c <> LF ->
  forall n u, (String.length u <= n)%nat ->
    replaceCRLF (u +:+ String c EmptyString) = replaceCRLF u +:+ String c EmptyString.
Proof.
  intros Hc. induction n as [|n IH]; intros u Hlen.
  - destruct u; [reflexivity | cbn in Hlen; lia].
  - destruct u as [|c1 [|c2 rest]]; [reflexivity | |].
    + push_append. rewrite replaceCRLF_cons2.
      destruct (Ascii.eqb_spec c LF) as [->|_]; [contradiction|].
      rewrite andb_false_r. reflexivity.
    + push_append. rewrite !replaceCRLF_cons2.
      cbn [String.length] in Hlen.
      destruct (Ascii.eqb c1 CR && Ascii.eqb c2 LF).
      * rewrite (IH rest) by lia. reflexivity.
      * rewrite <- append_cons.
        rewrite (IH (String c2 rest)) by (cbn [String.length]; lia). reflexivity.
Qed.

Lemma replaceCR_snoc c u :
  c <> CR ->
  replaceCR (u +:+ String c EmptyString) = replaceCR u +:+ String c EmptyString.
Proof.
  intros Hc. induction u as [|a u IH]; push_append; cbn [replaceCR].
  - destruct (Ascii.eqb_spec c CR); [contradiction | reflexivity].
  - now rewrite IH.
Qed.

Lemma collapseLFfrom_snoc c u :
  c <> LF ->
  forall run, collapseLFfrom run (u +:+ String c EmptyString)
              = collapseLFfrom run u +:+ String c EmptyString.
Proof.
  intros Hc. induction u as [|a u IH]; intros run; push_append; cbn [collapseLFfrom].
  - destruct (Ascii.eqb_spec c LF); [contradiction | reflexivity].
  - destruct (Ascii.eqb a LF); [destruct (run <? 2)%nat|]; now rewrite IH.
Qed.

Lemma pipeline_end s :
  ends_with_space s = false ->
  ends_with_space (collapseLF (replaceCR (replaceCRLF s))) = false.
Proof.
  intros H. destruct (no_trailing_space_cases s H) as [->|[u [c [-> Hc]]]]; [reflexivity|].
  rewrite (replaceCRLF_snoc c (not_space_not_LF c Hc) (String.length u) u) by lia.
  rewrite replaceCR_snoc by (apply not_space_not_CR, Hc).
  unfold collapseLF. rewrite collapseLFfrom_snoc by (apply not_space_not_LF, Hc).
  rewrite ends_snoc. exact Hc.
Qed.

(** *** No CR is left *)

Lemma replaceCR_hasCR s : hasCR (replaceCR s) = false.
Proof.
  induction s as [|c s IH]; [reflexivity|]. cbn [replaceCR hasCR]. rewrite IH, orb_false_r.
  destruct (Ascii.eqb_spec c CR) as [->|Hne]; [reflexivity|].
  now apply Ascii.eqb_neq.
Qed.

Lemma collapseLFfrom_hasCR s :
  hasCR s = false -> forall run, hasCR (collapseLFfrom run s) = false.
Proof.
  induction s as [|c s IH]; [reflexivity|]. cbn [hasCR collapseLFfrom]. intros H run.
  apply orb_false_iff in H as [Hc Hs].
  destruct (Ascii.eqb c LF); [destruct (run <? 2)%nat|]; cbn [hasCR];
    rewrite ?IH by exact Hs; rewrite ?Hc; reflexivity.
Qed.

Lemma hasCR_includes s : hasCR s = false -> includes CRs s = false.
Proof.
  induction s as [|c s IH]; [reflexivity|]. cbn [hasCR]. intros H.
  apply orb_false_iff in H as [Hc Hs].
  rewrite includes_cons, (IH Hs), orb_false_r. unfold CRs. cbn [String.prefix].
  destruct (ascii_dec CR c) as [<-|Hne]; [|reflexivity].
  now rewrite Ascii.eqb_refl in Hc.
Qed.

(** *** No run of three LF is left *)

Lemma prefix_LF2_leading s :
  String.prefix (String LF (String LF EmptyString)) s = true -> (2 <= leadingLF s)%nat.
Proof.
  destruct s as [|a [|b s]]; cbn [String.prefix]; try discriminate.
  - destruct (ascii_dec LF a); discriminate.
  - destruct (ascii_dec LF a) as [<-|]; [|discriminate].
    destruct (ascii_dec LF b) as [<-|]; [|discriminate].
    intros _. cbn [leadingLF]. rewrite Ascii.eqb_refl. lia.
Qed.

Lemma collapseLFfrom_runs s :
  forall run,
    includes LF3 (collapseLFfrom run s) = false
    /\ (leadingLF (collapseLFfrom run s) + Nat.min run 2 <= 2)%nat.
Proof.
  induction s as [|c s IH]; intros run.
  - cbn. split; [reflexivity | lia].
  - cbn [collapseLFfrom]. destruct (Ascii.eqb_spec c LF) as [->|Hne].
    + destruct (Nat.ltb_spec run 2) as [Hlt|Hge].
      * destruct (IH (S run)) as [Hinc Hlead]. split.
        -- rewrite includes_cons, Hinc, orb_false_r. unfold LF3. cbn [String.prefix].
           destruct (ascii_dec LF LF) as [_|Hn]; [|contradiction].
           destruct (String.prefix (String LF (String LF EmptyString))
                       (collapseLFfrom (S run) s)) eqn:Hp; [|reflexivity].
           apply prefix_LF2_leading in Hp. lia.
        -- cbn [leadingLF]. rewrite Ascii.eqb_refl. lia.
      * destruct (IH (S run)) as [Hinc Hlead]. split; [exact Hinc | lia].
    + destruct (IH O) as [Hinc _]. split.
      * rewrite includes_cons, Hinc, orb_false_r. unfold LF3. cbn [String.prefix].
        destruct (ascii_dec LF c) as [<-|_]; [contradiction | reflexivity].
      * cbn [leadingLF]. apply Ascii.eqb_neq in Hne. rewrite Hne. lia.
Qed.

(** C8: for every input string, the output of [sanitizeText] has no leading
    and no trailing white space, contains no CR, contains no run of three
    or more consecutive LF, and is empty when the input is empty. *)
Theorem sanitizeText_normal_form (text : string) :
  starts_with_space (sanitizeText text) = false
  /\ ends_with_space (sanitizeText text) = false
  /\ includes CRs (sanitizeText text) = false
  /\ includes LF3 (sanitizeText text) = false
  /\ (text = EmptyString -> sanitizeText text = EmptyString).
Proof.
  unfold sanitizeText. destruct text as [|c text]; [cbn; repeat split; reflexivity|].
  cbn [truthy negb]. set (t := trim (String c text)).
  split; [|split; [|split; [|split]]].
  - unfold collapseLF.
    apply collapseLFfrom_start, replaceCR_start, replaceCRLF_start, trim_start.
  - apply pipeline_end, trim_end.
  - apply hasCR_includes, collapseLFfrom_hasCR, replaceCR_hasCR.
  - apply collapseLFfrom_runs.
  - discriminate.
Qed.

Lemma sanitizeText_normal_form_witness : sanitizeText EmptyString = EmptyString.
Proof.
  apply (proj2 (proj2 (proj2 (proj2 (sanitizeText_normal_form EmptyString))))).
  reflexivity.
Defined.

(** The cases of the unit tests. *)
Example sanitizeText_examples :
  sanitizeText ("  line1" +:+ String CR (String LF (String LF (String LF (String LF "line2  ")))))
  = "line1" +:+ String LF (String LF "line2")
  /\ sanitizeText "   " = EmptyString
  /\ sanitizeText ("a" +:+ String CR "b") = "a" +:+ String LF "b".
Proof. vm_compute. repeat split. Qed.

End SanitizeTextSpec.

(** ** The normalizer: [parseRating] *)

Module ParseRatingSpec.
Import JsString JsStringFacts DataTransformer.

Fixpoint all_digits (s : string) : bool :=
  match s with
  | String c s' => is_digit c && all_digits s'
  | EmptyString => true
  end.

Fixpoint no_digit (s : string) : bool :=
  match s with
  | String c s' => negb (is_digit c) && no_digit s'
  | EmptyString => true
  end.

Fixpoint all_spaces (s : string) : bool :=
  match s with
  | String c s' => is_js_space c && all_spaces s'
  | EmptyString => true
  end.

Definition starts_with_digit (s : string) : bool :=
  match s with
  | String c _ => is_digit c
  | EmptyString => false
  end.

(** A numeric token: an integer (one or more digits) or a decimal (an
    integer, a dot, one or more digits). *)
Inductive NumericToken : string -> Prop :=
| Integer int :
    int <> EmptyString -> all_digits int = true -> NumericToken int
| Decimal int frac :
    int <> EmptyString -> frac <> EmptyString ->
    all_digits int = true -> all_digits frac = true ->
    NumericToken (int +:+ "." +:+ frac).

(** [tok] is the longest numeric token at the start of [tok +:+ post]. *)
Definition Longest (tok post : string) : Prop :=
  forall tok' post',
    tok +:+ post = tok' +:+ post' -> NumericToken tok' ->
    (String.length tok' <= String.length tok)%nat.

(** [tok] is the first numeric token of [s]: it starts at the first digit
    of [s] and is the longest numeric token that starts there. *)
Definition FirstNumericToken (s pre tok post : string) : Prop :=
  s = pre +:+ tok +:+ post
  /\ no_digit pre = true
  /\ NumericToken tok
  /\ Longest tok post.

(** *** Appending and lengths *)

Lemma length_append (a b : string) :
  String.length (a +:+ b) = (String.length a + String.length b)%nat.
Proof. induction a as [|c a IH]; push_append; cbn [String.length]; [reflexivity | now rewrite IH]. Qed.

Lemma append_assoc (a b c : string) : (a +:+ b) +:+ c = a +:+ b +:+ c.
Proof. induction a as [|x a IH]; push_append; [reflexivity | now rewrite IH]. Qed.

Lemma append_nil_r (a : string) : a +:+ EmptyString = a.
Proof. induction a as [|x a IH]; push_append; [reflexivity | now rewrite IH]. Qed.

Lemma append_same_length (a b a' b' : string) :
  a +:+ b = a' +:+ b' -> String.length a = String.length a' -> a = a' /\ b = b'.
Proof.
  revert a'. induction a as [|x a IH]; intros [|x' a'] H Hlen; try discriminate.
  - now split.
  - rewrite !append_cons in H. injection H as -> H.
    cbn [String.length] in Hlen. destruct (IH a' H) as [-> ->]; [lia | now split].
Qed.

Lemma truthy_true s : truthy s = true <-> s <> EmptyString.
Proof. destruct s; cbn; split; congruence. Qed.

Lemma truthy_false s : truthy s = false <-> s = EmptyString.
Proof. destruct s; cbn; split; congruence. Qed.

(** *** [span_digits] splits off the maximal run of digits *)

Lemma span_digits_spec s d r :
  span_digits s = (d, r) ->
  s = d +:+ r /\ all_digits d = true /\ starts_with_digit r = false.
Proof.
  revert d r. induction s as [|c s IH]; intros d r; cbn [span_digits].
  - intros [= <- <-]. now repeat split.
  - destruct (is_digit c) eqn:Hc.
    + destruct (span_digits s) as [d0 r0]. intros [= <- <-].
      destruct (IH d0 r0 eq_refl) as [-> [Hd Hr]].
      repeat split; [| exact Hr]. cbn [all_digits]. now rewrite Hc.
    + intros [= <- <-]. repeat split. exact Hc.
Qed.

Lemma span_digits_unique d r :
  all_digits d = true -> starts_with_digit r = false ->
  span_digits (d +:+ r) = (d, r).
Proof.
  induction d as [|c d IH]; push_append; cbn [all_digits span_digits]; intros Hd Hr.
  - destruct r as [|c r]; [reflexivity|]. cbn [starts_with_digit] in Hr.
    cbn [span_digits]. now rewrite Hr.
  - apply andb_true_iff in Hd as [Hc Hd]. now rewrite Hc, (IH Hd Hr).
Qed.

(** A run of digits at the start of a string lies within the maximal one. *)
Lemma span_digits_longest d' r' :
  all_digits d' = true ->
  (String.length d' <= String.length (fst (span_digits (d' +:+ r'))))%nat.
Proof.
  induction d' as [|c d' IH]; push_append; cbn [all_digits String.length]; intros Hd; [lia|].
  apply andb_true_iff in Hd as [Hc Hd]. cbn [span_digits]. rewrite Hc.
  specialize (IH Hd). destruct (span_digits (d' +:+ r')) as [d0 r0].
  cbn [fst String.length] in *. lia.
Qed.

Lemma all_digits_start s :
  s <> EmptyString -> all_digits s = true -> starts_with_digit s = true.
Proof.
  destruct s as [|c s]; [congruence|]. cbn. intros _ H.
  now apply andb_true_iff in H as [Hc _].
Qed.

Lemma starts_with_digit_append a b :
  starts_with_digit a = true -> starts_with_digit (a +:+ b) = true.
Proof. destruct a; [discriminate | intros H; exact H]. Qed.

Lemma dot_not_digit : is_digit "." = false.
Proof. reflexivity. Qed.

Lemma fraction_of_dot r : fraction_of (String "." r) = fst (span_digits r).
Proof. reflexivity. Qed.

Lemma fraction_of_digits rest : all_digits (fraction_of rest) = true.
Proof.
  destruct rest as [|c r]; [reflexivity|]. cbn [fraction_of].
  destruct (Ascii.eqb c "."); [|reflexivity].
  destruct (span_digits r) as [d0 r0] eqn:Hs.
  now destruct (span_digits_spec r d0 r0 Hs) as [_ [Hd _]].
Qed.

(** *** What a match at the first character is *)

Lemma numeric_token_start tok : NumericToken tok -> starts_with_digit tok = true.
Proof.
  intros [int Hne Hd|int frac Hne _ Hd _].
  - now apply all_digits_start.
  - now apply starts_with_digit_append, all_digits_start.
Qed.

Lemma match_number_here_none s :
  starts_with_digit s = false -> match_number_here s = None.
Proof.
  destruct s as [|c s]; [reflexivity|]. cbn [starts_with_digit]. intros Hc.
  unfold match_number_here. cbn [span_digits]. now rewrite Hc.
Qed.

Lemma match_number_here_some s :
  starts_with_digit s = true -> exists tok, match_number_here s = Some tok.
Proof.
  destruct s as [|c s]; [discriminate|]. cbn [starts_with_digit]. intros Hc.
  unfold match_number_here. cbn [span_digits]. rewrite Hc.
  destruct (span_digits s) as [d r]. cbn [truthy]. eauto.
Qed.

(** A token found at the first character is a numeric token, and the
    longest one there. *)
Lemma match_number_here_spec s tok :
  match_number_here s = Some tok ->
  exists post, s = tok +:+ post /\ NumericToken tok /\ Longest tok post.
Proof.
  unfold match_number_here.
  destruct (span_digits s) as [int rest] eqn:Hspan.
  destruct (span_digits_spec s int rest Hspan) as [-> [Hint Hrest]].
  destruct (truthy int) eqn:Hti; [|discriminate].
  apply truthy_true in Hti.
  destruct (truthy (fraction_of rest)) eqn:Htf; intros [= <-].
  - (* the optional group matches *)
    apply truthy_true in Htf.
    destruct rest as [|c r]; [now cbn in Htf|].
    cbn [fraction_of] in *. destruct (Ascii.eqb_spec c ".") as [->|]; [|congruence].
    destruct (span_digits r) as [frac r2] eqn:Hr. cbn [fst] in *.
    destruct (span_digits_spec r frac r2 Hr) as [-> [Hfrac Hr2]].
    exists r2. split; [|split].
    + now rewrite !append_assoc, !append_cons, append_nil_l.
    + now constructor.
    + intros tok' post' Heq Htok'. rewrite !length_append. cbn [String.length].
      destruct Htok' as [int' Hne' Hd'|int' frac' Hne' Hfne' Hd' Hf'].
      * rewrite !append_assoc in Heq. push_append in Heq.
        pose proof (span_digits_longest int' post' Hd') as Hlong.
        rewrite <- Heq, span_digits_unique in Hlong by (trivial; apply dot_not_digit).
        cbn [fst] in Hlong. lia.
      * rewrite !append_assoc in Heq. push_append in Heq.
        assert (Hsp := span_digits_unique int (String "." (frac +:+ r2)) Hint dot_not_digit).
        rewrite Heq, span_digits_unique in Hsp by (trivial; apply dot_not_digit).
        injection Hsp as -> Hrest'. rewrite !length_append. cbn [String.length].
        pose proof (span_digits_longest frac' post' Hf') as Hlong.
        rewrite Hrest', span_digits_unique in Hlong by trivial.
        cbn [fst] in Hlong. lia.
  - (* the optional group matches nothing *)
    apply truthy_false in Htf.
    exists rest. split; [reflexivity|]. split; [now constructor|].
    intros tok' post' Heq Htok'.
    destruct Htok' as [int' Hne' Hd'|int' frac' Hne' Hfne' Hd' Hf'].
    + pose proof (span_digits_longest int' post' Hd') as Hlong.
      rewrite <- Heq, span_digits_unique in Hlong by trivial.
      cbn [fst] in Hlong. exact Hlong.
    + exfalso. rewrite !append_assoc in Heq. push_append in Heq.
      assert (Hsp := span_digits_unique int rest Hint Hrest).
      rewrite Heq, span_digits_unique in Hsp by (trivial; apply dot_not_digit).
      injection Hsp as -> <-. rewrite fraction_of_dot in Htf.
      pose proof (span_digits_longest frac' post' Hf') as Hlong.
      rewrite Htf in Hlong. destruct frac'; [congruence | cbn in Hlong; lia].
Qed.

(** Conversely the longest numeric token at the first character is the
    one that is found. *)
Lemma match_number_here_longest tok post :
  NumericToken tok -> Longest tok post ->
  match_number_here (tok +:+ post) = Some tok.
Proof.
  intros Htok Hlong.
  destruct (match_number_here_some (tok +:+ post)) as [tok0 H0].
  { apply starts_with_digit_append, numeric_token_start, Htok. }
  rewrite H0. f_equal.
  destruct (match_number_here_spec _ _ H0) as [post0 [Heq [Htok0 Hlong0]]].
  symmetry. apply (append_same_length tok post tok0 post0 Heq).
  apply Nat.le_antisymm.
  - apply (Hlong0 tok post); [now symmetry | exact Htok].
  - apply (Hlong tok0 post0); [exact Heq | exact Htok0].
Qed.

(** *** The leftmost match *)

Lemma match_number_cons c s :
  match_number (String c s) =
    match match_number_here (String c s) with
    | Some tok => Some tok
    | None => match_number s
    end.
Proof. reflexivity. Qed.

Lemma match_number_first s pre tok post :
  FirstNumericToken s pre tok post -> match_number s = Some tok.
Proof.
  intros [-> [Hpre [Htok Hlong]]].
  induction pre as [|c pre IH]; push_append.
  - pose proof (match_number_here_longest tok post Htok Hlong) as Hhere.
    destruct (tok +:+ post) as [|x rest]; [discriminate Hhere|].
    now rewrite match_number_cons, Hhere.
  - cbn [no_digit] in Hpre. apply andb_true_iff in Hpre as [Hc Hpre].
    rewrite match_number_cons, match_number_here_none.
    + exact (IH Hpre).
    + cbn. now apply negb_true_iff.
Qed.

Lemma match_number_spec s :
  match match_number s with
  | Some tok => exists pre post, FirstNumericToken s pre tok post
  | None => no_digit s = true
  end.
Proof.
  induction s as [|c s IH]; [reflexivity|].
  rewrite match_number_cons.
  destruct (match_number_here (String c s)) as [tok|] eqn:Hhere.
  - destruct (match_number_here_spec _ _ Hhere) as [post [Heq [Htok Hlong]]].
    exists EmptyString, post. now repeat split.
  - assert (Hc : is_digit c = false).
    { destruct (is_digit c) eqn:Hc; [|reflexivity].
      destruct (match_number_here_some (String c s) Hc) as [tok Htok]. congruence. }
    destruct (match_number s) as [tok|].
    + destruct IH as [pre [post [-> [Hpre [Htok Hlong]]]]].
      exists (String c pre), post. repeat split; trivial.
      cbn [no_digit]. now rewrite Hc.
    + cbn [no_digit]. now rewrite Hc.
Qed.

Lemma no_digit_no_token s pre tok post :
  no_digit s = true -> ~ FirstNumericToken s pre tok post.
Proof.
  intros Hno Hfirst. apply match_number_first in Hfirst.
  pose proof (match_number_spec s) as Hspec. rewrite Hfirst in Hspec.
  destruct Hspec as [pre' [post' [-> [_ [Htok _]]]]].
  apply numeric_token_start in Htok. clear Hfirst.
  induction pre' as [|c pre' IH]; push_append in Hno.
  - destruct tok as [|x tok]; [discriminate|]. push_append in Hno.
    cbn in Hno, Htok. rewrite Htok in Hno. discriminate.
  - cbn [no_digit] in Hno. apply andb_true_iff in Hno as [_ Hno]. exact (IH Hno).
Qed.

(** *** [trim] leaves the first numeric token in place *)

Lemma match_number_skip_spaces s : match_number (skip_spaces s) = match_number s.
Proof.
  induction s as [|c s IH]; [reflexivity|]. cbn [skip_spaces].
  destruct (is_js_space c) eqn:Hc; [|reflexivity].
  rewrite match_number_cons, match_number_here_none; [exact IH|].
  cbn. now apply space_not_digit.
Qed.

Lemma trimEnd_split s : exists w, s = trimEnd s +:+ w /\ all_spaces w = true.
Proof.
  induction s as [|c s [w [Hs Hw]]]; [now exists EmptyString|]. cbn [trimEnd].
  destruct (trimEnd s) as [|c' t] eqn:Ht.
  - push_append in Hs. subst w. destruct (is_js_space c) eqn:Hc.
    + exists (String c s). split; [reflexivity|]. cbn [all_spaces]. now rewrite Hc.
    + exists s. now split.
  - exists w. push_append. split; [f_equal; exact Hs | exact Hw].
Qed.

Lemma all_spaces_start w : all_spaces w = true -> starts_with_digit w = false.
Proof.
  destruct w as [|c w]; [reflexivity|]. cbn. intros H.
  apply andb_true_iff in H as [Hc _]. now apply space_not_digit.
Qed.

Lemma span_digits_spaces w s :
  all_spaces w = true ->
  span_digits (s +:+ w) = (fst (span_digits s), snd (span_digits s) +:+ w).
Proof.
  intros Hw. induction s as [|c s IH]; push_append.
  - apply (span_digits_unique EmptyString w); [reflexivity | now apply all_spaces_start].
  - cbn [span_digits]. destruct (is_digit c); [|reflexivity].
    rewrite IH. now destruct (span_digits s).
Qed.

Lemma fraction_of_spaces w rest :
  all_spaces w = true -> fraction_of (rest +:+ w) = fraction_of rest.
Proof.
  intros Hw. destruct rest as [|c r]; push_append.
  - destruct w as [|x w]; [reflexivity|]. cbn [fraction_of all_spaces] in *.
    apply andb_true_iff in Hw as [Hx _].
    destruct (Ascii.eqb_spec x ".") as [->|]; [discriminate | reflexivity].
  - cbn [fraction_of]. destruct (Ascii.eqb c "."); [|reflexivity].
    now rewrite span_digits_spaces.
Qed.

Lemma match_number_here_spaces w s :
  all_spaces w = true -> match_number_here (s +:+ w) = match_number_here s.
Proof.
  intros Hw. unfold match_number_here. rewrite span_digits_spaces by exact Hw.
  destruct (span_digits s) as [int rest]. cbn [fst snd].
  now rewrite fraction_of_spaces.
Qed.

Lemma match_number_spaces w :
  all_spaces w = true -> match_number w = None.
Proof.
  induction w as [|c w IH]; [reflexivity|]. cbn [all_spaces]. intros H.
  apply andb_true_iff in H as [Hc Hw].
  rewrite match_number_cons, match_number_here_none; [exact (IH Hw)|].
  cbn. now apply space_not_digit.
Qed.

Lemma match_number_append_spaces w s :
  all_spaces w = true -> match_number (s +:+ w) = match_number s.
Proof.
  intros Hw. induction s as [|c s IH]; push_append.
  - now apply match_number_spaces.
  - rewrite !match_number_cons, <- append_cons, match_number_here_spaces by exact Hw.
    now rewrite IH.
Qed.

Lemma match_number_trim s : match_number (trim s) = match_number s.
Proof.
  unfold trim, trimStart. rewrite <- (match_number_skip_spaces s).
  destruct (trimEnd_split (skip_spaces s)) as [w [Hs Hw]].
  rewrite Hs at 2. now rewrite match_number_append_spaces.
Qed.

Lemma parseRating_unfold s :
  parseRating s = match match_number s with
                  | Some tok => acceptRating (parseFloat tok)
                  | None => 0%Q
                  end.
Proof.
  unfold parseRating. destruct s as [|c s]; [reflexivity|].
  cbn [truthy negb]. now rewrite match_number_trim.
Qed.

(** *** The number a token denotes *)

Lemma roundHalfEven_bounds n d lo hi :
  0 < d -> lo * d <= n -> n <= hi * d -> lo <= roundHalfEven n d <= hi.
Proof.
  intros Hd Hlo Hhi. unfold roundHalfEven.
  pose proof (Z.div_mod n d ltac:(lia)) as Hdiv.
  pose proof (Z.mod_pos_bound n d Hd) as Hmod.
  destruct (Z.compare_spec (2 * (n mod d)) d); [destruct (Z.even (n / d))| |]; nia.
Qed.

Lemma binade_le n d : 0 < d -> 0 < n -> n <= 5 * d -> binade n d <= 3.
Proof.
  intros Hd Hn Hle. unfold binade.
  assert (Z.log2 n <= 3 + Z.log2 d).
  { rewrite <- (Z.log2_mul_pow2 d 3) by lia. apply Z.log2_le_mono. lia. }
  destruct (if 0 <=? Z.log2 n - Z.log2 d
            then d * 2 ^ (Z.log2 n - Z.log2 d) <=? n
            else d <=? n * 2 ^ (- (Z.log2 n - Z.log2 d))); lia.
Qed.

(** Rounding to binary64 does not leave the interval [1,5]. *)
Lemma binary64_in_range n d :
  0 < d -> d <= n -> n <= 5 * d ->
  exists v, binary64 n d = Finite v /\ Qle_bool 1 v && Qle_bool v 5 = true.
Proof.
  intros Hd Hlo Hhi. unfold binary64.
  destruct (Z.eqb_spec n 0) as [|_]; [lia|].
  pose proof (binade_le n d Hd ltac:(lia) Hhi) as Hb.
  set (q := Z.max (binade n d - 52) (-1074)).
  assert (Hq : q < 0) by (unfold q; lia).
  destruct (Z.leb_spec 0 q) as [|_]; [lia|].
  set (P := 2 ^ (- q)). assert (HP : 0 < P) by (apply Z.pow_pos_nonneg; lia).
  destruct (roundHalfEven_bounds (n * P) d P (5 * P) Hd) as [Hm1 Hm5]; [nia | nia |].
  eexists. split; [reflexivity|].
  apply andb_true_iff. rewrite !Qle_bool_iff, !Qred_correct.
  unfold Qle. cbn [Qnum Qden]. rewrite Z2Pos.id by exact HP. lia.
Qed.

Lemma binary64_small n : 1 <= n <= 5 -> binary64 n 1 = Finite (inject_Z n).
Proof.
  intros Hn.
  assert (Hcases : n = 1 \/ n = 2 \/ n = 3 \/ n = 4 \/ n = 5) by lia.
  destruct Hcases as [->|[->|[->|[->| ->]]]]; vm_compute; reflexivity.
Qed.

Lemma span_digits_all d : all_digits d = true -> span_digits d = (d, EmptyString).
Proof.
  intros Hd. rewrite <- (append_nil_r d) at 1. now apply span_digits_unique.
Qed.

(** The Number read from an integer token and from a decimal token. *)
Lemma parseFloat_integer int :
  all_digits int = true -> parseFloat int = binary64 (digits_value int 0) 1.
Proof. intros Hd. unfold parseFloat. now rewrite span_digits_all. Qed.

Lemma parseFloat_decimal int frac :
  all_digits int = true -> all_digits frac = true ->
  parseFloat (int +:+ "." +:+ frac)
  = binary64 (digits_value frac (digits_value int 0))
             (10 ^ Z.of_nat (String.length frac)).
Proof.
  intros Hi Hf. unfold parseFloat. push_append.
  rewrite span_digits_unique by (trivial; apply dot_not_digit).
  now rewrite fraction_of_dot, span_digits_all.
Qed.

(** An integer token from 1 to 5 is returned as it is. *)
Lemma parseRating_integer_exact s pre tok post :
  FirstNumericToken s pre tok post ->
  all_digits tok = true -> 1 <= digits_value tok 0 <= 5 ->
  parseRating s = inject_Z (digits_value tok 0).
Proof.
  intros Hfirst Hd Hn.
  rewrite parseRating_unfold, (match_number_first s pre tok post Hfirst).
  rewrite parseFloat_integer, binary64_small by trivial.
  unfold acceptRating, inRange, Qle_bool. cbn [inject_Z Qnum Qden].
  destruct (Z.leb_spec (1 * 1) (digits_value tok 0 * 1)); [|lia].
  destruct (Z.leb_spec (digits_value tok 0 * 1) (5 * 1)); [reflexivity | lia].
Qed.

(** *** The decimal value of a token *)

Lemma binade_lower n d :
  0 < n -> 0 < d ->
  (0 <= binade n d -> d * 2 ^ binade n d <= n)
  /\ (binade n d < 0 -> d <= n * 2 ^ (- binade n d)).
Proof.
  intros Hn Hd. unfold binade.
  pose proof (Z.log2_spec n Hn) as [Hn1 Hn2].
  pose proof (Z.log2_spec d Hd) as [Hd1 Hd2].
  pose proof (Z.log2_nonneg n) as Hln. pose proof (Z.log2_nonneg d) as Hld.
  set (ln := Z.log2 n) in *. set (ld := Z.log2 d) in *.
  rewrite Z.pow_succ_r in Hn2, Hd2 by assumption.
  destruct (Z.leb_spec 0 (ln - ld)) as [He0|He0].
  - destruct (Z.leb_spec (d * 2 ^ (ln - ld)) n) as [Ht|Ht].
    + split; [intros _; exact Ht | lia].
    + split.
      * intros He. assert (Hpow : 2 ^ ln = 2 ^ ld * (2 * 2 ^ (ln - ld - 1))).
        { rewrite <- Z.pow_succ_r, <- Z.pow_add_r by lia. f_equal. lia. }
        assert (0 < 2 ^ (ln - ld - 1)) by (apply Z.pow_pos_nonneg; lia).
        nia.
      * intros He. assert (ln - ld = 0) by lia.
        replace (- (ln - ld - 1)) with 1 by lia. replace ln with ld in * by lia.
        change (2 ^ 1) with 2. lia.
  - destruct (Z.leb_spec d (n * 2 ^ (- (ln - ld)))) as [Ht|Ht].
    + split; [lia | intros _; exact Ht].
    + split; [lia|]. intros _.
      assert (Hpow : 2 * 2 ^ ld = 2 ^ ln * 2 ^ (- (ln - ld - 1))).
      { rewrite <- Z.pow_succ_r, <- Z.pow_add_r by lia. f_equal. lia. }
      assert (0 < 2 ^ (- (ln - ld - 1))) by (apply Z.pow_pos_nonneg; lia).
      nia.
Qed.

Lemma binade_below n d : 0 < n -> n < d -> binade n d <= -1.
Proof.
  intros Hn Hlt. unfold binade.
  pose proof (Z.log2_le_mono n d ltac:(lia)) as Hle.
  destruct (Z.leb_spec 0 (Z.log2 n - Z.log2 d)) as [He0|He0].
  - assert (He : Z.log2 n - Z.log2 d = 0) by lia. rewrite He.
    change (2 ^ 0) with 1. destruct (Z.leb_spec (d * 1) n); lia.
  - destruct (d <=? n * 2 ^ (- (Z.log2 n - Z.log2 d))); lia.
Qed.

Lemma binade_above n d : 0 < d -> 5 * d < n -> 2 <= binade n d.
Proof.
  intros Hd Hlt. unfold binade.
  assert (Hle : 2 + Z.log2 d <= Z.log2 n).
  { rewrite <- (Z.log2_mul_pow2 d 2) by lia. apply Z.log2_le_mono. lia. }
  destruct (Z.leb_spec 0 (Z.log2 n - Z.log2 d)) as [He0|He0]; [|lia].
  destruct (Z.leb_spec (d * 2 ^ (Z.log2 n - Z.log2 d)) n) as [Ht|Ht]; [lia|].
  assert (Z.log2 n - Z.log2 d <> 2); [|lia].
  intros He. rewrite He in Ht. lia.
Qed.

Lemma Qle_bool_Qred_false_l m P :
  0 < P -> m < P -> Qle_bool 1 (Qred (m # Z.to_pos P)) = false.
Proof.
  intros HP Hm. destruct (Qle_bool 1 (Qred (m # Z.to_pos P))) eqn:H; [|reflexivity].
  apply Qle_bool_iff in H. rewrite Qred_correct in H. unfold Qle in H.
  cbn [Qnum Qden] in H. rewrite Z2Pos.id in H by exact HP. lia.
Qed.

Lemma Qle_bool_Qred_false_r m P :
  0 < P -> 5 * P < m -> Qle_bool (Qred (m # Z.to_pos P)) 5 = false.
Proof.
  intros HP Hm. destruct (Qle_bool (Qred (m # Z.to_pos P)) 5) eqn:H; [|reflexivity].
  apply Qle_bool_iff in H. rewrite Qred_correct in H. unfold Qle in H.
  cbn [Qnum Qden] in H. rewrite Z2Pos.id in H by exact HP. lia.
Qed.

(** A value below 1 with a denominator of at most 2^53 is rounded to a
    Number below 1. *)
Lemma binary64_below_one n d :
  0 <= n -> n < d -> d <= 2 ^ 53 -> inRange (binary64 n d) = false.
Proof.
  intros Hn Hlt Hd. unfold binary64.
  destruct (Z.eqb_spec n 0) as [|Hn0]; [reflexivity|].
  pose proof (binade_below n d ltac:(lia) Hlt) as Hb.
  set (q := Z.max (binade n d - 52) (-1074)).
  assert (Hq : -1074 <= q <= -53) by (unfold q; lia).
  destruct (Z.leb_spec 0 q) as [|_]; [lia|].
  set (P := 2 ^ (- q)).
  assert (HP : 2 ^ 53 <= P) by (apply Z.pow_le_mono_r; lia).
  assert (H53 : 0 < 2 ^ 53) by reflexivity.
  destruct (roundHalfEven_bounds (n * P) d 0 (P - 1)) as [_ Hm]; [lia | nia | nia |].
  cbn [inRange]. rewrite Qle_bool_Qred_false_l by lia. reflexivity.
Qed.

(** A value above 5 with a denominator of at most 2^50 is rounded to a
    Number above 5, or to [+Infinity]. *)
Lemma binary64_above_five n d :
  0 < d -> 5 * d < n -> d <= 2 ^ 50 -> inRange (binary64 n d) = false.
Proof.
  intros Hd Hlt Hd50. unfold binary64.
  destruct (Z.eqb_spec n 0) as [|_]; [lia|].
  pose proof (binade_above n d Hd Hlt) as Hb.
  destruct (binade_lower n d ltac:(lia) Hd) as [Hlow _]. specialize (Hlow ltac:(lia)).
  set (e := binade n d) in *.
  replace (Z.max (e - 52) (-1074)) with (e - 52) by lia.
  assert (H52 : 2 ^ 52 = 4503599627370496) by reflexivity.
  destruct (Z.leb_spec 0 (e - 52)) as [Hq|Hq].
  - (* no fractional bits *)
    set (Q := 2 ^ (e - 52)). assert (HQ : 0 < Q) by (apply Z.pow_pos_nonneg; lia).
    assert (He : 2 ^ e = 2 ^ 52 * Q).
    { unfold Q. rewrite <- Z.pow_add_r by lia. f_equal. lia. }
    assert (HdQ : 0 < d * Q) by nia.
    assert (Hlo : 2 ^ 52 * (d * Q) <= n) by (rewrite He in Hlow; lia).
    assert (Hhi : n <= n * (d * Q)) by nia.
    destruct (roundHalfEven_bounds n (d * Q) (2 ^ 52) n HdQ Hlo Hhi) as [Hm _].
    destruct (2 ^ 1024 <=? roundHalfEven n (d * Q) * Q); [reflexivity|].
    cbn [inRange]. unfold Qle_bool at 2. cbn [inject_Z Qnum Qden].
    destruct (Z.leb_spec (roundHalfEven n (d * Q) * Q * 1) (5 * 1)) as [Hle|_];
      [nia | apply andb_false_r].
  - (* fractional bits *)
    replace (- (e - 52)) with (52 - e) by lia.
    set (P := 2 ^ (52 - e)). assert (HP : 0 < P) by (apply Z.pow_pos_nonneg; lia).
    assert (He : 2 ^ 52 = 2 ^ e * P).
    { unfold P. rewrite <- Z.pow_add_r by lia. f_equal. lia. }
    assert (Hm : 5 * P < roundHalfEven (n * P) d).
    { destruct (Z.eq_dec e 2) as [He2|He2].
      - assert (HP50 : P = 2 ^ 50) by (unfold P; rewrite He2; reflexivity).
        destruct (roundHalfEven_bounds (n * P) d (5 * P + 1) (n * P)); [lia | nia | nia | lia].
      - assert (H8 : 8 <= 2 ^ e).
        { change 8 with (2 ^ 3). apply Z.pow_le_mono_r; lia. }
        destruct (roundHalfEven_bounds (n * P) d (2 ^ 52) (n * P)); [lia | nia | nia | nia]. }
    cbn [inRange]. rewrite Qle_bool_Qred_false_r by lia. apply andb_false_r.
Qed.

(** A token written from its integer digits and its fraction digits. *)
Definition joinToken (int frac : string) : string :=
  if truthy frac then int +:+ "." +:+ frac else int.

Lemma numeric_token_join tok :
  NumericToken tok <->
  exists int frac,
    tok = joinToken int frac /\ int <> EmptyString
    /\ all_digits int = true /\ all_digits frac = true.
Proof.
  split.
  - intros [int Hne Hd|int frac Hne Hfne Hd Hf].
    + exists int, EmptyString. now repeat split.
    + exists int, frac. unfold joinToken. apply truthy_true in Hfne. rewrite Hfne.
      now repeat split.
  - intros [int [frac [-> [Hne [Hd Hf]]]]]. unfold joinToken.
    destruct (truthy frac) eqn:Ht.
    + apply truthy_true in Ht. now constructor.
    + now constructor.
Qed.

Lemma parseFloat_token int frac :
  all_digits int = true -> all_digits frac = true ->
  parseFloat (joinToken int frac)
  = binary64 (digits_value frac (digits_value int 0))
             (10 ^ Z.of_nat (String.length frac)).
Proof.
  intros Hi Hf. unfold joinToken. destruct (truthy frac) eqn:Ht.
  - now apply parseFloat_decimal.
  - apply truthy_false in Ht. subst frac. now apply parseFloat_integer.
Qed.

Lemma digit_value_nonneg c : is_digit c = true -> 0 <= digit_value c.
Proof.
  unfold is_digit, digit_value. intros H. apply andb_true_iff in H as [H _].
  apply Nat.leb_le in H. lia.
Qed.

Lemma digits_value_nonneg s :
  all_digits s = true -> forall acc, 0 <= acc -> 0 <= digits_value s acc.
Proof.
  induction s as [|c s IH]; cbn [all_digits digits_value]; intros Hd acc Hacc; [exact Hacc|].
  apply andb_true_iff in Hd as [Hc Hd]. apply IH; [exact Hd|].
  pose proof (digit_value_nonneg c Hc). lia.
Qed.

Lemma pow10_small k : (k <= 15)%nat -> 0 < 10 ^ Z.of_nat k <= 2 ^ 50.
Proof.
  intros Hk. split; [apply Z.pow_pos_nonneg; lia|].
  transitivity (10 ^ 15); [apply Z.pow_le_mono_r; lia | vm_compute; discriminate].
Qed.

(** On the decimal value [n / d] of the token: a value in [1,5] is returned
    as the nearest binary64, which lies in [1,5]; a value outside [1,5],
    written with at most 15 digits after the dot, gives 0. *)
Lemma parseRating_decimal_value s pre int frac post :
  FirstNumericToken s pre (joinToken int frac) post ->
  all_digits int = true -> all_digits frac = true ->
  let n := digits_value frac (digits_value int 0) in
  let d := 10 ^ Z.of_nat (String.length frac) in
  (d <= n <= 5 * d ->
   exists v, binary64 n d = Finite v
             /\ Qle_bool 1 v && Qle_bool v 5 = true
             /\ parseRating s = v)
  /\ ((String.length frac <= 15)%nat -> ~ d <= n <= 5 * d -> parseRating s = 0%Q).
Proof.
  intros Hfirst Hi Hf n d.
  assert (Hd : 0 < d) by (apply Z.pow_pos_nonneg; lia).
  assert (Hn : 0 <= n) by (apply digits_value_nonneg; [|apply digits_value_nonneg]; trivial; lia).
  assert (Hparse : parseRating s = acceptRating (binary64 n d)).
  { rewrite parseRating_unfold, (match_number_first _ _ _ _ Hfirst).
    now rewrite parseFloat_token. }
  split.
  - intros [Hlo Hhi].
    destruct (binary64_in_range n d Hd Hlo Hhi) as [v [Hv Hr]].
    exists v. repeat split; trivial.
    rewrite Hparse, Hv. unfold acceptRating, inRange. now rewrite Hr.
  - intros Hlen Hout. rewrite Hparse.
    destruct (pow10_small _ Hlen) as [_ Hd50]. fold d in Hd50.
    assert (Hr : inRange (binary64 n d) = false).
    { destruct (Z.lt_ge_cases n d) as [Hlt|Hge].
      - apply binary64_below_one; trivial.
        transitivity (2 ^ 50); [exact Hd50 | vm_compute; discriminate].
      - apply binary64_above_five; trivial. lia. }
    unfold acceptRating. destruct (binary64 n d); [now rewrite Hr | reflexivity].
Qed.

(** *** The decimal value of a token and the number returned *)

(** The value of a string of decimal digits in positional notation. *)
Fixpoint decimalDigits (s : string) : Z :=
  match s with
  | String c s' => digit_value c * 10 ^ Z.of_nat (String.length s') + decimalDigits s'
  | EmptyString => 0
  end.

(** The decimal value of the token made of the integer digits [int] and the
    fraction digits [frac]: [int + frac / 10^|frac|]. *)
Definition tokenValue (int frac : string) : Q :=
  inject_Z (decimalDigits int)
  + Qmake (decimalDigits frac) (Z.to_pos (10 ^ Z.of_nat (String.length frac))).

(** Half a unit in the last place of the binary64 numbers from 4 to 8. *)
Definition halfUlp : Q := 1 # 2251799813685248.

(** [r] is within [halfUlp] of [v]. *)
Definition near (r v : Q) : Prop := (v - halfUlp <= r /\ r <= v + halfUlp)%Q.

Lemma digits_value_decimal s :
  forall acc, digits_value s acc = acc * 10 ^ Z.of_nat (String.length s) + decimalDigits s.
Proof.
  induction s as [|c s IH]; intros acc; cbn [digits_value decimalDigits String.length].
  - change (10 ^ Z.of_nat 0) with 1. lia.
  - rewrite IH, Nat2Z.inj_succ, Z.pow_succ_r by lia. ring.
Qed.

Lemma tokenValue_fraction int frac :
  (tokenValue int frac
   == digits_value frac (digits_value int 0) # Z.to_pos (10 ^ Z.of_nat (String.length frac)))%Q.
Proof.
  unfold tokenValue. rewrite (digits_value_decimal frac), (digits_value_decimal int).
  set (d := 10 ^ Z.of_nat (String.length frac)).
  assert (Hd : 0 < d) by (apply Z.pow_pos_nonneg; lia).
  unfold Qeq, Qplus, inject_Z. cbn [Qnum Qden].
  rewrite Pos.mul_1_l, !Z2Pos.id by lia. ring.
Qed.

Lemma roundHalfEven_near n d :
  0 < d -> - d <= 2 * (roundHalfEven n d * d - n) <= d.
Proof.
  intros Hd. unfold roundHalfEven.
  pose proof (Z.div_mod n d ltac:(lia)) as Hdiv.
  pose proof (Z.mod_pos_bound n d Hd) as Hmod.
  destruct (Z.compare_spec (2 * (n mod d)) d); [destruct (Z.even (n / d))| |]; nia.
Qed.

Lemma roundHalfEven_exact n d : 0 < d -> (d | n) -> roundHalfEven n d * d = n.
Proof.
  intros Hd [k ->]. unfold roundHalfEven.
  rewrite Z.mod_mul, Z.div_mul by lia. change (2 * 0) with 0.
  destruct (Z.compare_spec 0 d); lia.
Qed.

Lemma binade_small n d : 0 < n -> 0 < d -> n < 8 * d -> binade n d <= 2.
Proof.
  intros Hn Hd Hlt. destruct (binade_lower n d Hn Hd) as [Hlow _].
  destruct (Z.le_gt_cases (binade n d) 2) as [|Hge]; [assumption|].
  specialize (Hlow ltac:(lia)).
  assert (8 <= 2 ^ binade n d) by (change 8 with (2 ^ 3); apply Z.pow_le_mono_r; lia).
  nia.
Qed.

Lemma binade_large n d : 0 < d -> 8 * d <= n -> 3 <= binade n d.
Proof.
  intros Hd Hle. unfold binade.
  assert (Hlog : 3 + Z.log2 d <= Z.log2 n).
  { rewrite <- (Z.log2_mul_pow2 d 3) by lia. apply Z.log2_le_mono. lia. }
  destruct (Z.leb_spec 0 (Z.log2 n - Z.log2 d)) as [He0|He0]; [|lia].
  destruct (Z.leb_spec (d * 2 ^ (Z.log2 n - Z.log2 d)) n) as [Ht|Ht]; [lia|].
  assert (Z.log2 n - Z.log2 d <> 3); [|lia].
  intros He. rewrite He in Ht. lia.
Qed.

(** A value of 8 or more is rounded to a Number above 5, or to
    [+Infinity]. *)
Lemma binary64_large n d : 0 < d -> 8 * d <= n -> inRange (binary64 n d) = false.
Proof.
  intros Hd Hle. unfold binary64.
  destruct (Z.eqb_spec n 0) as [|_]; [lia|].
  pose proof (binade_large n d Hd Hle) as Hb.
  destruct (binade_lower n d ltac:(lia) Hd) as [Hlow _]. specialize (Hlow ltac:(lia)).
  set (e := binade n d) in *.
  replace (Z.max (e - 52) (-1074)) with (e - 52) by lia.
  assert (H52 : 2 ^ 52 = 4503599627370496) by reflexivity.
  destruct (Z.leb_spec 0 (e - 52)) as [Hq|Hq].
  - set (Q := 2 ^ (e - 52)). assert (HQ : 0 < Q) by (apply Z.pow_pos_nonneg; lia).
    assert (He : 2 ^ e = 2 ^ 52 * Q).
    { unfold Q. rewrite <- Z.pow_add_r by lia. f_equal. lia. }
    assert (HdQ : 0 < d * Q) by nia.
    assert (Hlo : 2 ^ 52 * (d * Q) <= n) by (rewrite He in Hlow; lia).
    assert (Hhi : n <= n * (d * Q)) by nia.
    destruct (roundHalfEven_bounds n (d * Q) (2 ^ 52) n HdQ Hlo Hhi) as [Hm _].
    destruct (2 ^ 1024 <=? roundHalfEven n (d * Q) * Q); [reflexivity|].
    cbn [inRange]. unfold Qle_bool at 2. cbn [inject_Z Qnum Qden].
    destruct (Z.leb_spec (roundHalfEven n (d * Q) * Q * 1) (5 * 1)) as [Hle'|_];
      [nia | apply andb_false_r].
  - replace (- (e - 52)) with (52 - e) by lia.
    set (P := 2 ^ (52 - e)). assert (HP : 0 < P) by (apply Z.pow_pos_nonneg; lia).
    assert (Hm : 5 * P < roundHalfEven (n * P) d).
    { assert (Hlo : 8 * P * d <= n * P)
        by (apply (Z.mul_le_mono_nonneg_r _ _ P) in Hle; lia).
      assert (Hhi : n * P <= n * P * d) by nia.
      destruct (roundHalfEven_bounds (n * P) d (8 * P) (n * P) Hd Hlo Hhi). lia. }
    cbn [inRange]. rewrite Qle_bool_Qred_false_r by lia. apply andb_false_r.
Qed.

(** Below 8 the Number is [m / P] with [m] the integer nearest to
    [n * P / d] and [P] a power of two that is at least 2^50. *)
Lemma binary64_fraction n d :
  0 < n -> 0 < d -> n < 8 * d ->
  exists m P,
    binary64 n d = Finite (Qred (m # Z.to_pos P))
    /\ 2 ^ 50 <= P
    /\ (2 ^ 50 | P)
    /\ m = roundHalfEven (n * P) d.
Proof.
  intros Hn Hd Hlt. unfold binary64.
  destruct (Z.eqb_spec n 0) as [|_]; [lia|].
  pose proof (binade_small n d Hn Hd Hlt) as Hb.
  set (q := Z.max (binade n d - 52) (-1074)).
  assert (Hq : q <= -50) by (unfold q; lia).
  destruct (Z.leb_spec 0 q) as [|_]; [lia|].
  exists (roundHalfEven (n * 2 ^ (- q)) d), (2 ^ (- q)). repeat split.
  - apply Z.pow_le_mono_r; lia.
  - exists (2 ^ (- q - 50)). rewrite <- Z.pow_add_r by lia. f_equal. lia.
Qed.

Lemma near_fraction m P n d :
  0 < d -> 2 ^ 50 <= P -> - d <= 2 * (m * d - n * P) <= d ->
  near (Qred (m # Z.to_pos P)) (n # Z.to_pos d).
Proof.
  intros Hd HP Hm.
  assert (H50 : 2 ^ 50 = 1125899906842624) by reflexivity. rewrite H50 in HP.
  unfold near, halfUlp. rewrite Qred_correct.
  unfold Qle, Qminus, Qplus, Qopp. cbn [Qnum Qden].
  rewrite !Pos2Z.inj_mul, !Z2Pos.id by lia. split; nia.
Qed.

(** What [parseRating] makes of the value [n / d]. *)
Lemma acceptRating_value n d :
  0 <= n -> 0 < d ->
  let r := acceptRating (binary64 n d) in
  let v := n # Z.to_pos d in
  (r = 0%Q \/ ((1 <= r <= 5)%Q /\ near r v))
  /\ (d <= n <= 5 * d -> (1 <= r <= 5)%Q /\ near r v)
  /\ (d <= n <= 5 * d -> (d | n * 2 ^ 50) -> (r == v)%Q).
Proof.
  intros Hn Hd r v. subst r v.
  destruct (Z.eq_dec n 0) as [->|Hn0].
  { split; [now left|]. split; intros; lia. }
  destruct (Z.le_gt_cases (8 * d) n) as [Hbig|Hsmall].
  { pose proof (binary64_large n d Hd Hbig) as Hr. unfold acceptRating.
    split; [|split; intros; lia].
    left. destruct (binary64 n d); [now rewrite Hr | reflexivity]. }
  destruct (binary64_fraction n d ltac:(lia) Hd Hsmall) as (m & P & Hb & HP & Hdiv & Hm).
  assert (HP0 : 0 < P) by (assert (0 < 2 ^ 50) by reflexivity; lia).
  pose proof (roundHalfEven_near (n * P) d Hd) as Hnear. rewrite <- Hm in Hnear.
  pose proof (near_fraction m P n d Hd HP Hnear) as Hclose.
  rewrite Hb. unfold acceptRating, inRange.
  destruct (Qle_bool 1 (Qred (m # Z.to_pos P)) && Qle_bool (Qred (m # Z.to_pos P)) 5) eqn:Hr.
  - apply andb_true_iff in Hr as [H1 H5]. apply Qle_bool_iff in H1, H5.
    split; [right; split; [split; assumption | exact Hclose]|].
    split; [intros _; split; [split; assumption | exact Hclose]|].
    intros _ [k Hk]. destruct Hdiv as [j Hj].
    assert (Hexact : m * d = n * P).
    { rewrite Hm. apply roundHalfEven_exact; [exact Hd|].
      exists (k * j). rewrite Hj. lia. }
    rewrite Qred_correct. unfold Qeq. cbn [Qnum Qden]. rewrite !Z2Pos.id by lia. exact Hexact.
  - split; [now left|].
    assert (Hin : d <= n <= 5 * d -> False).
    { intros [Hlo Hhi]. destruct (binary64_in_range n d Hd Hlo Hhi) as [w [Hw Hrw]].
      rewrite Hb in Hw. injection Hw as <-. congruence. }
    split; intros H; now destruct (Hin H).
Qed.

Lemma tokenValue_range int frac :
  let n := digits_value frac (digits_value int 0) in
  let d := 10 ^ Z.of_nat (String.length frac) in
  ((1 <= tokenValue int frac)%Q <-> d <= n)
  /\ ((tokenValue int frac <= 5)%Q <-> n <= 5 * d).
Proof.
  intros n d. assert (Hd : 0 < d) by (apply Z.pow_pos_nonneg; lia).
  rewrite !tokenValue_fraction. fold n d. unfold Qle. cbn [Qnum Qden].
  rewrite !Z2Pos.id by lia. lia.
Qed.

(** C7 (amended): for every input string, [parseRating] returns 0 when the
    string contains no numeric token.  Otherwise, with [v] the decimal
    value of the first numeric token (an integer, or an integer, a dot and
    digits), it returns either 0 or a number from 1 to 5 that differs from
    [v] by at most 2^-51; when [v] lies in [1,5] it returns such a number,
    never 0 and never [v] rounded to an integer, and it returns [v]
    itself whenever [v] is a multiple of 2^-50 (every integer from 1 to 5,
    and 4.5, 3.25 and the like); when [v] lies outside [1,5] and the token
    has at most 15 digits after the dot, it returns 0.  A string without a
    digit has no numeric token, and every other string has one. *)
Theorem parseRating_token_value (s : string) :
  (no_digit s = true -> parseRating s = 0%Q)
  /\ (forall pre int frac post,
        FirstNumericToken s pre (joinToken int frac) post ->
        all_digits int = true -> all_digits frac = true ->
        let v := tokenValue int frac in
        (parseRating s = 0%Q \/ ((1 <= parseRating s <= 5)%Q /\ near (parseRating s) v))
        /\ ((1 <= v <= 5)%Q ->
            (1 <= parseRating s <= 5)%Q /\ near (parseRating s) v
            /\ ((exists k : Z, v * inject_Z (2 ^ 50) == inject_Z k) ->
                parseRating s == v))%Q
        /\ (~ (1 <= v <= 5)%Q -> (String.length frac <= 15)%nat -> parseRating s = 0%Q))
  /\ (no_digit s = true
      \/ exists pre int frac post,
           FirstNumericToken s pre (joinToken int frac) post
           /\ all_digits int = true /\ all_digits frac = true).
Proof.
  split; [|split].
  - intros Hno. rewrite parseRating_unfold. pose proof (match_number_spec s) as Hspec.
    destruct (match_number s) as [tok|]; [|reflexivity].
    destruct Hspec as [pre [post Hfirst]].
    now destruct (no_digit_no_token s pre tok post Hno).
  - intros pre int frac post Hfirst Hi Hf v.
    set (n := digits_value frac (digits_value int 0)).
    set (d := 10 ^ Z.of_nat (String.length frac)).
    assert (Hd : 0 < d) by (apply Z.pow_pos_nonneg; lia).
    assert (Hn : 0 <= n)
      by (apply digits_value_nonneg; [|apply digits_value_nonneg]; trivial; lia).
    assert (Hparse : parseRating s = acceptRating (binary64 n d)).
    { rewrite parseRating_unfold, (match_number_first _ _ _ _ Hfirst).
      now rewrite parseFloat_token. }
    assert (Hv : (v == n # Z.to_pos d)%Q) by apply tokenValue_fraction.
    destruct (tokenValue_range int frac) as [Hlo Hhi]. fold n d v in Hlo, Hhi.
    destruct (acceptRating_value n d Hn Hd) as (Hany & Hin & Hexact).
    rewrite <- Hparse in Hany, Hin, Hexact. unfold near in *.
    split; [|split].
    + destruct Hany as [Hzero|[Hr Hnear]]; [now left | right].
      split; [exact Hr|]. now rewrite Hv.
    + intros [H1 H5]. apply Hlo in H1. apply Hhi in H5.
      destruct (Hin (conj H1 H5)) as [Hr Hnear].
      split; [exact Hr|]. split; [now rewrite Hv|].
      intros [k Hk]. rewrite Hv. apply Hexact; [lia|].
      exists k. rewrite Hv in Hk. unfold Qeq, Qmult, inject_Z in Hk. cbn [Qnum Qden] in Hk.
      rewrite Pos.mul_1_r, Z2Pos.id in Hk by lia. lia.
    + intros Hout Hlen.
      destruct (parseRating_decimal_value s pre int frac post Hfirst Hi Hf) as [_ Hzero].
      apply Hzero; [exact Hlen|]. fold n d. intros [H1 H5]. apply Hout. split.
      * now apply Hlo.
      * now apply Hhi.
  - pose proof (match_number_spec s) as Hspec.
    destruct (match_number s) as [tok|]; [right | now left].
    destruct Hspec as [pre [post Hfirst]].
    pose proof Hfirst as (_ & _ & Htok & _).
    apply numeric_token_join in Htok as (int & frac & -> & _ & Hi & Hf).
    now exists pre, int, frac, post.
Qed.

(** C7, as stated, fails: the first numeric token of [5.0000000000000001]
    has a decimal value above 5, outside [1,5], and yet [parseRating]
    returns 5, not 0; what is returned is not the value of the token. *)
Lemma rating_beyond_double_precision :
  FirstNumericToken "5.0000000000000001" EmptyString
    (joinToken "5" "0000000000000001") EmptyString
  /\ (5 < tokenValue "5" "0000000000000001")%Q
  /\ parseRating "5.0000000000000001" = 5%Q
  /\ parseRating "5.0000000000000001" <> 0%Q
  /\ ~ (parseRating "5.0000000000000001" == tokenValue "5" "0000000000000001")%Q.
Proof.
  split; [|split; [|split; [|split]]].
  - split; [reflexivity|]. split; [reflexivity|]. split.
    + apply numeric_token_join. exists "5", "0000000000000001". now repeat split.
    + intros tok' post' Heq _. apply (f_equal String.length) in Heq.
      rewrite !length_append in Heq. cbn [String.length] in Heq. lia.
  - vm_compute. reflexivity.
  - vm_compute. reflexivity.
  - vm_compute. discriminate.
  - vm_compute. discriminate.
Qed.

Lemma parseRating_token_value_witness :
  parseRating "no stars" = 0%Q
  /\ (parseRating "Rated 4.5 out of 5" == tokenValue "4" "5")%Q.
Proof.
  split.
  - apply (proj1 (parseRating_token_value "no stars")). reflexivity.
  - pose proof (match_number_spec "Rated 4.5 out of 5") as Hspec.
    change (match_number "Rated 4.5 out of 5") with (Some (joinToken "4" "5")) in Hspec.
    destruct Hspec as [pre [post Hfirst]].
    destruct (proj1 (proj2 (parseRating_token_value "Rated 4.5 out of 5"))
                pre "4" "5" post Hfirst eq_refl eq_refl) as (_ & Hin & _).
    destruct Hin as (_ & _ & Hexact).
    + split; vm_compute; discriminate.
    + apply Hexact. exists 5066549580791808. vm_compute. reflexivity.
Defined.

Example parseRating_rounding :
  map parseRating ["3.7"; "5.0000000000000001"; "5.000000000000001"; "0.999999999999999"]
  = [4165829655317709 # 1125899906842624; 5; 0; 0]%Q.
Proof. vm_compute. reflexivity. Qed.

(** The cases of the unit tests and of the design document. *)
Example parseRating_examples :
  map parseRating ["5"; "4.5"; "5 stars"; "Rated 3 out of 5"; "4/5";
                   "6"; "0"; "10"; "invalid"; ""]
  = [5; 9 # 2; 5; 3; 4; 0; 0; 0; 0; 0]%Q.
Proof. vm_compute. reflexivity. Qed.

End ParseRatingSpec.

(** ** The extractor: the fallback of the text field *)

Module ContentExtractorSpec.
Import JsString ContentExtractor.

(** The trimmed text of a paragraph whose [textContent()] gave [content]. *)
Definition paragraphText (content : option string) : string := trim (orEmpty content).

Definition notFoundText : Extracted :=
  NotFound ("Required field " +:+ dquote +:+ "text" +:+ dquote +:+ " not found").

(** A container in which no selector matches, with two paragraphs: one of
    26 characters followed by one of 58. *)
Definition shortParagraph : string := "Arrived late but works ok.".
Definition longParagraph : string :=
  "The replacement unit was shipped within two days, as told.".

Definition twoParagraphs : ElementHandle :=
  {| query := fun _ => Gives None;
     paragraphs := Gives [Gives (Some shortParagraph); Gives (Some longParagraph)];
     ownTextContent := Gives (Some (shortParagraph +:+ longParagraph)) |}.

(** C6, as stated, fails: with every text selector failing to match, the
    text returned is the first paragraph longer than 20 characters, although
    a longer paragraph follows it in the container. *)
Lemma fallback_returns_first_paragraph :
  trySelectors twoParagraphs textSelectors "text" = None
  /\ extractField twoParagraphs textSelectors "text" true = Text shortParagraph
  /\ (20 < String.length shortParagraph < String.length longParagraph)%nat
  /\ extractField twoParagraphs textSelectors "text" true <> Text longParagraph.
Proof. vm_compute. repeat split; try lia; discriminate. Qed.

Lemma firstSubstantial_found before p after :
  Forall (fun t => String.length (paragraphText t) <= 20)%nat before ->
  (20 < String.length (paragraphText p))%nat ->
  firstSubstantial (map Gives (before ++ p :: after)%list) = Gives (Some (paragraphText p)).
Proof.
  intros Hbefore Hp. induction Hbefore as [|t before Ht _ IH]; cbn [map app firstSubstantial mbind call_bind].
  - fold (paragraphText p).
    assert (Htruthy : truthy (paragraphText p) = true)
      by (destruct (paragraphText p); [cbn in Hp; lia | reflexivity]).
    rewrite Htruthy. destruct (Nat.ltb_spec 20 (String.length (paragraphText p))); [reflexivity | lia].
  - fold (paragraphText t).
    destruct (Nat.ltb_spec 20 (String.length (paragraphText t))); [lia|].
    rewrite andb_false_r. exact IH.
Qed.

Lemma firstSubstantial_none texts :
  Forall (fun t => String.length (paragraphText t) <= 20)%nat texts ->
  firstSubstantial (map Gives texts) = Gives None.
Proof.
  intros Hall. induction Hall as [|t texts Ht _ IH]; cbn [map firstSubstantial mbind call_bind];
    [reflexivity|].
  fold (paragraphText t).
  destruct (Nat.ltb_spec 20 (String.length (paragraphText t))); [lia|].
  rewrite andb_false_r. exact IH.
Qed.

(** [reduce] with [longer] yields an element of the array of greatest
    length. *)
Lemma reduce_longer rest :
  forall first,
    reduce longer first rest ∈ first :: rest
    /\ (forall l, l ∈ first :: rest ->
          (String.length l <= String.length (reduce longer first rest))%nat).
Proof.
  unfold reduce. induction rest as [|x rest IH]; intros first; cbn [fold_left].
  - split; [apply list_elem_of_here|]. intros l Hl. apply list_elem_of_singleton in Hl as ->. lia.
  - destruct (IH (longer first x)) as [Hin Hmax]. split.
    + apply elem_of_cons in Hin as [Heq|Hin].
      * rewrite Heq. unfold longer. destruct (String.length x <? String.length first)%nat;
          [apply list_elem_of_here | apply list_elem_of_further, list_elem_of_here].
      * now do 2 apply list_elem_of_further.
    + intros l Hl.
      assert (Hfx : (String.length first <= String.length (longer first x)
                     /\ String.length x <= String.length (longer first x))%nat).
      { unfold longer. destruct (Nat.ltb_spec (String.length x) (String.length first)); lia. }
      pose proof (Hmax (longer first x) (list_elem_of_here _ _)) as Hlong.
      apply elem_of_cons in Hl as [->|Hl]; [lia|].
      apply elem_of_cons in Hl as [->|Hl]; [lia|].
      apply Hmax. now apply list_elem_of_further.
Qed.

(** C6 (amended): when every text selector fails to yield a text inside a
    review container, extraction of the required text field returns the
    first paragraph, in document order, whose trimmed text is longer than
    20 characters; if there is no such paragraph, it returns a longest line
    among the trimmed lines of the container's whole text that are longer
    than 20 characters; only if there is no such line either does
    extraction fail.  This is for a fallback whose calls into the page
    (the paragraphs, their text, the text of the container) do not throw;
    one that throws makes extraction fail as well. *)
Theorem text_fallback (element : ElementHandle) (selectors : list string)
    (texts : list (option string)) :
  trySelectors element selectors "text" = None ->
  paragraphs element = Gives (map Gives texts) ->
  (forall before p after,
      texts = (before ++ p :: after)%list ->
      Forall (fun t => String.length (paragraphText t) <= 20)%nat before ->
      (20 < String.length (paragraphText p))%nat ->
      extractField element selectors "text" true = Text (paragraphText p))
  /\ (Forall (fun t => String.length (paragraphText t) <= 20)%nat texts ->
      forall content, ownTextContent element = Gives content ->
        let lines := substantialLines (trim (orEmpty content)) in
        (lines = [] -> extractField element selectors "text" true = notFoundText)
        /\ (lines <> [] ->
            exists line,
              extractField element selectors "text" true = Text line
              /\ line ∈ lines
              /\ (20 < String.length line)%nat
              /\ forall l, l ∈ lines -> (String.length l <= String.length line)%nat)).
Proof.
  intros Hsel Hps. unfold extractField. rewrite Hsel.
  cbn [String.eqb Ascii.eqb Bool.eqb andb]. unfold textFallback. rewrite Hps.
  cbn [mbind call_bind]. split.
  - intros before p after -> Hbefore Hp.
    now rewrite firstSubstantial_found.
  - intros Hall content Hcontent. rewrite (firstSubstantial_none texts Hall).
    cbn [mbind call_bind]. rewrite Hcontent. cbn [mbind call_bind].
    destruct (substantialLines (trim (orEmpty content))) as [|first rest] eqn:Hlines.
    + split; [reflexivity | congruence].
    + split; [discriminate|]. intros _.
      destruct (reduce_longer rest first) as [Hin Hmax].
      exists (reduce longer first rest). repeat split; trivial.
      rewrite <- Hlines in Hin. unfold substantialLines in Hin.
      now apply list_elem_of_filter in Hin as [Hlen _].
Qed.

(** A fallback that throws leaves the field not found. *)
Lemma text_fallback_throws (element : ElementHandle) (selectors : list string) :
  trySelectors element selectors "text" = None ->
  textFallback element = Throws ->
  extractField element selectors "text" true = notFoundText.
Proof.
  intros Hsel Hthrows. unfold extractField. rewrite Hsel.
  cbn [String.eqb Ascii.eqb Bool.eqb andb]. now rewrite Hthrows.
Qed.

(** A container without a matching selector whose paragraphs are short and
    whose own text has two long lines. *)
Definition shortParagraphs : ElementHandle :=
  {| query := fun _ => Gives None;
     paragraphs := Gives (map Gives [Some "Great!"; None]);
     ownTextContent :=
       Gives (Some ("  Verified buyer since 2021  " +:+ String LF EmptyString
                    +:+ longParagraph +:+ String LF EmptyString +:+ "ok")) |}.

Lemma text_fallback_witness :
  extractField twoParagraphs textSelectors "text" true = Text shortParagraph
  /\ exists line,
       extractField shortParagraphs textSelectors "text" true = Text line
       /\ (20 < String.length line)%nat.
Proof.
  split.
  - apply (proj1 (text_fallback twoParagraphs textSelectors
                    [Some shortParagraph; Some longParagraph] eq_refl eq_refl)
             [] (Some shortParagraph) [Some longParagraph] eq_refl).
    + constructor.
    + vm_compute. lia.
  - destruct (proj2 (text_fallback shortParagraphs textSelectors
                       [Some "Great!"; None] eq_refl eq_refl)) with
      (content := Some ("  Verified buyer since 2021  " +:+ String LF EmptyString
                        +:+ longParagraph +:+ String LF EmptyString +:+ "ok"))
      as [_ Hsome].
    + repeat constructor; vm_compute; lia.
    + reflexivity.
    + destruct Hsome as [line [Hline [_ [Hlen _]]]]; [vm_compute; discriminate|].
      exists line. split; [exact Hline | exact Hlen].
Defined.

Example shortParagraphs_longest_line :
  extractField shortParagraphs textSelectors "text" true = Text longParagraph.
Proof. vm_compute. reflexivity. Qed.

End ContentExtractorSpec.

(** ** The orchestrator: deduplication *)

Module DedupSpec.
Import JsString DataTransformer ScraperOrchestrator.

(** The identity of a review in the design document. *)
Definition identityKey (review : TransformedReview) : string * string * string :=
  (text review, reviewerName review, date review).

Lemma identityKey_reviewKey a b : identityKey a = identityKey b -> reviewKey a = reviewKey b.
Proof. unfold identityKey, reviewKey. now intros [= -> -> ->]. Qed.

(** The set grows by the keys of the reviews filtered. *)
Lemma filterUnique_seen reviews :
  forall seen,
    snd (filterUnique seen reviews) = list_to_set (reviewKey <$> reviews) ∪ seen.
Proof.
  induction reviews as [|review rest IH]; intros seen; cbn [filterUnique fmap list_fmap list_to_set].
  - cbn. set_solver.
  - case_bool_decide as Hseen.
    + rewrite IH. set_solver.
    + specialize (IH ({[reviewKey review]} ∪ seen)).
      destruct (filterUnique ({[reviewKey review]} ∪ seen) rest) as [unique seen'].
      cbn [snd] in *. rewrite IH. set_solver.
Qed.

Lemma filterUnique_seen_grows seen reviews : seen ⊆ snd (filterUnique seen reviews).
Proof. rewrite filterUnique_seen. set_solver. Qed.

(** The reviews kept have keys that were not seen, pairwise different. *)
Lemma filterUnique_fresh reviews :
  forall seen,
    NoDup (fmap reviewKey (fst (filterUnique seen reviews)))
    /\ (forall review, review ∈ fst (filterUnique seen reviews) ->
          (reviewKey review ∉ seen) /\ (review ∈ reviews)).
Proof.
  induction reviews as [|review rest IH]; intros seen; cbn [filterUnique].
  - split; [constructor | intros r Hr; inversion Hr].
  - case_bool_decide as Hseen.
    + destruct (IH seen) as [Hnodup Hfresh]. split; [exact Hnodup|].
      intros r Hr. destruct (Hfresh r Hr). split; [trivial | now apply list_elem_of_further].
    + destruct (IH ({[reviewKey review]} ∪ seen)) as [Hnodup Hfresh].
      destruct (filterUnique ({[reviewKey review]} ∪ seen) rest) as [unique seen'].
      cbn [fst] in *. split.
      * cbn [fmap list_fmap]. constructor; [|exact Hnodup].
        intros Hin. apply list_elem_of_fmap in Hin as [r [Hkey Hr]].
        destruct (Hfresh r Hr) as [Hnot _]. rewrite <- Hkey in Hnot. set_solver.
      * intros r Hr. apply elem_of_cons in Hr as [->|Hr].
        -- split; [exact Hseen | apply list_elem_of_here].
        -- destruct (Hfresh r Hr) as [Hnot Hin].
           split; [set_solver | now apply list_elem_of_further].
Qed.

(** A review whose key has not been seen is kept, and only its first
    occurrence. *)
Lemma filterUnique_first seen review rest :
  reviewKey review ∉ seen ->
  fst (filterUnique seen (review :: rest))
  = review :: fst (filterUnique ({[reviewKey review]} ∪ seen) rest).
Proof.
  intros Hseen. cbn [filterUnique]. rewrite bool_decide_eq_false_2 by exact Hseen.
  now destruct (filterUnique ({[reviewKey review]} ∪ seen) rest).
Qed.

Lemma filterUnique_seen_before seen review rest :
  reviewKey review ∈ seen ->
  filterUnique seen (review :: rest) = filterUnique seen rest.
Proof. intros Hseen. cbn [filterUnique]. now rewrite bool_decide_eq_true_2. Qed.

Lemma filterUnique_same_key seen a b :
  reviewKey a ∉ seen -> reviewKey b = reviewKey a ->
  filterUnique seen [a; b] = ([a], {[reviewKey a]} ∪ seen).
Proof.
  intros Hseen Hkey. cbn [filterUnique].
  rewrite bool_decide_eq_false_2 by exact Hseen.
  rewrite bool_decide_eq_true_2 by (rewrite Hkey; set_solver).
  reflexivity.
Qed.

(** Two raw reviews of one page that differ in text and in reviewer name,
    and what [transform] makes of them when the date is left as it is. *)
Definition rawByLee : ReviewElement.t :=
  {| ReviewElement.rating := "Rated 5 out of 5 stars";
     ReviewElement.text := "Great|Anna";
     ReviewElement.date := "2024-01-15";
     ReviewElement.reviewerName := "Lee";
     ReviewElement.title := None;
     ReviewElement.verified := None |}.

Definition rawByAnnaLee : ReviewElement.t :=
  {| ReviewElement.rating := "Rated 1 out of 5 stars";
     ReviewElement.text := "Great";
     ReviewElement.date := "2024-01-15";
     ReviewElement.reviewerName := "Anna|Lee";
     ReviewElement.title := None;
     ReviewElement.verified := None |}.

Definition reviewByLee : TransformedReview :=
  {| rating := 5; text := "Great|Anna"; date := "2024-01-15";
     reviewerName := "Lee"; title := EmptyString; verified := false |}.

Definition reviewByAnnaLee : TransformedReview :=
  {| rating := 1; text := "Great"; date := "2024-01-15";
     reviewerName := "Anna|Lee"; title := EmptyString; verified := false |}.

(** C3, where the code departs from it: the two reviews above have
    different identity keys (text, reviewerName, date), none of which has
    been seen, yet the second is not appended, because both yield the
    string [Great|Anna|Lee|2024-01-15] as [reviewKey].  The same happens
    on the raw reviews of a page, whatever [normalizeDate] makes of the
    date. *)
Theorem distinct_reviews_one_key :
  identityKey reviewByLee <> identityKey reviewByAnnaLee
  /\ reviewKey reviewByLee = reviewKey reviewByAnnaLee
  /\ fst (filterUnique ∅ [reviewByLee; reviewByAnnaLee]) = [reviewByLee]
  /\ forall normalizeDate,
       identityKey (transform normalizeDate rawByLee)
       <> identityKey (transform normalizeDate rawByAnnaLee)
       /\ allReviews (collect normalizeDate [rawByLee; rawByAnnaLee] initialProgress)
          = [transform normalizeDate rawByLee].
Proof.
  split; [discriminate|]. split; [reflexivity|]. split.
  - rewrite (filterUnique_same_key ∅ reviewByLee reviewByAnnaLee); [reflexivity | set_solver | reflexivity].
  - intros normalizeDate. split; [discriminate|].
    unfold collect. cbn [map seenReviews initialProgress].
    rewrite (filterUnique_same_key ∅ (transform normalizeDate rawByLee)
               (transform normalizeDate rawByAnnaLee)); [reflexivity | set_solver | reflexivity].
Qed.

End DedupSpec.

(** ** The orchestrator: checkpoints *)

Module CheckpointSpec.
Import JsString JsStringFacts DataTransformer ScraperOrchestrator.

(** The exports of a trace: the records and the file name of each. *)
Definition exportsOf (tr : list Event) : list (list TransformedReview * string) :=
  omap (fun ev => match ev with
                  | Export reviews filename => Some (reviews, filename)
                  | _ => None
                  end) tr.

Lemma exportsOf_app tr1 tr2 : exportsOf (tr1 ++ tr2) = (exportsOf tr1 ++ exportsOf tr2)%list.
Proof. apply omap_app. Qed.

Fixpoint no_dot (s : string) : bool :=
  match s with
  | String c s' => negb (Ascii.eqb c ".") && no_dot s'
  | EmptyString => true
  end.

Lemma replaceFirst_extension base replacement :
  no_dot base = true ->
  replaceFirst ".csv" replacement (base +:+ ".csv") = base +:+ replacement.
Proof.
  induction base as [|c base IH]; intros Hbase.
  - push_append. cbn. generalize replacement. intros r.
    induction r as [|x r IHr]; push_append; [reflexivity | now rewrite IHr].
  - cbn [no_dot] in Hbase. apply andb_true_iff in Hbase as [Hc Hbase].
    apply negb_true_iff in Hc. push_append. cbn [replaceFirst String.prefix].
    destruct (ascii_dec "." c) as [<-|_]; [discriminate|]. now rewrite (IH Hbase).
Qed.

(** For an output file name [base.csv] whose [base] holds no dot, the
    checkpoint is named [base_checkpoint_page<N>.csv]. *)
Lemma checkpointFilename_csv base n :
  no_dot base = true ->
  checkpointFilename (base +:+ ".csv") n
  = base +:+ "_checkpoint_page" +:+ pretty n +:+ ".csv".
Proof. intros Hbase. unfold checkpointFilename. now apply replaceFirst_extension. Qed.

Section Checkpoint.
Variable config : ScraperConfig.

(** No checkpoint unless the count of pages processed is a multiple of 50. *)
Lemma saveCheckpoint_skip checkpoint st :
  (pagesDone st mod 50 <> 0)%nat -> saveCheckpoint config checkpoint st = st.
Proof.
  intros Hmod. unfold saveCheckpoint.
  destruct (Nat.eqb_spec (pagesDone st mod 50) 0); [contradiction | reflexivity].
Qed.

(** At a multiple of 50 the accumulator is exported once, whatever the
    outcome of the export, and a failure is logged as a warning; the
    variables of the run are left as they are. *)
Lemma saveCheckpoint_export checkpoint st :
  (pagesDone st mod 50 = 0)%nat ->
  let st' := saveCheckpoint config checkpoint st in
  exportsOf (trace st')
  = (exportsOf (trace st)
     ++ [(allReviews st, checkpointFilename (outputFilename config) (pagesDone st))])%list
  /\ allReviews st' = allReviews st
  /\ pagesDone st' = pagesDone st
  /\ currentPage st' = currentPage st
  /\ errorLog st' = errorLog st
  /\ (forall checkpointError, checkpoint = ExportFails checkpointError ->
        last (trace st')
        = Some (LogWarn ("Failed to save checkpoint: " +:+ message checkpointError))).
Proof.
  intros Hmod. unfold saveCheckpoint. rewrite Hmod. cbn [Nat.eqb].
  destruct checkpoint as [path|err]; cbn [emit trace allReviews pagesDone currentPage errorLog];
    rewrite !exportsOf_app; cbn [exportsOf omap]; rewrite ?app_nil_r;
    repeat split; try discriminate.
  intros checkpointError [= <-]. now rewrite last_snoc.
Qed.

End Checkpoint.

(** An output name that the command line accepts, and a site of fifty empty
    pages. *)
Definition txtConfig : ScraperConfig :=
  {| targetURL := "https://www.trustpilot.com/review/example.com";
     outputFilename := "reviews.txt";
     maxPages := None;
     delayMs := 2000;
     headless := true |}.

Definition fiftyPages : World :=
  {| initialize := None; createPage := None; navigateToURL := true;
     site := uniformSite 49 [] (Written "/data/reviews.txt");
     exportAfterLoop := Written "/data/reviews.txt";
     exportInCatch := Written "/data/reviews.txt";
     close := None |}.

(** C9, where the code departs from it: with the output file name
    [reviews.txt] the checkpoint made after the 50th page is exported to
    [reviews.txt] itself, the primary output file, and not to
    [reviews_checkpoint_page50.csv]. *)
Theorem checkpoint_name_without_csv (normalizeDate : string -> string) :
  checkpointFilename "reviews.txt" 50 = "reviews.txt"
  /\ checkpointFilename "reviews.txt" 50 <> "reviews_checkpoint_page50.csv"
  /\ exportsOf (fst (scrape normalizeDate txtConfig fiftyPages))
     = [([], "reviews.txt"); ([], "reviews.txt")].
Proof. vm_compute. repeat split; discriminate. Qed.

Example checkpoint_name_default :
  checkpointFilename "reviews.csv" 50 = "reviews_checkpoint_page50.csv".
Proof. vm_compute. reflexivity. Qed.

End CheckpointSpec.

(** ** The orchestrator: page errors and finalization *)

Module RunSpec.
Import JsString DataTransformer ScraperOrchestrator CheckpointSpec.

Definition exampleConfig : ScraperConfig :=
  {| targetURL := "https://www.trustpilot.com/review/example.com";
     outputFilename := "reviews.csv";
     maxPages := None;
     delayMs := 2000;
     headless := true |}.

(** A stand-in for [normalizeDate] on the closed examples: dates are kept
    as they are. *)
Definition sameDate (dateString : string) : string := dateString.

Definition containerMissing : Error :=
  {| message := "page.$$: review container structure not found" |}.

(** The first page makes [extractReviews] reject; everything else works. *)
Definition firstPageFails : World :=
  {| initialize := None; createPage := None; navigateToURL := true;
     site := ExtractThrows containerMissing;
     exportAfterLoop := Written "/data/reviews.csv";
     exportInCatch := Written "/data/reviews.csv";
     close := None |}.


Section Run.
Variable normalizeDate : string -> string.
Variable config : ScraperConfig.

(** The state in which the loop is entered. *)
Definition beforeLoop : Progress :=
  let st := emits [LogConfiguration; LogInfo "Initializing browser...";
                   LogInfo "Navigating to target URL..."] initialProgress in
  if headless config then st else emits manualLoginBanner st.

(** The state in which the loop is left. *)
Definition afterLoop (w : World) : Progress :=
  scrapeLoop normalizeDate config (site w) beforeLoop.

(** The first failure of the steps that precede the loop. *)
Definition setupFailure (w : World) : option Error :=
  match initialize w with
  | Some e => Some e
  | None =>
      match createPage w with
      | Some e => Some e
      | None =>
          if navigateToURL w then None
          else Some {| message := "Failed to navigate to target URL" |}
      end
  end.


Lemma tryBlock_setup_ok w :
  setupFailure w = None ->
  tryBlock normalizeDate config w
  = let st := emits [LogInfo ("Exporting " +:+ pretty (length (allReviews (afterLoop w)))
                              +:+ " reviews to CSV...");
                     Export (allReviews (afterLoop w)) (outputFilename config)]
                    (afterLoop w) in
    match exportAfterLoop w with
    | ExportFails e => (st, Throws e)
    | Written outputFile =>
        (emit (summary st outputFile) st, Returns (resultOf st outputFile))
    end.
Proof.
  unfold setupFailure, tryBlock, afterLoop, beforeLoop. intros Hsetup.
  destruct (initialize w); [discriminate|].
  destruct (createPage w); [discriminate|].
  destruct (navigateToURL w); [|discriminate].
  cbn [negb]. destruct (headless config); reflexivity.
Qed.

Lemma tryBlock_setup_fails w e :
  setupFailure w = Some e ->
  exists st, tryBlock normalizeDate config w = (st, Throws e)
             /\ allReviews st = [] /\ exportsOf (trace st) = [].
Proof.
  unfold setupFailure, tryBlock. intros Hsetup.
  destruct (initialize w) as [e0|].
  { injection Hsetup as ->. eexists. split; [reflexivity|]. now split. }
  destruct (createPage w) as [e0|].
  { injection Hsetup as ->. eexists. split; [reflexivity|]. now split. }
  destruct (navigateToURL w); [discriminate|].
  injection Hsetup as <-. eexists. split; [reflexivity|]. now split.
Qed.

(** The events of the [finally] block. *)
Definition closing (w : World) : list Event :=
  match initialize w with
  | None => [LogInfo "Closing browser..."; BrowserClose]
  | Some _ => []
  end.

Lemma finallyBlock_closes w st c :
  close w = None ->
  finallyBlock w st c = (emits (closing w) st, c).
Proof.
  intros Hclose. unfold finallyBlock, closing.
  destruct (initialize w); [reflexivity|]. now rewrite Hclose.
Qed.

Lemma trace_emits evs st : trace (emits evs st) = (trace st ++ evs)%list.
Proof.
  revert st. induction evs as [|ev evs IH]; intros st; cbn [emits fold_left].
  - now rewrite app_nil_r.
  - change (fold_left (fun s ev => emit ev s) evs (emit ev st)) with (emits evs (emit ev st)).
    rewrite IH. cbn [emit trace]. now rewrite <- app_assoc.
Qed.

Lemma exportsOf_closing w : exportsOf (closing w) = [].
Proof. unfold closing. now destruct (initialize w). Qed.

Lemma scrape_returns w st r :
  tryBlock normalizeDate config w = (st, Returns r) ->
  close w = None ->
  scrape normalizeDate config w = ((trace st ++ closing w)%list, Returns r).
Proof.
  intros Htry Hclose. unfold scrape. rewrite Htry, finallyBlock_closes by exact Hclose.
  now rewrite trace_emits.
Qed.

Lemma scrape_throws w st e :
  tryBlock normalizeDate config w = (st, Throws e) ->
  close w = None ->
  scrape normalizeDate config w
  = ((trace (fst (catchBlock config w e st)) ++ closing w)%list,
     snd (catchBlock config w e st)).
Proof.
  intros Htry Hclose. unfold scrape. rewrite Htry.
  destruct (catchBlock config w e st) as [st' c].
  rewrite finallyBlock_closes by exact Hclose. now rewrite trace_emits.
Qed.

(** The [catch] block without records: nothing is exported, the error is
    raised again. *)
Lemma catchBlock_empty w e st :
  allReviews st = [] ->
  snd (catchBlock config w e st) = Throws e
  /\ exportsOf (trace (fst (catchBlock config w e st))) = exportsOf (trace st).
Proof.
  intros Hnone. unfold catchBlock.
  cbn [pushError emit allReviews trace]. rewrite Hnone.
  cbn [length Nat.ltb Nat.leb fst snd trace pushError emit].
  split; [reflexivity|]. rewrite exportsOf_app. cbn. now rewrite app_nil_r.
Qed.

(** The [catch] block with records: one export; the error is raised again
    only when that export fails. *)
Lemma catchBlock_records w e st :
  allReviews st <> [] ->
  exportsOf (trace (fst (catchBlock config w e st)))
  = (exportsOf (trace st) ++ [(allReviews st, outputFilename config)])%list
  /\ snd (catchBlock config w e st)
     = match exportInCatch w with
       | Written outputFile =>
           Returns {| totalReviews := length (allReviews st);
                      pagesProcessed := pagesDone st;
                      outputFile := outputFile;
                      errors := (errorLog st ++ [message e])%list |}
       | ExportFails _ => Throws e
       end.
Proof.
  intros Hsome. unfold catchBlock.
  cbn [pushError emit allReviews trace].
  assert (Hlen : (0 <? length (allReviews st))%nat = true).
  { apply Nat.ltb_lt. destruct (allReviews st); [congruence | cbn; lia]. }
  rewrite Hlen.
  destruct (exportInCatch w) as [outputFile|exportError];
    unfold resultOf, summary;
    cbn [fst snd trace emit emits fold_left pushError allReviews pagesDone errorLog];
    rewrite !exportsOf_app; cbn [exportsOf omap]; rewrite ?app_nil_r;
    split; reflexivity.
Qed.


(** C1 (amended): a normal completion of [scrape] exports the accumulated
    records to the primary output file, also when there are none.  When
    [scrape] aborts on a critical error, its handler exports the accumulated
    records only if there is at least one: with none accumulated, as always
    when start-up or the first navigation fails, the handler exports nothing
    and the originating error is re-raised; with some accumulated, the
    handler attempts the export and, when it succeeds, [scrape] returns the
    result with the error's message recorded instead of re-raising; when it
    fails, the originating error is re-raised.  This holds when closing the
    browser does not itself fail. *)
Theorem finalization (w : World) :
  close w = None ->
  let st := afterLoop w in
  let primary := (allReviews st, outputFilename config) in
  let exported := exportsOf (fst (scrape normalizeDate config w)) in
  let completion := snd (scrape normalizeDate config w) in
  match setupFailure w with
  | Some e => exported = [] /\ completion = Throws e
  | None =>
      match exportAfterLoop w with
      | Written outputFile =>
          exported = (exportsOf (trace st) ++ [primary])%list
          /\ completion = Returns (resultOf st outputFile)
      | ExportFails e =>
          match allReviews st with
          | [] =>
              exported = (exportsOf (trace st) ++ [primary])%list
              /\ completion = Throws e
          | _ :: _ =>
              exported = (exportsOf (trace st) ++ [primary; primary])%list
              /\ completion
                 = match exportInCatch w with
                   | Written outputFile =>
                       Returns {| totalReviews := length (allReviews st);
                                  pagesProcessed := pagesDone st;
                                  outputFile := outputFile;
                                  errors := (errorLog st ++ [message e])%list |}
                   | ExportFails _ => Throws e
                   end
          end
      end
  end.
Proof.
  intros Hclose. cbv zeta.
  destruct (setupFailure w) as [e|] eqn:Hsetup.
  - destruct (tryBlock_setup_fails w e Hsetup) as [st [Htry [Hnone Hexp]]].
    rewrite (scrape_throws w st e Htry Hclose). cbn [fst snd].
    destruct (catchBlock_empty w e st Hnone) as [Hc Ht].
    now rewrite exportsOf_app, Ht, Hexp, exportsOf_closing.
  - pose proof (tryBlock_setup_ok w Hsetup) as Htry. cbv zeta in Htry.
    destruct (exportAfterLoop w) as [outputFile|e].
    + rewrite (scrape_returns w _ _ Htry Hclose). cbn [fst snd].
      rewrite exportsOf_app, exportsOf_closing, app_nil_r.
      cbn [emit trace]. rewrite trace_emits, !exportsOf_app. cbn [exportsOf omap].
      rewrite app_nil_r. split; reflexivity.
    + rewrite (scrape_throws w _ _ Htry Hclose). cbn [fst snd].
      rewrite exportsOf_app, exportsOf_closing, app_nil_r.
      set (st := emits _ (afterLoop w)) in *.
      assert (Hall : allReviews st = allReviews (afterLoop w)) by reflexivity.
      assert (Htr : exportsOf (trace st)
                    = (exportsOf (trace (afterLoop w))
                       ++ [(allReviews (afterLoop w), outputFilename config)])%list).
      { unfold st. rewrite trace_emits, exportsOf_app. reflexivity. }
      destruct (allReviews (afterLoop w)) as [|review rest] eqn:Hacc.
      * destruct (catchBlock_empty w e st Hall) as [Hc Ht]. now rewrite Ht, Hc, Htr.
      * destruct (catchBlock_records w e st) as [Ht Hc]; [congruence|].
        rewrite Ht, Hc, Htr, Hall, <- app_assoc. split; [reflexivity|].
        destruct (exportInCatch w); reflexivity.
Qed.

End Run.

Definition navigationFails : World :=
  {| initialize := None; createPage := None; navigateToURL := false;
     site := ExtractThrows containerMissing;
     exportAfterLoop := Written "/data/reviews.csv";
     exportInCatch := Written "/data/reviews.csv";
     close := None |}.

Definition oneReview : ReviewElement.t :=
  {| ReviewElement.rating := "Rated 5 out of 5 stars";
     ReviewElement.text := "Fast delivery and a friendly support team.";
     ReviewElement.date := "2024-01-15";
     ReviewElement.reviewerName := "Anna Lee";
     ReviewElement.title := Some "Excellent";
     ReviewElement.verified := Some true |}.

Definition fileBusy : Error := {| message := "EBUSY: resource busy or locked" |}.

(** One page with one review; the export after the loop fails, the one in
    the handler succeeds. *)
Definition exportFailsOnce : World :=
  {| initialize := None; createPage := None; navigateToURL := true;
     site := Extracted [oneReview] (Written "/data/reviews.csv") NoNextButton;
     exportAfterLoop := ExportFails fileBusy;
     exportInCatch := Written "/data/reviews.csv";
     close := None |}.

(** C1, as stated, fails: when the first navigation fails, [scrape] aborts
    without any export, although the claim has it export the zero records
    accumulated; and when the final export fails with one record
    accumulated and the export of the handler succeeds, [scrape] returns a
    result and does not re-raise the error. *)
Lemma abort_without_export_or_reraise :
  exportsOf (fst (scrape sameDate exampleConfig navigationFails)) = []
  /\ snd (scrape sameDate exampleConfig navigationFails)
     = Throws {| message := "Failed to navigate to target URL" |}
  /\ snd (scrape sameDate exampleConfig exportFailsOnce)
     = Returns {| totalReviews := 1; pagesProcessed := 1;
                  outputFile := "/data/reviews.csv";
                  errors := ["EBUSY: resource busy or locked"] |}
  /\ snd (scrape sameDate exampleConfig exportFailsOnce) <> Throws fileBusy.
Proof. vm_compute. repeat split; discriminate. Qed.

Lemma finalization_witness :
  (exportsOf (fst (scrape sameDate exampleConfig navigationFails)) = []
   /\ snd (scrape sameDate exampleConfig navigationFails)
      = Throws {| message := "Failed to navigate to target URL" |})
  /\ (exportsOf (fst (scrape sameDate exampleConfig firstPageFails))
      = [([], "reviews.csv")]
      /\ snd (scrape sameDate exampleConfig firstPageFails)
         = Returns {| totalReviews := 0; pagesProcessed := 0;
                      outputFile := "/data/reviews.csv";
                      errors := ["Error processing page 1: page.$$: review container structure not found"] |}).
Proof.
  split.
  - exact (finalization sameDate exampleConfig navigationFails eq_refl).
  - exact (finalization sameDate exampleConfig firstPageFails eq_refl).
Defined.


End RunSpec.

(** ** The retry scheduler: general behaviour *)

Module RetrySpec.
Import JsString RateLimiter RateLimiterSpec.

Section Retries.
Context {T : Type}.
Variable operation : nat -> Attempt T.
Variable config : RetryConfig.

Lemma calls_called (r : Run T) : calls (called r) = S (calls r).
Proof. reflexivity. Qed.

Lemma calls_slept ms (r : Run T) : calls (slept ms r) = calls r.
Proof. reflexivity. Qed.

Lemma outcome_called (r : Run T) : outcome (called r) = outcome r.
Proof. reflexivity. Qed.

Lemma outcome_slept ms (r : Run T) : outcome (slept ms r) = outcome r.
Proof. reflexivity. Qed.

(** One iteration of the loop on a success, and on the failure of the
    last attempt. *)
Lemma retryLoop_resolves fuel attempt lastError v :
  (attempt <= maxRetries config)%nat ->
  operation attempt = Resolves v ->
  retryLoop operation config (S fuel) attempt lastError
  = {| sleeps := []; calls := 1; outcome := Returned v |}.
Proof.
  intros Hle Hop. cbn [retryLoop].
  rewrite (proj2 (Nat.leb_le _ _) Hle), Hop. reflexivity.
Qed.

Lemma retryLoop_last fuel lastError error :
  operation (maxRetries config) = Rejects error ->
  retryLoop operation config (S fuel) (maxRetries config) lastError
  = called (throwLast (Some error)).
Proof.
  intros Hop. cbn [retryLoop]. now rewrite Nat.leb_refl, Hop, Nat.eqb_refl.
Qed.

(** The loop invokes the operation at least once and at most once per
    iteration left, and sleeps between two invocations, not after the
    last. *)
Lemma retryLoop_calls fuel :
  forall attempt lastError,
    (attempt + S fuel = S (maxRetries config))%nat ->
    let r := retryLoop operation config (S fuel) attempt lastError in
    (1 <= calls r <= S fuel)%nat /\ S (length (sleeps r)) = calls r.
Proof.
  induction fuel as [|fuel IH]; intros attempt lastError Hfuel r; subst r.
  - assert (attempt = maxRetries config) as -> by lia.
    destruct (operation (maxRetries config)) as [v|error] eqn:Hop.
    + rewrite (retryLoop_resolves 0 _ lastError v) by (trivial; lia). cbn. lia.
    + rewrite (retryLoop_last 0 lastError error Hop). cbn. lia.
  - destruct (operation attempt) as [v|error] eqn:Hop.
    + rewrite (retryLoop_resolves _ _ lastError v) by (trivial; lia). cbn. lia.
    + rewrite (retryLoop_rejects operation config _ attempt lastError error) by (trivial; lia).
      rewrite calls_called, calls_slept, sleeps_called, sleeps_slept.
      destruct (IH (S attempt) (Some error) ltac:(lia)) as [Hc Hs].
      cbn [length]. lia.
Qed.

(** Every sleep follows the failure of the attempt of the same index. *)
Lemma retryLoop_sleep_origin fuel :
  forall attempt lastError j ms,
    (attempt + fuel = S (maxRetries config))%nat ->
    sleeps (retryLoop operation config fuel attempt lastError) !! j = Some ms ->
    exists error,
      operation (attempt + j)%nat = Rejects error
      /\ (attempt + j < maxRetries config)%nat
      /\ ms = delayAfter config (attempt + j) error.
Proof.
  induction fuel as [|fuel IH]; intros attempt lastError j ms Hfuel Hj.
  - cbn in Hj. discriminate.
  - destruct (Nat.eq_dec attempt (maxRetries config)) as [->|Hne].
    + destruct (operation (maxRetries config)) as [v|error] eqn:Hop.
      * rewrite (retryLoop_resolves _ _ lastError v) in Hj by (trivial; lia). discriminate.
      * rewrite (retryLoop_last _ lastError error Hop) in Hj. discriminate.
    + destruct (operation attempt) as [v|error] eqn:Hop.
      * rewrite (retryLoop_resolves _ _ lastError v) in Hj by (trivial; lia). discriminate.
      * rewrite (retryLoop_rejects operation config _ attempt lastError error) in Hj
          by (trivial; lia).
        rewrite sleeps_called, sleeps_slept in Hj. destruct j as [|j].
        -- injection Hj as <-. exists error. rewrite Nat.add_0_r. repeat split; trivial. lia.
        -- cbn [lookup list_lookup] in Hj.
           destruct (IH (S attempt) (Some error) j ms ltac:(lia) Hj) as [e [He [Hlt Hms]]].
           exists e. replace (attempt + S j)%nat with (S attempt + j)%nat by lia.
           repeat split; trivial.
Qed.

(** The outcome when the first [k] attempts fail and attempt [k] decides. *)
Lemma retryLoop_outcome (failure : nat -> Thrown) k :
  forall fuel attempt lastError,
    (attempt + fuel = S (maxRetries config))%nat ->
    (attempt + k <= maxRetries config)%nat ->
    (forall i, (attempt <= i < attempt + k)%nat -> operation i = Rejects (failure i)) ->
    let r := retryLoop operation config fuel attempt lastError in
    let final := retryLoop operation config (fuel - k) (attempt + k)
                   (if k is O then lastError else Some (failure (attempt + k - 1)%nat)) in
    outcome r = outcome final
    /\ calls r = (k + calls final)%nat
    /\ length (sleeps r) = (k + length (sleeps final))%nat.
Proof.
  induction k as [|k IH]; intros fuel attempt lastError Hfuel Hk Hfail r final; subst r final.
  - rewrite Nat.sub_0_r, Nat.add_0_r. now repeat split.
  - destruct fuel as [|fuel]; [lia|].
    rewrite (retryLoop_rejects operation config fuel attempt lastError (failure attempt))
      by (try apply Hfail; lia).
    rewrite outcome_called, outcome_slept, calls_called, calls_slept, sleeps_called, sleeps_slept.
    destruct (IH fuel (S attempt) (Some (failure attempt)) ltac:(lia) ltac:(lia)) as [Ho [Hc Hs]].
    { intros i Hi. apply Hfail. lia. }
    replace (S fuel - S k)%nat with (fuel - k)%nat by lia.
    replace (attempt + S k)%nat with (S attempt + k)%nat by lia.
    replace (S attempt + k - 1)%nat with (attempt + k)%nat by lia.
    assert (Hlast : (if k is O then Some (failure attempt)
                     else Some (failure (S attempt + k - 1)%nat))
                    = Some (failure (attempt + k)%nat)).
    { destruct k; [now rewrite Nat.add_0_r | f_equal; f_equal; lia]. }
    rewrite Hlast in *. cbn [length]. rewrite Ho, Hc, Hs. repeat split; lia.
Qed.

(** The thrown value that attempt [i] rejects with, when it does. *)
Definition failureOf (i : nat) : Thrown :=
  match operation i with
  | Rejects error => error
  | Resolves _ => Falsy
  end.

Lemma failureOf_rejects i :
  (exists error, operation i = Rejects error) -> operation i = Rejects (failureOf i).
Proof. intros [error He]. unfold failureOf. now rewrite He. Qed.

(** X1: [retryWithBackoff] invokes the operation at least once and at most
    [maxRetries + 1] times, and it sleeps exactly once between two
    consecutive invocations: never before the first, never after the
    last. *)
Theorem retry_invocations_bounded :
  let r := retryWithBackoff operation config in
  (1 <= calls r <= S (maxRetries config))%nat
  /\ S (length (sleeps r)) = calls r.
Proof.
  apply (retryLoop_calls (maxRetries config) 0%nat None). lia.
Qed.

(** X2: the first success is returned at once.  If attempt [k], with
    [k <= maxRetries], is the first to resolve, [retryWithBackoff] returns
    its value after exactly [k + 1] invocations and [k] sleeps: no
    invocation follows a success. *)
Theorem retry_first_success k v :
  (k <= maxRetries config)%nat ->
  (forall i, (i < k)%nat -> exists error, operation i = Rejects error) ->
  operation k = Resolves v ->
  let r := retryWithBackoff operation config in
  outcome r = Returned v /\ calls r = S k /\ length (sleeps r) = k.
Proof.
  intros Hk Hfail Hop r. subst r. unfold retryWithBackoff.
  destruct (retryLoop_outcome failureOf k (S (maxRetries config)) 0%nat None)
    as [Ho [Hc Hs]]; [lia | lia | |].
  { intros i Hi. apply failureOf_rejects, Hfail. lia. }
  cbn [Nat.add] in Ho, Hc, Hs. rewrite Ho, Hc, Hs.
  replace (S (maxRetries config) - k)%nat with (S (maxRetries config - k)) by lia.
  rewrite (retryLoop_resolves _ _ _ v) by (trivial; lia). cbn. repeat split; lia.
Qed.

(** X3: when every one of the [maxRetries + 1] attempts fails, the value
    thrown by the last attempt is re-raised as it is, after
    [maxRetries + 1] invocations and [maxRetries] sleeps; only a falsy
    thrown value is replaced, by the error [Operation failed after
    retries]. *)
Theorem retry_exhausted last :
  (forall i, (i < maxRetries config)%nat -> exists error, operation i = Rejects error) ->
  operation (maxRetries config) = Rejects last ->
  let r := retryWithBackoff operation config in
  outcome r = Raised match last with
                     | Err e => Err e
                     | Falsy => Err (plainError "Operation failed after retries")
                     end
  /\ calls r = S (maxRetries config)
  /\ length (sleeps r) = maxRetries config.
Proof.
  intros Hfail Hop r. subst r. unfold retryWithBackoff.
  destruct (retryLoop_outcome failureOf (maxRetries config) (S (maxRetries config)) 0%nat None)
    as [Ho [Hc Hs]]; [lia | lia | |].
  { intros i Hi. apply failureOf_rejects, Hfail. lia. }
  cbn [Nat.add] in Ho, Hc, Hs. rewrite Ho, Hc, Hs.
  replace (S (maxRetries config) - maxRetries config)%nat with 1%nat by lia.
  rewrite (retryLoop_last _ _ last Hop). cbn. destruct last; repeat split; lia.
Qed.

(** The configurations on which the integer arithmetic of
    [exponentialDelay] is that of the code, whose numbers are binary64.
    [Math.pow(2, attempt)] is a power of two up to attempt 1023 and
    [Infinity] from attempt 1024 on.  Its product with a positive
    [baseDelay] is exact or [Infinity], and [Math.min] with a finite
    [maxDelay] then gives what the integers give.  With [baseDelay = 0] the
    product is [NaN] from attempt 1024 on; no such attempt is followed by a
    sleep when [maxRetries] is at most 1024.  A negative [baseDelay] is
    left out. *)
Definition exactBackoff : Prop :=
  maxDelay config < 2 ^ 1024
  /\ (0 < baseDelay config
      \/ (baseDelay config = 0 /\ (maxRetries config <= 1024)%nat)).

(** X4: without server wait hints the back-off is capped and never
    shrinks.  If no failure of the operation carries a wait hint, on the
    configurations where the arithmetic of the code is exact
    ([baseDelay] positive and [maxDelay] finite, or [baseDelay] zero and at
    most 1024 retries), the [i]-th sleep is the smaller of [baseDelay]
    times [2^i] and [maxDelay], hence at most [maxDelay], and a later sleep
    is never shorter than an earlier one. *)
Theorem backoff_capped_nondecreasing i j d1 d2 :
  exactBackoff ->
  (forall k error, operation k = Rejects error -> extractRetryAfter error = None) ->
  (i <= j)%nat ->
  sleeps (retryWithBackoff operation config) !! i = Some d1 ->
  sleeps (retryWithBackoff operation config) !! j = Some d2 ->
  d1 = exponentialDelay config i /\ d1 <= d2 /\ d2 <= maxDelay config.
Proof.
  intros [_ Hexact] Hhint Hij H1 H2.
  assert (Hbase : 0 <= baseDelay config) by (destruct Hexact as [|[-> _]]; lia).
  unfold retryWithBackoff in H1, H2.
  apply retryLoop_sleep_origin in H1 as [e1 [He1 [_ ->]]]; [|lia].
  apply retryLoop_sleep_origin in H2 as [e2 [He2 [_ ->]]]; [|lia].
  cbn [Nat.add] in *. unfold delayAfter, exponentialDelay.
  rewrite (Hhint _ _ He1), (Hhint _ _ He2).
  assert (2 ^ Z.of_nat i <= 2 ^ Z.of_nat j) by (apply Z.pow_le_mono_r; lia).
  assert (baseDelay config * 2 ^ Z.of_nat i <= baseDelay config * 2 ^ Z.of_nat j) by nia.
  repeat split; lia.
Qed.

Lemma sum_bounded (bound : Z) (l : list Z) :
  (forall x, x ∈ l -> x <= bound) ->
  fold_right Z.add 0 l <= Z.of_nat (length l) * bound.
Proof.
  induction l as [|x l IH]; intros Hb; [cbn; lia|].
  cbn [fold_right length].
  assert (x <= bound) by (apply Hb; left).
  assert (fold_right Z.add 0 l <= Z.of_nat (length l) * bound)
    by (apply IH; intros y Hy; apply Hb; now right).
  lia.
Qed.

(** X5: without server wait hints the total time slept by one call of
    [retryWithBackoff] is at most [maxRetries] times [maxDelay], for a
    [maxDelay] that is not negative and on the configurations where the
    arithmetic of the code is exact. *)
Theorem backoff_total_bounded :
  exactBackoff ->
  0 <= maxDelay config ->
  (forall k error, operation k = Rejects error -> extractRetryAfter error = None) ->
  totalSleep (retryWithBackoff operation config)
  <= Z.of_nat (maxRetries config) * maxDelay config.
Proof.
  intros _ Hmax Hhint. unfold totalSleep.
  destruct (retryLoop_calls (maxRetries config) 0%nat None) as [Hc Hs]; [lia|].
  fold (retryWithBackoff operation config) in Hc, Hs.
  etransitivity.
  - apply (sum_bounded (maxDelay config)). intros x Hx.
    apply list_elem_of_lookup in Hx as [i Hi]. unfold retryWithBackoff in Hi.
    apply retryLoop_sleep_origin in Hi as [e [He [_ ->]]]; [|lia].
    unfold delayAfter. rewrite (Hhint _ _ He). lia.
  - apply Z.mul_le_mono_nonneg_r; lia.
Qed.

End Retries.

Lemma retry_first_success_witness :
  let r := retryWithBackoff threeTimeouts defaultRetryConfig in
  outcome r = Returned "success" /\ calls r = 4%nat /\ length (sleeps r) = 3%nat.
Proof.
  apply (retry_first_success threeTimeouts defaultRetryConfig 3 "success").
  - cbn. lia.
  - intros i Hi. exists timeoutError.
    destruct i as [|[|[|i]]]; [reflexivity | reflexivity | reflexivity | lia].
  - reflexivity.
Defined.

Lemma retry_exhausted_witness :
  let r := retryWithBackoff fourTimeouts defaultRetryConfig in
  outcome r = Raised (Err (plainError "fourth failure"))
  /\ calls r = 4%nat /\ length (sleeps r) = 3%nat.
Proof.
  apply (retry_exhausted fourTimeouts defaultRetryConfig (Err (plainError "fourth failure"))).
  - intros i Hi. exists timeoutError. cbn in Hi.
    destruct i as [|[|[|i]]]; [reflexivity | reflexivity | reflexivity | lia].
  - reflexivity.
Defined.

Lemma noHint_fourTimeouts k error :
  fourTimeouts k = Rejects error -> extractRetryAfter error = None.
Proof.
  destruct k as [|[|[|[|k]]]]; cbn; intros H; try (injection H as <-; reflexivity).
  destruct k; discriminate.
Qed.

Lemma backoff_capped_nondecreasing_witness :
  1000 = exponentialDelay defaultRetryConfig 0 /\ 1000 <= 4000 /\ 4000 <= 8000.
Proof.
  apply (backoff_capped_nondecreasing fourTimeouts defaultRetryConfig 0 2 1000 4000).
  - split; [vm_compute; reflexivity | left; vm_compute; reflexivity].
  - exact noHint_fourTimeouts.
  - lia.
  - reflexivity.
  - reflexivity.
Defined.

Lemma backoff_total_bounded_witness :
  totalSleep (retryWithBackoff fourTimeouts defaultRetryConfig) <= 3 * 8000.
Proof.
  apply (backoff_total_bounded fourTimeouts defaultRetryConfig).
  - split; [vm_compute; reflexivity | left; vm_compute; reflexivity].
  - vm_compute. discriminate.
  - exact noHint_fourTimeouts.
Defined.

End RetrySpec.

(** ** The [retry-after] header *)

Module RetryAfterSpec.
Import JsString RateLimiter RateLimiterSpec JsStringFacts.

Lemma pretty_N_char_digit (y : N) :
  (y < 10)%N ->
  is_digit (pretty_N_char y) = true /\ digit_value (pretty_N_char y) = Z.of_N y.
Proof.
  intros Hy.
  assert (y = 0 \/ y = 1 \/ y = 2 \/ y = 3 \/ y = 4 \/ y = 5 \/ y = 6 \/ y = 7
          \/ y = 8 \/ y = 9)%N as H by lia.
  repeat (destruct H as [->|H]; [now vm_compute|]). subst y. now vm_compute.
Qed.

(** Reading back the decimal digits that [pretty] has written. *)
Lemma read_digits_pretty_N_go (x : N) :
  forall s acc,
    (0 < x)%N ->
    (exists k, read_digits (pretty_N_go x s) acc
               = read_digits s (Some (default 0 acc * 10 ^ k + Z.of_N x)) /\ 0 <= k)
    /\ exists c rest, pretty_N_go x s = String c rest /\ is_digit c = true.
Proof.
  induction (N.lt_wf_0 x) as [x _ IH]. intros s acc Hx.
  rewrite pretty_N_go_step by exact Hx.
  destruct (pretty_N_char_digit (x mod 10)) as [Hdigit Hvalue];
    [apply N.mod_lt; lia|].
  pose proof (N.div_mod x 10 ltac:(lia)) as Hdm.
  destruct (N.eq_dec (x / 10)%N 0%N) as [Hzero|Hpos].
  - rewrite Hzero, pretty_N_go_0. split.
    + exists 1. cbn [read_digits]. rewrite Hdigit, Hvalue. split; [|lia].
      do 2 f_equal. lia.
    + eauto.
  - assert (Hlt : (x / 10 < x)%N) by (apply N.div_lt; lia).
    assert (Hdiv : (0 < x / 10)%N) by now apply N.neq_0_lt_0.
    destruct (IH (x / 10)%N Hlt (String (pretty_N_char (x mod 10)) s) acc Hdiv)
      as [[k [Hread Hk]] Hstart]. split.
    + exists (k + 1). rewrite Hread. cbn [read_digits]. rewrite Hdigit, Hvalue.
      split; [|lia]. do 2 f_equal. rewrite Z.pow_add_r by lia. unfold id.
      assert (Hx' : Z.of_N x = 10 * Z.of_N (x / 10) + Z.of_N (x mod 10))
        by (rewrite Hdm at 1; lia).
      rewrite Hx'. change (10 ^ 1) with 10. cbn [default from_option].
      generalize (from_option (fun z : Z => z) 0 acc) (10 ^ k). intros a p. lia.
    + exact Hstart.
Qed.

Lemma parseInt_digit_start c rest :
  is_digit c = true -> parseInt (String c rest) = read_digits (String c rest) None.
Proof.
  intros Hdigit. unfold parseInt. cbn [skip_spaces].
  rewrite (digit_not_space c Hdigit).
  destruct c as [[] [] [] [] [] [] [] []]; try discriminate Hdigit; reflexivity.
Qed.

(** The integer that [parseInt] reads back from the decimal numeral of a
    natural number.  It is the code's Number as long as it is at most
    2^53: beyond, the Number is the nearest binary64. *)
Lemma parseInt_pretty (n : nat) : parseInt (pretty n) = Some (Z.of_nat n).
Proof.
  unfold pretty, pretty_nat, pretty, pretty_N.
  destruct (decide (N.of_nat n = 0%N)) as [Hzero|Hpos].
  - assert (n = 0%nat) as -> by lia. reflexivity.
  - destruct (read_digits_pretty_N_go (N.of_nat n) EmptyString None)
      as [[k [Hread Hk]] [c [rest Hstart]]]; [lia|].
    destruct Hstart as [Hstart Hdigit]. rewrite Hstart in *.
    rewrite (parseInt_digit_start c rest Hdigit), Hread. cbn. f_equal. lia.
Qed.

(** X25: a number of seconds in [retry-after] is honoured exactly.  For a
    429 response whose [retry-after] header is the decimal numeral of [n],
    with [n] times 1000 at most 2^53, so that [parseInt] and the product
    with 1000 are exact in the arithmetic of the code, [extractRetryAfter]
    gives the hint [n], whatever the message and the status of the error,
    and the retry that follows sleeps [n] times 1000 milliseconds,
    whatever the back-off configuration. *)
Theorem retry_after_seconds (e : JsError) (r : Response) (n attempt : nat)
    (config : RetryConfig) :
  Z.of_nat n * 1000 <= 2 ^ 53 ->
  response e = Some r ->
  status r = Some 429 ->
  headers r ≫= (.!! "retry-after") = Some (pretty n) ->
  extractRetryAfter (Err e) = Some (Z.of_nat n)
  /\ delayAfter config attempt (Err e) = Z.of_nat n * 1000.
Proof.
  intros _ Hr Hstatus Hheader.
  assert (Hhint : extractRetryAfter (Err e) = Some (Z.of_nat n)).
  { unfold extractRetryAfter, extractRetryAfterErr, parsedRetryAfterHeader.
    rewrite Hr, Hheader, bool_decide_eq_true_2 by exact Hstatus.
    rewrite parseInt_pretty.
    assert (Htruthy : truthy (pretty n) = true).
    { destruct (pretty n) eqn:Hp; [|reflexivity].
      pose proof (parseInt_pretty n) as Hparse. rewrite Hp in Hparse. discriminate. }
    now rewrite Htruthy. }
  split; [exact Hhint|]. unfold delayAfter. now rewrite Hhint.
Qed.

Lemma retry_after_seconds_witness :
  extractRetryAfter rateLimited5 = Some 5
  /\ delayAfter defaultRetryConfig 0 rateLimited5 = 5 * 1000.
Proof.
  apply (retry_after_seconds
           {| message := None; err_status := None;
              response := Some {| status := Some 429;
                                  headers := Some {[ "retry-after" := "5" ]} |} |}
           {| status := Some 429; headers := Some {[ "retry-after" := "5" ]} |}
           5 0 defaultRetryConfig); try reflexivity.
  vm_compute. discriminate.
Defined.

End RetryAfterSpec.

(** ** [RateLimiter.delay]: the pacing of requests *)

Module RateLimiterDelaySpec.
Import RateLimiterDelay.

(** X6: [delay] spaces the requests.  When the clock does not go back and
    a sleep lasts at least the time asked for, the request time recorded
    by a call of [delay(milliseconds)] is at least [milliseconds] after the
    one recorded before; the call sleeps only for a positive time, and for
    no more than [milliseconds] when the clock has not gone back since the
    last recorded request. *)
Theorem delay_spaces_requests (milliseconds now after : Z) (l : Limiter) :
  clockAdvances now after (fst (delay milliseconds now after l)) ->
  let '(sleep, l') := delay milliseconds now after l in
  lastRequestTime l + milliseconds <= lastRequestTime l'
  /\ (forall d, sleep = Some d ->
        0 < d /\ (lastRequestTime l <= now -> d <= milliseconds)).
Proof.
  unfold delay, clockAdvances. cbn [fst lastRequestTime].
  destruct (Z.ltb_spec (now - lastRequestTime l) milliseconds) as [Hlt|Hge];
    cbn; intros Hclock.
  - split; [lia|]. intros d [= <-]. lia.
  - split; [lia|]. intros d [=].
Qed.

Lemma delay_spaces_requests_witness :
  let '(sleep, l') := delay 2000 10500 12000 {| lastRequestTime := 10000 |} in
  10000 + 2000 <= lastRequestTime l'
  /\ (forall d, sleep = Some d -> 0 < d /\ (10000 <= 10500 -> d <= 2000)).
Proof.
  apply (delay_spaces_requests 2000 10500 12000 {| lastRequestTime := 10000 |}).
  unfold clockAdvances. vm_compute. discriminate.
Defined.

(** On a limiter that has recorded no request yet the field holds 0, so a
    first call does not sleep once the clock reads at least
    [milliseconds]. *)
Lemma first_delay_no_sleep (milliseconds now after : Z) :
  milliseconds <= now ->
  fst (delay milliseconds now after newLimiter) = None.
Proof.
  intros Hnow. unfold delay, newLimiter. cbn [fst lastRequestTime].
  destruct (Z.ltb_spec (now - 0) milliseconds); [lia | reflexivity].
Qed.

End RateLimiterDelaySpec.

(** ** [DataTransformer]: further properties *)

Module TransformSpec.
Import JsString DataTransformer JsStringFacts SanitizeTextSpec ParseRatingSpec.

Lemma skip_spaces_fixed s : starts_with_space s = false -> skip_spaces s = s.
Proof. destruct s as [|c s]; [reflexivity|]. cbn. now intros ->. Qed.

Lemma trimEnd_fixed s : ends_with_space s = false -> trimEnd s = s.
Proof.
  induction s as [|c s IH]; [reflexivity|].
  cbn [ends_with_space trimEnd]. destruct s as [|c' s].
  - cbn. now intros ->.
  - intros H. rewrite (IH H). reflexivity.
Qed.

Lemma trim_fixed s :
  starts_with_space s = false -> ends_with_space s = false -> trim s = s.
Proof.
  intros Hs He. unfold trim, trimStart. rewrite (skip_spaces_fixed s Hs).
  now apply trimEnd_fixed.
Qed.

Lemma replaceCRLF_fixed s : hasCR s = false -> replaceCRLF s = s.
Proof.
  induction s as [|c s IH]; [reflexivity|].
  cbn [hasCR]. intros H. apply orb_false_elim in H as [Hc Hs].
  destruct s as [|c' s]; [reflexivity|].
  rewrite replaceCRLF_cons2, Hc. cbn [andb]. now rewrite (IH Hs).
Qed.

Lemma replaceCR_fixed s : hasCR s = false -> replaceCR s = s.
Proof.
  induction s as [|c s IH]; [reflexivity|].
  cbn [hasCR replaceCR]. intros H. apply orb_false_elim in H as [Hc Hs].
  now rewrite Hc, (IH Hs).
Qed.

Lemma leadingLF_bound s : includes LF3 s = false -> (leadingLF s <= 2)%nat.
Proof.
  intros H. destruct s as [|c1 [|c2 [|c3 s]]]; cbn [leadingLF];
    repeat match goal with |- context [Ascii.eqb ?c LF] =>
      destruct (Ascii.eqb_spec c LF) as [->|?] end; try lia.
  exfalso. rewrite includes_cons in H. apply orb_false_elim in H as [H _].
  unfold LF3 in H. cbn [String.prefix] in H.
  destruct (ascii_dec LF LF) as [_|Hn]; [|contradiction].
  destruct s; discriminate.
Qed.

Lemma collapseLFfrom_fixed s :
  forall run,
    includes LF3 s = false -> (leadingLF s + Nat.min run 2 <= 2)%nat ->
    collapseLFfrom run s = s.
Proof.
  induction s as [|c s IH]; intros run Hinc Hlead; [reflexivity|].
  rewrite includes_cons in Hinc. apply orb_false_elim in Hinc as [_ Hinc].
  cbn [collapseLFfrom leadingLF] in *. destruct (Ascii.eqb_spec c LF) as [->|Hne].
  - destruct (Nat.ltb_spec run 2) as [Hlt|Hge]; [|lia].
    rewrite IH; [reflexivity | exact Hinc | lia].
  - rewrite IH; [reflexivity | exact Hinc |]. pose proof (leadingLF_bound s Hinc). lia.
Qed.

(** The string that [sanitizeText] returns is left unchanged by each of its
    four steps. *)
Lemma sanitized_fixed t :
  starts_with_space t = false -> ends_with_space t = false ->
  let out := collapseLF (replaceCR (replaceCRLF t)) in
  collapseLF (replaceCR (replaceCRLF (trim out))) = out.
Proof.
  intros Hs He out.
  assert (Hcr : hasCR out = false)
    by (apply collapseLFfrom_hasCR, replaceCR_hasCR).
  destruct (collapseLFfrom_runs (replaceCR (replaceCRLF t)) 0) as [Hinc Hlead].
  fold (collapseLF (replaceCR (replaceCRLF t))) in Hinc, Hlead. fold out in Hinc, Hlead.
  rewrite trim_fixed.
  - rewrite (replaceCRLF_fixed out Hcr), (replaceCR_fixed out Hcr).
    apply collapseLFfrom_fixed; [exact Hinc | exact Hlead].
  - apply collapseLFfrom_start, replaceCR_start, replaceCRLF_start, Hs.
  - apply pipeline_end, He.
Qed.

Ltac sanitize_twice text :=
  unfold sanitizeText at 2 3; destruct (truthy text); cbn [negb]; [|reflexivity];
  match goal with
  | |- sanitizeText ?out = _ =>
      unfold sanitizeText; destruct (truthy out) eqn:?; cbn [negb];
      [ apply sanitized_fixed; [apply trim_start | apply trim_end]
      | symmetry; now apply truthy_false ]
  end.

(** X7: [sanitizeText] is idempotent: sanitizing a sanitized text changes
    nothing. *)
Theorem sanitizeText_idempotent (text : string) :
  sanitizeText (sanitizeText text) = sanitizeText text.
Proof.
  unfold sanitizeText at 2 3. destruct (truthy text); cbn [negb]; [|reflexivity].
  set (out := collapseLF (replaceCR (replaceCRLF (trim text)))).
  unfold sanitizeText. destruct (truthy out) eqn:Hout; cbn [negb].
  - apply sanitized_fixed; [apply trim_start | apply trim_end].
  - symmetry. now apply truthy_false.
Qed.

Lemma replaceCRLF_empty s : replaceCRLF s = EmptyString -> s = EmptyString.
Proof.
  destruct s as [|c1 [|c2 s]]; [reflexivity | discriminate |].
  rewrite replaceCRLF_cons2. destruct (_ && _); discriminate.
Qed.

Lemma replaceCR_empty s : replaceCR s = EmptyString -> s = EmptyString.
Proof. destruct s; [reflexivity | discriminate]. Qed.

Lemma collapseLF_empty s :
  starts_with_space s = false -> collapseLF s = EmptyString -> s = EmptyString.
Proof.
  destruct s as [|c s]; [reflexivity|]. unfold collapseLF. cbn [starts_with_space collapseLFfrom].
  intros Hc. destruct (Ascii.eqb_spec c LF) as [->|Hne]; [|discriminate].
  now rewrite LF_is_space in Hc.
Qed.

Lemma sanitizeText_empty_trim (text : string) :
  sanitizeText text = EmptyString -> trim text = EmptyString.
Proof.
  unfold sanitizeText. destruct text as [|c text]; [reflexivity|].
  cbn [truthy negb]. intros H. apply collapseLF_empty in H.
  - now apply replaceCRLF_empty, replaceCR_empty.
  - apply replaceCR_start, replaceCRLF_start, trim_start.
Qed.

(** X8: [sanitizeText] returns the empty string exactly for the texts that
    consist of white space only (the empty text included): a text that
    holds a visible character is never sanitized away. *)
Theorem sanitizeText_empty_iff (text : string) :
  sanitizeText text = EmptyString <-> trim text = EmptyString.
Proof.
  split; [apply sanitizeText_empty_trim|].
  unfold sanitizeText. destruct text as [|c text]; [reflexivity|].
  cbn [truthy negb]. now intros ->.
Qed.

Lemma sanitizeText_empty_iff_witness :
  sanitizeText (String LF "  ") = EmptyString.
Proof. apply (proj2 (sanitizeText_empty_iff (String LF "  "))). reflexivity. Defined.

Lemma match_number_no_digit_prefix pre s :
  no_digit pre = true -> match_number (pre +:+ s) = match_number s.
Proof.
  induction pre as [|c pre IH]; intros H; [now rewrite append_nil_l|].
  cbn [no_digit] in H. apply andb_true_iff in H as [Hc Hpre].
  rewrite append_cons, match_number_cons, match_number_here_none.
  - now apply IH.
  - cbn [starts_with_digit]. now apply negb_true_iff.
Qed.

(** X9: what precedes the first digit does not count.  For a prefix
    without a decimal digit, [parseRating] of the prefix followed by a
    string is [parseRating] of that string, so [Rated 4 out of 5 stars]
    and [4 out of 5 stars] parse alike. *)
Theorem parseRating_ignores_prefix (pre s : string) :
  no_digit pre = true -> parseRating (pre +:+ s) = parseRating s.
Proof.
  intros H. now rewrite !parseRating_unfold, match_number_no_digit_prefix.
Qed.

Lemma parseRating_ignores_prefix_witness :
  parseRating ("Rated " +:+ "4 out of 5 stars") = parseRating "4 out of 5 stars".
Proof. apply (parseRating_ignores_prefix "Rated " "4 out of 5 stars"). reflexivity. Defined.

Lemma acceptRating_range n :
  acceptRating n = 0%Q \/ (1 <= acceptRating n <= 5)%Q.
Proof.
  destruct n as [q|]; [|now left]. cbn [acceptRating inRange].
  destruct (Qle_bool 1 q) eqn:H1; [|now left].
  destruct (Qle_bool q 5) eqn:H5; [|now left].
  right. cbn [andb]. split; now apply Qle_bool_iff.
Qed.

Section Transform.
Variable normalizeDate : string -> string.

(** X10: the reviews that [transform] produces are normalised.  The rating
    is 0 or lies between 1 and 5; text, reviewer name and title are left
    unchanged by a further [sanitizeText]; the title is empty when the raw
    review has none, and [verified] is false unless the raw review says
    true. *)
Theorem transform_normalised (review : ReviewElement.t) :
  let r := transform normalizeDate review in
  (rating r = 0%Q \/ (1 <= rating r <= 5)%Q)
  /\ sanitizeText (text r) = text r
  /\ sanitizeText (reviewerName r) = reviewerName r
  /\ sanitizeText (title r) = title r
  /\ (ReviewElement.title review = None -> title r = EmptyString)
  /\ (verified r = true <-> ReviewElement.verified review = Some true).
Proof.
  cbn [transform rating text reviewerName title verified].
  split; [|split; [|split; [|split; [|split]]]].
  - rewrite parseRating_unfold. destruct (match_number _); [apply acceptRating_range | now left].
  - sanitize_twice (ReviewElement.text review).
  - sanitize_twice (ReviewElement.reviewerName review).
  - destruct (ReviewElement.title review) as [t|]; [|reflexivity].
    destruct (truthy t) eqn:Ht; [|reflexivity]. sanitize_twice t.
  - now intros ->.
  - destruct (ReviewElement.verified review) as [[|]|]; cbn; split; congruence.
Qed.

End Transform.

(** A raw review without title and without verified mark. *)
Definition plainReview : ReviewElement.t :=
  {| ReviewElement.rating := "Rated 4 out of 5 stars";
     ReviewElement.text := "  Arrived on time." +:+ String CR (String LF "Works well.  ");
     ReviewElement.date := "2024-03-02";
     ReviewElement.reviewerName := " Sam ";
     ReviewElement.title := None;
     ReviewElement.verified := None |}.

Lemma transform_normalised_witness :
  title (transform id plainReview) = EmptyString.
Proof.
  apply (proj1 (proj2 (proj2 (proj2 (proj2 (transform_normalised id plainReview)))))).
  reflexivity.
Defined.

Example transform_plainReview :
  transform id plainReview
  = {| rating := 4;
       text := "Arrived on time." +:+ String LF "Works well.";
       date := "2024-03-02";
       reviewerName := "Sam";
       title := EmptyString;
       verified := false |}.
Proof. vm_compute. reflexivity. Qed.

End TransformSpec.

(** ** [extractField] and [extractReviews]: what a page yields *)

Module ReviewExtractionSpec.
Import JsString ContentExtractor ReviewExtraction JsStringFacts ContentExtractorSpec.
Import ScraperOrchestrator (Event, LogInfo, LogWarn).
Import TransformSpec.

Lemma trim_idempotent s : trim (trim s) = trim s.
Proof. apply trim_fixed; [apply trim_start | apply trim_end]. Qed.

Lemma trySelectors_some element fieldName selectors :
  forall found,
    trySelectors element selectors fieldName = Some found ->
    trim found = found /\ found <> EmptyString.
Proof.
  induction selectors as [|selector rest IH]; intros found; [discriminate|].
  cbn [trySelectors].
  destruct (query element selector) as [|[fe|]]; cbn [mbind call_bind]; try apply IH.
  destruct (fieldText fieldName fe) as [|raw]; cbn [mbind call_bind]; [apply IH|].
  destruct (truthy (trim raw)) eqn:Ht; [|apply IH].
  intros [= <-]. split; [apply trim_idempotent | now apply ParseRatingSpec.truthy_true].
Qed.

Lemma trySelectors_app element fieldName pre post :
  trySelectors element (pre ++ post)%list fieldName
  = match trySelectors element pre fieldName with
    | Some found => Some found
    | None => trySelectors element post fieldName
    end.
Proof.
  induction pre as [|selector pre IH]; [reflexivity|].
  cbn [app trySelectors].
  destruct (query element selector) as [|[fe|]]; cbn [mbind call_bind]; try exact IH.
  destruct (fieldText fieldName fe) as [|raw]; cbn [mbind call_bind]; [exact IH|].
  destruct (truthy (trim raw)); [reflexivity | exact IH].
Qed.

Lemma firstSubstantial_some ps :
  forall found,
    firstSubstantial ps = Gives (Some found) ->
    trim found = found /\ (20 < String.length found)%nat.
Proof.
  induction ps as [|p ps IH]; intros found; [discriminate|].
  cbn [firstSubstantial]. destruct p as [|content]; cbn [mbind call_bind]; [discriminate|].
  destruct (truthy (trim (orEmpty content))); cbn [andb]; [|apply IH].
  destruct (Nat.ltb_spec 20 (String.length (trim (orEmpty content)))); [|apply IH].
  intros [= <-]. split; [apply trim_idempotent | assumption].
Qed.

Lemma textFallback_some element found :
  textFallback element = Gives (Some found) ->
  trim found = found /\ (20 < String.length found)%nat.
Proof.
  unfold textFallback. destruct (paragraphs element) as [|ps]; cbn [mbind call_bind]; [discriminate|].
  destruct (firstSubstantial ps) as [|[first|]] eqn:Hfirst; cbn [mbind call_bind]; [discriminate| |].
  - intros [= <-]. now apply (firstSubstantial_some ps).
  - destruct (ownTextContent element) as [|content]; cbn [mbind call_bind]; [discriminate|].
    destruct (substantialLines (trim (orEmpty content))) as [|first rest] eqn:Hlines; [discriminate|].
    intros [= <-]. destruct (reduce_longer rest first) as [Hin _].
    rewrite <- Hlines in Hin. unfold substantialLines in Hin.
    apply list_elem_of_filter in Hin as [Hlen Hin].
    apply list_elem_of_fmap in Hin as [l [Heq _]]. rewrite Heq in *.
    split; [apply trim_idempotent | exact Hlen].
Qed.

(** X12: what [extractField] returns is trimmed, and a required field is
    never empty: the text returned has no leading and no trailing white
    space, and it is the empty string only for an optional field that was
    not found. *)
Theorem extractField_trimmed element selectors fieldName required found :
  extractField element selectors fieldName required = Text found ->
  trim found = found
  /\ (required = true -> found <> EmptyString).
Proof.
  unfold extractField.
  destruct (trySelectors element selectors fieldName) as [t|] eqn:Hsel.
  - intros [= <-]. destruct (trySelectors_some _ _ _ _ Hsel). now split.
  - destruct (String.eqb fieldName "text" && required) eqn:Hfb.
    + destruct (textFallback element) as [|[t|]] eqn:Hfall.
      * destruct required; [discriminate|]. intros [= <-]. split; [reflexivity | discriminate].
      * intros [= <-]. destruct (textFallback_some _ _ Hfall) as [Htrim Hlen].
        split; [exact Htrim|]. intros _ ->. cbn in Hlen. lia.
      * destruct required; [discriminate|]. intros [= <-]. split; [reflexivity | discriminate].
    + destruct required; [discriminate|]. intros [= <-]. split; [reflexivity | discriminate].
Qed.

(** X13: the selectors of a field are tried in order and the first that
    yields a text decides.  A text found by the selectors of a first list
    is returned whatever selectors follow, and selectors that yield
    nothing (no element, a blank text or an exception) behave as if they
    were not in the list. *)
Theorem extractField_selector_priority element fieldName required pre post :
  (forall found, trySelectors element pre fieldName = Some found ->
     extractField element (pre ++ post)%list fieldName required = Text found)
  /\ (trySelectors element pre fieldName = None ->
      extractField element (pre ++ post)%list fieldName required
      = extractField element post fieldName required).
Proof.
  unfold extractField. rewrite trySelectors_app. split.
  - now intros found ->.
  - now intros ->.
Qed.

(** An optional field is never the reason of a failure. *)
Lemma extractField_optional element selectors fieldName :
  exists found, extractField element selectors fieldName false = Text found.
Proof.
  unfold extractField. destruct (trySelectors element selectors fieldName) as [t|]; [now exists t|].
  rewrite andb_false_r. now exists EmptyString.
Qed.

Definition requiredField (element : ElementHandle) (selectors : list string)
    (fieldName : string) : Extracted :=
  extractField element selectors fieldName true.

(** A required field that is found comes from a selector or from the
    fallback, and is a trimmed text that is not empty. *)
Lemma requiredField_found element selectors fieldName found :
  requiredField element selectors fieldName = Text found ->
  trim found = found /\ found <> EmptyString.
Proof.
  unfold requiredField, extractField.
  destruct (trySelectors element selectors fieldName) as [t|] eqn:Hsel.
  - intros [= <-]. now apply (trySelectors_some element fieldName selectors).
  - destruct (String.eqb fieldName "text" && true); [|discriminate].
    destruct (textFallback element) as [|[t|]] eqn:Hfall; try discriminate.
    intros [= <-]. destruct (textFallback_some _ _ Hfall) as [Htrim Hlen].
    split; [exact Htrim|]. intros ->. cbn in Hlen. lia.
Qed.

Lemma extractSingleReview_fields element review :
  extractSingleReview element = Ok review ->
  requiredField element (rating REVIEW_SELECTORS) "rating" = Text (ReviewElement.rating review)
  /\ requiredField element (text REVIEW_SELECTORS) "text" = Text (ReviewElement.text review)
  /\ requiredField element (date REVIEW_SELECTORS) "date" = Text (ReviewElement.date review)
  /\ requiredField element (reviewerName REVIEW_SELECTORS) "reviewerName"
     = Text (ReviewElement.reviewerName review)
  /\ ReviewElement.title review <> Some EmptyString
  /\ ReviewElement.verified review <> Some false.
Proof.
  unfold extractSingleReview, requiredField.
  destruct (extractField element (rating REVIEW_SELECTORS) "rating" true) as [r|];
    cbn [awaitField mbind result_bind]; [|discriminate].
  destruct (extractField element (text REVIEW_SELECTORS) "text" true) as [t|];
    cbn [awaitField mbind result_bind]; [|discriminate].
  destruct (extractField element (date REVIEW_SELECTORS) "date" true) as [d|];
    cbn [awaitField mbind result_bind]; [|discriminate].
  destruct (extractField element (reviewerName REVIEW_SELECTORS) "reviewerName" true) as [n|];
    cbn [awaitField mbind result_bind]; [|discriminate].
  destruct (extractField element (title REVIEW_SELECTORS) "title" false) as [ti|];
    cbn [awaitField mbind result_bind]; [|discriminate].
  destruct (extractField element (verified REVIEW_SELECTORS) "verified" false) as [v|];
    cbn [awaitField mbind result_bind]; [|discriminate].
  intros [= <-]. cbn. repeat split.
  - destruct ti; cbn; congruence.
  - destruct (negb (v =? EmptyString)%string); congruence.
Qed.

(** X14: [extractSingleReview] fails exactly when a required field is not
    found.  It yields a review if and only if rating, text, date and
    reviewer name are all found, and the review then carries exactly the
    four texts found; the optional title and verified mark never make it
    fail, an empty title is left out, and the verified mark is either
    absent or true. *)
Theorem extractSingleReview_ok element :
  (forall review,
     extractSingleReview element = Ok review ->
     requiredField element (rating REVIEW_SELECTORS) "rating" = Text (ReviewElement.rating review)
     /\ requiredField element (text REVIEW_SELECTORS) "text" = Text (ReviewElement.text review)
     /\ requiredField element (date REVIEW_SELECTORS) "date" = Text (ReviewElement.date review)
     /\ requiredField element (reviewerName REVIEW_SELECTORS) "reviewerName"
        = Text (ReviewElement.reviewerName review)
     /\ ReviewElement.title review <> Some EmptyString
     /\ ReviewElement.verified review <> Some false)
  /\ (forall r t d n,
        requiredField element (rating REVIEW_SELECTORS) "rating" = Text r ->
        requiredField element (text REVIEW_SELECTORS) "text" = Text t ->
        requiredField element (date REVIEW_SELECTORS) "date" = Text d ->
        requiredField element (reviewerName REVIEW_SELECTORS) "reviewerName" = Text n ->
        exists review, extractSingleReview element = Ok review).
Proof.
  split; [apply extractSingleReview_fields|].
  unfold extractSingleReview, requiredField.
  intros r t d n -> -> -> ->. cbn [awaitField mbind result_bind].
  destruct (extractField_optional element (title REVIEW_SELECTORS) "title") as [ti ->].
  destruct (extractField_optional element (verified REVIEW_SELECTORS) "verified") as [v ->].
  cbn [awaitField mbind result_bind]. eauto.
Qed.

(** The review that a container yields, if any. *)
Definition reviewOf (element : ElementHandle) : option ReviewElement.t :=
  match extractSingleReview element with
  | Ok review => Some review
  | Raises _ => None
  end.

Definition isFailureWarning (ev : Event) : bool :=
  match ev with
  | LogWarn msg => String.prefix "Failed to extract review " msg
  | _ => false
  end.

Lemma extractLoop_spec reviewElements :
  forall i reviews,
    let '(warnings, out) := extractLoop i reviewElements reviews in
    out = (reviews ++ omap reviewOf reviewElements)%list
    /\ (length (omap reviewOf reviewElements) + length warnings
        = length reviewElements)%nat
    /\ forallb isFailureWarning warnings = true.
Proof.
  induction reviewElements as [|element rest IH]; intros i reviews;
    cbn [extractLoop omap list_omap].
  - now rewrite app_nil_r.
  - destruct (extractSingleReview element) as [review|message] eqn:Hsingle.
    + assert (Hrev : reviewOf element = Some review) by (unfold reviewOf; now rewrite Hsingle).
      rewrite Hrev. specialize (IH (S i) (reviews ++ [review])%list).
      destruct (extractLoop (S i) rest (reviews ++ [review])) as [warnings out].
      destruct IH as [-> [Hlen Hw]]. rewrite <- app_assoc. cbn [app length]. repeat split; trivial.
      lia.
    + assert (Hrev : reviewOf element = None) by (unfold reviewOf; now rewrite Hsingle).
      rewrite Hrev. specialize (IH (S i) reviews).
      destruct (extractLoop (S i) rest reviews) as [warnings out].
      destruct IH as [-> [Hlen Hw]]. cbn [length forallb isFailureWarning]. repeat split; trivial.
      * lia.
      * rewrite Hw, andb_true_r. apply prefix_spec. eexists. reflexivity.
Qed.

Lemma findContainers_no_warning page selectors :
  filter (fun ev => isFailureWarning ev = true) (fst (findContainers page selectors)) = [].
Proof.
  induction selectors as [|selector selectors IH]; cbn [findContainers]; [reflexivity|].
  destruct (queryAll page selector) as [|elements]; [exact IH|].
  destruct (0 <? length elements)%nat; [reflexivity | exact IH].
Qed.

Lemma extractReviews_omap (page : Page) :
  snd (extractReviews page) = omap reviewOf (snd (findReviewContainers page)).
Proof.
  unfold extractReviews. destruct (findReviewContainers page) as [found reviewElements].
  cbn [snd]. destruct reviewElements as [|element rest]; [reflexivity|].
  cbn [length Nat.eqb]. pose proof (extractLoop_spec (element :: rest) 0 []) as Hloop.
  destruct (extractLoop 0 (element :: rest) []) as [warnings reviews].
  now destruct Hloop as [-> _].
Qed.

(** X15: one review that cannot be extracted does not cost the others.
    [extractReviews] returns, in the order of the page, the reviews of
    exactly those containers for which [extractSingleReview] succeeds, and
    it logs one warning for each of the other containers. *)
Theorem extractReviews_skips_failures (page : Page) :
  let reviewElements := snd (findReviewContainers page) in
  snd (extractReviews page) = omap reviewOf reviewElements
  /\ (reviewElements <> [] ->
      (length (snd (extractReviews page))
       + length (filter (fun ev => isFailureWarning ev = true) (fst (extractReviews page)))
       = length reviewElements)%nat).
Proof.
  split; [apply extractReviews_omap|].
  unfold extractReviews. pose proof (findContainers_no_warning page
                                       (reviewContainer REVIEW_SELECTORS)) as Hfound.
  fold (findReviewContainers page) in Hfound.
  destruct (findReviewContainers page) as [found reviewElements].
  cbn [fst snd] in *. destruct reviewElements as [|element rest]; [congruence|]. intros _.
  cbn [length Nat.eqb]. pose proof (extractLoop_spec (element :: rest) 0 []) as Hloop.
  destruct (extractLoop 0 (element :: rest) []) as [warnings reviews].
  destruct Hloop as [-> [Hlen Hw]]. cbn [fst snd].
  rewrite !app_nil_l. etransitivity; [|exact Hlen]. f_equal.
  rewrite !filter_app, Hfound, app_nil_l.
  rewrite !(filter_cons_False _ (LogInfo _)) by (cbn; discriminate).
  rewrite !filter_nil, app_nil_l, app_nil_r.
  clear -Hw. induction warnings as [|w warnings IH]; [reflexivity|].
  cbn [forallb] in Hw. apply andb_true_iff in Hw as [Hw1 Hw2].
  rewrite filter_cons_True by exact Hw1. cbn [length]. now rewrite IH.
Qed.

Lemma findContainers_none page selectors :
  Forall (fun selector => queryAll page selector = Throws
                          \/ queryAll page selector = Gives []) selectors ->
  findContainers page selectors = ([], []).
Proof.
  induction 1 as [|selector selectors [Hq|Hq] _ IH]; cbn [findContainers];
    [reflexivity | |]; now rewrite Hq.
Qed.

Lemma findContainers_nonempty page selectors :
  snd (findContainers page selectors) = [] ->
  Forall (fun selector => queryAll page selector = Throws
                          \/ queryAll page selector = Gives []) selectors.
Proof.
  induction selectors as [|selector selectors IH]; cbn [findContainers]; [constructor|].
  destruct (queryAll page selector) as [|elements] eqn:Hq.
  - intros H. constructor; [now left | now apply IH].
  - destruct elements as [|element elements]; cbn [length Nat.ltb Nat.leb].
    + intros H. constructor; [now right | now apply IH].
    + cbn [snd]. discriminate.
Qed.

(** X16: a page without review containers gives no review and no error.
    [extractReviews] returns the empty array, after the single warning
    [No review elements found on page], exactly when every container
    selector throws or matches nothing; it returns reviews only from the
    first container selector that matches something. *)
Theorem extractReviews_nothing_found (page : Page) :
  Forall (fun selector => queryAll page selector = Throws
                          \/ queryAll page selector = Gives [])
         (reviewContainer REVIEW_SELECTORS)
  <-> extractReviews page = ([LogWarn "No review elements found on page"], []).
Proof.
  unfold extractReviews, findReviewContainers. split.
  - intros H. now rewrite (findContainers_none page _ H).
  - intros H. apply findContainers_nonempty.
    destruct (findContainers page (reviewContainer REVIEW_SELECTORS)) as [found elements].
    cbn [snd]. destruct elements as [|element elements]; [reflexivity|]. exfalso.
    cbn [length Nat.eqb] in H.
    destruct (extractLoop 0 (element :: elements) []) as [warnings reviews].
    injection H as Hlogs _. apply (f_equal (@length Event)) in Hlogs.
    rewrite !length_app in Hlogs. cbn [length] in Hlogs.
    rewrite length_app in Hlogs. cbn [length] in Hlogs. lia.
Qed.

Section Pipeline.
Variable normalizeDate : string -> string.

(** X17: every review that leaves the extractor has its four required
    fields filled in and trimmed, and it keeps a text and a reviewer name
    through [transform]: a record with an empty text or an empty reviewer
    name is never produced from a page. *)
Theorem extracted_reviews_filled (page : Page) (review : ReviewElement.t) :
  review ∈ snd (extractReviews page) ->
  Forall (fun field => trim field = field /\ field <> EmptyString)
         [ReviewElement.rating review; ReviewElement.text review;
          ReviewElement.date review; ReviewElement.reviewerName review]
  /\ DataTransformer.text (DataTransformer.transform normalizeDate review) <> EmptyString
  /\ DataTransformer.reviewerName (DataTransformer.transform normalizeDate review)
     <> EmptyString.
Proof.
  intros Hin. rewrite extractReviews_omap in Hin.
  apply list_elem_of_omap in Hin as [element [_ Hrev]]. unfold reviewOf in Hrev.
  destruct (extractSingleReview element) as [review'|] eqn:Hsingle; [|discriminate].
  injection Hrev as ->.
  destruct (extractSingleReview_fields element review Hsingle)
    as [Hr [Ht [Hd [Hn _]]]].
  apply requiredField_found in Hr as [Hr1 Hr2], Ht as [Ht1 Ht2],
                                Hd as [Hd1 Hd2], Hn as [Hn1 Hn2].
  split; [|split].
  - repeat constructor; auto.
  - cbn. intros H. apply sanitizeText_empty_trim in H. rewrite Ht1 in H. now apply Ht2.
  - cbn. intros H. apply sanitizeText_empty_trim in H. rewrite Hn1 in H. now apply Hn2.
Qed.

End Pipeline.

(** A review card as the site serves it, a container on which every call
    throws, and a listing page that holds both. *)
Definition withAttribute (name value : string) : FieldElement :=
  {| getAttribute := fun n => Gives (if String.eqb n name then Some value else None);
     textContent := Gives None |}.

Definition withText (content : string) : FieldElement :=
  {| getAttribute := fun _ => Gives None; textContent := Gives (Some content) |}.

Definition reviewCard : ElementHandle :=
  {| query := fun selector =>
       if String.eqb selector "div[data-service-review-rating] img[alt]"
       then Gives (Some (withAttribute "alt" "Rated 5 out of 5 stars"))
       else if String.eqb selector "p[data-service-review-text-typography]"
       then Gives (Some (withText "  Quick delivery.  "))
       else if String.eqb selector "time[datetime]"
       then Gives (Some (withAttribute "datetime" "2024-01-15T10:30:00.000Z"))
       else if String.eqb selector "span[data-consumer-name-typography]"
       then Gives (Some (withText "Anna Lee"))
       else Gives None;
     paragraphs := Gives [];
     ownTextContent := Gives None |}.

Definition brokenCard : ElementHandle :=
  {| query := fun _ => Throws; paragraphs := Throws; ownTextContent := Throws |}.

Definition listingPage : Page :=
  {| queryAll := fun selector =>
       if String.eqb selector "article[data-service-review-card-paper]"
       then Throws
       else if String.eqb selector "div[data-service-review-card-paper]"
       then Gives [reviewCard; brokenCard; reviewCard]
       else Gives [] |}.

Definition emptyPage : Page := {| queryAll := fun _ => Gives [] |}.

Definition annaLee : ReviewElement.t :=
  {| ReviewElement.rating := "Rated 5 out of 5 stars";
     ReviewElement.text := "Quick delivery.";
     ReviewElement.date := "2024-01-15T10:30:00.000Z";
     ReviewElement.reviewerName := "Anna Lee";
     ReviewElement.title := None;
     ReviewElement.verified := None |}.

Lemma extractField_trimmed_witness :
  trim "Quick delivery." = "Quick delivery."
  /\ (true = true -> "Quick delivery." <> EmptyString).
Proof.
  apply (extractField_trimmed reviewCard (text REVIEW_SELECTORS) "text" true).
  vm_compute. reflexivity.
Defined.

Lemma extractField_selector_priority_witness :
  extractField reviewCard (["p.missing"; "time[datetime]"] ++ ["span.review-date"])%list
    "date" true
  = Text "2024-01-15T10:30:00.000Z".
Proof.
  apply (proj1 (extractField_selector_priority reviewCard "date" true
                  ["p.missing"; "time[datetime]"] ["span.review-date"])).
  vm_compute. reflexivity.
Defined.

Lemma extractSingleReview_ok_witness :
  exists review, extractSingleReview reviewCard = Ok review.
Proof.
  apply (proj2 (extractSingleReview_ok reviewCard)
           "Rated 5 out of 5 stars" "Quick delivery." "2024-01-15T10:30:00.000Z" "Anna Lee");
    vm_compute; reflexivity.
Defined.

Lemma extractReviews_skips_failures_witness :
  (length (snd (extractReviews listingPage))
   + length (filter (fun ev => isFailureWarning ev = true) (fst (extractReviews listingPage)))
   = length (snd (findReviewContainers listingPage)))%nat.
Proof.
  apply (proj2 (extractReviews_skips_failures listingPage)).
  vm_compute. discriminate.
Defined.

Lemma extractReviews_nothing_found_witness :
  extractReviews emptyPage = ([LogWarn "No review elements found on page"], []).
Proof.
  apply (proj1 (extractReviews_nothing_found emptyPage)).
  unfold REVIEW_SELECTORS. cbn [reviewContainer].
  repeat (apply Forall_cons; split; [right; reflexivity|]). apply Forall_nil_2.
Defined.

Lemma extracted_reviews_filled_witness :
  Forall (fun field => trim field = field /\ field <> EmptyString)
         [ReviewElement.rating annaLee; ReviewElement.text annaLee;
          ReviewElement.date annaLee; ReviewElement.reviewerName annaLee]
  /\ DataTransformer.text (DataTransformer.transform id annaLee) <> EmptyString
  /\ DataTransformer.reviewerName (DataTransformer.transform id annaLee) <> EmptyString.
Proof.
  apply (extracted_reviews_filled id listingPage annaLee).
  vm_compute. apply list_elem_of_here.
Defined.

Example extractReviews_listingPage :
  extractReviews listingPage
  = ([LogInfo "Found reviews using selector: div[data-service-review-card-paper]";
      LogInfo "Found 3 review elements";
      LogWarn ("Failed to extract review 2: Required field "
               +:+ dquote +:+ "rating" +:+ dquote +:+ " not found");
      LogInfo "Successfully extracted 2 reviews"],
     [annaLee; annaLee]).
Proof. vm_compute. reflexivity. Qed.

End ReviewExtractionSpec.

(** ** The names of the checkpoint files *)

Module CheckpointNameSpec.
Import JsString DataTransformer ScraperOrchestrator JsStringFacts ParseRatingSpec.

Lemma drop_chars_append p rest : drop_chars (String.length p) (p +:+ rest) = rest.
Proof.
  induction p as [|c p IH]; [rewrite append_nil_l; now destruct rest|].
  rewrite append_cons. cbn [String.length drop_chars]. exact IH.
Qed.

(** [replace] with a string pattern rewrites the first occurrence and
    keeps what surrounds it. *)
Lemma replaceFirst_occurrence pattern s :
  includes pattern s = true ->
  exists before after,
    s = before +:+ pattern +:+ after
    /\ forall replacement,
         replaceFirst pattern replacement s = before +:+ replacement +:+ after.
Proof.
  induction s as [|c s IH]; intros H.
  - cbn [includes] in H. rewrite orb_false_r in H.
    apply prefix_spec in H as [rest Hrest]. exists EmptyString, rest. split.
    + now rewrite append_nil_l.
    + intros replacement. cbn [replaceFirst].
      destruct pattern; [|rewrite append_cons in Hrest; discriminate].
      rewrite append_nil_l in Hrest. subst rest. cbn. now rewrite append_nil_l.
  - rewrite includes_cons in H. cbn [replaceFirst].
    destruct (String.prefix pattern (String c s)) eqn:Hp.
    + apply prefix_spec in Hp as [rest Hrest]. exists EmptyString, rest. split.
      * now rewrite append_nil_l.
      * intros replacement. now rewrite Hrest, drop_chars_append, append_nil_l.
    + cbn [orb] in H. destruct (IH H) as [before [after [Hs Hr]]].
      exists (String c before), after. split.
      * now rewrite append_cons, <- Hs.
      * intros replacement. now rewrite append_cons, Hr.
Qed.

Lemma append_cancel_l (a x y : string) : a +:+ x = a +:+ y -> x = y.
Proof.
  induction a as [|c a IH]; [now rewrite !append_nil_l|].
  rewrite !append_cons. intros [= H]. now apply IH.
Qed.

Lemma append_cancel_r (x y t : string) : x +:+ t = y +:+ t -> x = y.
Proof.
  intros H. assert (Hlen : String.length x = String.length y).
  { apply (f_equal String.length) in H. rewrite !length_append in H. lia. }
  revert y H Hlen. induction x as [|c x IH]; intros [|d y] H Hlen; try discriminate.
  - reflexivity.
  - rewrite !append_cons in H. injection H as -> H. f_equal. apply IH; [exact H|].
    cbn in Hlen. lia.
Qed.

(** X11: the checkpoints of one run do not overwrite one another nor the
    primary output.  When the output file name contains [.csv], the
    checkpoint names of two different page counts differ, and every
    checkpoint name differs from the output file name. *)
Theorem checkpoint_names_distinct (outputFilename : string) (n m : nat) :
  includes ".csv" outputFilename = true ->
  (checkpointFilename outputFilename n = checkpointFilename outputFilename m -> n = m)
  /\ checkpointFilename outputFilename n <> outputFilename.
Proof.
  intros H. destruct (replaceFirst_occurrence _ _ H) as [before [after [Hs Hr]]].
  unfold checkpointFilename. rewrite !Hr. split.
  - intros Heq. apply append_cancel_l in Heq.
    rewrite !append_assoc in Heq. apply append_cancel_l in Heq.
    apply append_cancel_r in Heq. now apply (inj pretty).
  - intros Heq. rewrite Hs in Heq. apply append_cancel_l, append_cancel_r in Heq.
    apply (f_equal String.length) in Heq. rewrite !length_append in Heq. cbn in Heq. lia.
Qed.

Lemma checkpoint_names_distinct_witness :
  (checkpointFilename "reviews.csv" 50 = checkpointFilename "reviews.csv" 100 -> 50%nat = 100%nat)
  /\ checkpointFilename "reviews.csv" 50 <> "reviews.csv".
Proof. apply (checkpoint_names_distinct "reviews.csv" 50 100). reflexivity. Defined.

End CheckpointNameSpec.

(** ** The scraping loop: invariants of a run *)

Module LoopSpec.
Import JsString DataTransformer ScraperOrchestrator DedupSpec CheckpointSpec RunSpec.

Scheme Site_mutual := Induction for Site Sort Prop
  with Advance_mutual := Induction for Advance Sort Prop.

Section Invariants.
Variable normalizeDate : string -> string.
Variable config : ScraperConfig.

(** The state after the log line that opens an iteration, after the page
    has been collected and the checkpoint handled, and after the wait
    before the next page. *)
Definition entering (st : Progress) : Progress :=
  emit (LogInfo ("Extracting reviews from page " +:+ pretty (currentPage st) +:+ "...")) st.

Definition processed (rawReviews : list ReviewElement.t) (checkpoint : ExportOutcome)
    (st : Progress) : Progress :=
  saveCheckpoint config checkpoint (collect normalizeDate rawReviews (entering st)).

Definition advancing (st : Progress) : Progress :=
  emits [LogInfo ("Waiting " +:+ pretty (delayMs config) +:+ "ms before next page...");
         RateDelay (delayMs config);
         LogInfo "Navigating to next page..."] st.

Definition newReviews (rawReviews : list ReviewElement.t) (st : Progress)
    : list TransformedReview :=
  fst (filterUnique (seenReviews st) (map (transform normalizeDate) rawReviews)).

(** The checkpoint written when [pagesProcessed] reaches a multiple of 50. *)
Definition checkpointOf (rawReviews : list ReviewElement.t) (st : Progress)
    : list (list TransformedReview * string) :=
  if (S (pagesDone st) mod 50 =? 0)%nat
  then [((allReviews st ++ newReviews rawReviews st)%list,
         checkpointFilename (outputFilename config) (S (pagesDone st)))]
  else [].

Definition isExport (ev : Event) : bool :=
  match ev with Export _ _ => true | _ => false end.

Definition isPageProgress (ev : Event) : bool :=
  match ev with LogPageProgress _ _ => true | _ => false end.

(** The events of one page: log lines and at most one checkpoint export,
    with exactly one [logPageProgress]. *)
Definition pageEvents (evs : list Event) : Prop :=
  exists before after,
    evs = (before ++ after)%list
    /\ Forall (fun ev => match ev with LogInfo _ | LogWarn _ => True | _ => False end) before
    /\ match after with
       | LogPageProgress _ _ :: rest =>
           Forall (fun ev => match ev with
                             | LogInfo _ | LogWarn _ | Export _ _ => True
                             | _ => False
                             end) rest
       | _ => False
       end.

Lemma processed_fields raw cp st :
  currentPage (processed raw cp st) = currentPage st
  /\ pagesDone (processed raw cp st) = S (pagesDone st)
  /\ errorLog (processed raw cp st) = errorLog st
  /\ allReviews (processed raw cp st) = (allReviews st ++ newReviews raw st)%list
  /\ seenReviews (processed raw cp st)
     = snd (filterUnique (seenReviews st) (map (transform normalizeDate) raw))
  /\ exists evs,
       trace (processed raw cp st) = (trace st ++ evs)%list
       /\ exportsOf evs = checkpointOf raw st
       /\ pageEvents evs.
Proof.
  unfold processed, saveCheckpoint, collect, checkpointOf, newReviews, entering.
  cbn [emit seenReviews allReviews pagesDone currentPage errorLog trace].
  destruct (filterUnique (seenReviews st) (map (transform normalizeDate) raw))
    as [unique seen] eqn:Hfilter.
  cbn [fst snd seenReviews allReviews pagesDone currentPage errorLog trace].
  set (warned := if (0 <? _)%nat then _ else _).
  assert (Hwarned : Forall (fun ev => match ev with LogInfo _ | LogWarn _ => True | _ => False end)
                      warned)
    by (subst warned; destruct (0 <? _)%nat; repeat constructor).
  assert (Hexp : exportsOf warned = [])
    by (subst warned; destruct (0 <? _)%nat; reflexivity).
  destruct (S (pagesDone st) mod 50 =? 0)%nat.
  - destruct cp as [path|checkpointError];
      cbn [emit seenReviews allReviews pagesDone currentPage errorLog trace];
      repeat split; try reflexivity.
    + eexists. split; [rewrite <- !app_assoc; reflexivity|]. split.
      * rewrite !exportsOf_app, Hexp. cbn [exportsOf omap list_omap app]. reflexivity.
      * exists (LogInfo ("Extracting reviews from page " +:+ pretty (currentPage st) +:+ "...")
                :: warned). eexists. split; [reflexivity|]. split; [now constructor|].
        repeat constructor.
    + eexists. split; [rewrite <- !app_assoc; reflexivity|]. split.
      * rewrite !exportsOf_app, Hexp. cbn [exportsOf omap list_omap app]. reflexivity.
      * exists (LogInfo ("Extracting reviews from page " +:+ pretty (currentPage st) +:+ "...")
                :: warned). eexists. split; [reflexivity|]. split; [now constructor|].
        repeat constructor.
  - cbn [emit seenReviews allReviews pagesDone currentPage errorLog trace].
    repeat split; try reflexivity.
    eexists. split; [rewrite <- !app_assoc; reflexivity|]. split.
    + rewrite !exportsOf_app, Hexp. cbn [exportsOf omap list_omap app]. reflexivity.
    + exists (LogInfo ("Extracting reviews from page " +:+ pretty (currentPage st) +:+ "...")
              :: warned). eexists. split; [reflexivity|]. split; [now constructor|].
      repeat constructor.
Qed.

(** The loop, read as a proof rule: [P] holds whenever the loop test is
    evaluated, [Q] when the loop is left. *)
Lemma scrapeLoop_rule (P Q : Progress -> Prop) :
  (forall st, P st -> withinMaxPages config (currentPage st) = false -> Q st) ->
  (forall st msg pageError, P st -> withinMaxPages config (currentPage st) = true ->
     Q (pushError msg (emit (LogError msg (Some pageError)) (entering st)))) ->
  (forall st raw cp msg, P st -> withinMaxPages config (currentPage st) = true ->
     Q (emit (LogInfo msg) (processed raw cp st))) ->
  (forall st raw cp msg, P st -> withinMaxPages config (currentPage st) = true ->
     reachedMaxPages config (currentPage st) = false ->
     Q (pushError msg (emit (LogWarn msg) (advancing (processed raw cp st))))) ->
  (forall st raw cp, P st -> withinMaxPages config (currentPage st) = true ->
     reachedMaxPages config (currentPage st) = false ->
     Q (nextPage (advancing (processed raw cp st)))) ->
  (forall st raw cp, P st -> withinMaxPages config (currentPage st) = true ->
     reachedMaxPages config (currentPage st) = false ->
     P (nextPage (advancing (processed raw cp st)))) ->
  forall page st, P st -> Q (scrapeLoop normalizeDate config page st).
Proof.
  intros Hexit Herror Hstop Hfails Hlast Hnext page.
  induction page as [pageError|raw cp next IH| |error| |page IH]
    using Site_mutual
    with (P0 := fun next => forall raw cp st,
                  P st -> withinMaxPages config (currentPage st) = true ->
                  Q (scrapeLoop normalizeDate config (Extracted raw cp next) st));
    try (intros st Hst; destruct (withinMaxPages config (currentPage st)) eqn:Hin;
         [|cbn [scrapeLoop]; rewrite Hin; now apply Hexit]);
    try (intros raw cp st Hst Hin; cbn [scrapeLoop]; rewrite Hin;
         fold (entering st); fold (processed raw cp st);
         pose proof (processed_fields raw cp st) as [Hpage _];
         destruct (reachedMaxPages config (currentPage (processed raw cp st))) eqn:Hmax;
         [now apply Hstop|]; rewrite Hpage in Hmax;
         fold (advancing (processed raw cp st))).
  - cbn [scrapeLoop]. rewrite Hin. now apply Herror.
  - now apply IH.
  - now apply Hstop.
  - now apply Hfails.
  - now apply Hlast.
  - apply IH. now apply Hnext.
Qed.

Ltac fields :=
  cbn [emit emits pushError nextPage fold_left advancing entering
       trace allReviews seenReviews pagesDone currentPage errorLog].

Ltac page_fields raw cp st :=
  let Hcur := fresh "Hcur" in let Hdone := fresh "Hdone" in
  let Herr := fresh "Herr" in let Hall := fresh "Hall" in
  let Hseen := fresh "Hseen" in let evs := fresh "evs" in
  let Htrace := fresh "Htrace" in let Hexp := fresh "Hexp" in
  let Hevs := fresh "Hevs" in
  destruct (processed_fields raw cp st)
    as (Hcur & Hdone & Herr & Hall & Hseen & evs & Htrace & Hexp & Hevs);
  fields; rewrite ?Hcur, ?Hdone, ?Herr, ?Hall, ?Hseen, ?Htrace.

(** *** The page limit *)

Definition countsPages (st : Progress) : Prop :=
  currentPage st = S (pagesDone st)
  /\ forall m, maxPages config = Some m -> (pagesDone st <= m)%nat.

Lemma withinMaxPages_le st m :
  maxPages config = Some m -> withinMaxPages config (currentPage st) = true ->
  (currentPage st <= m)%nat.
Proof. unfold withinMaxPages. intros ->. apply Nat.leb_le. Qed.

Lemma scrapeLoop_pages page st :
  countsPages st ->
  forall m, maxPages config = Some m ->
    (pagesDone (scrapeLoop normalizeDate config page st) <= m)%nat.
Proof.
  revert page st.
  apply (scrapeLoop_rule countsPages
           (fun st => forall m, maxPages config = Some m -> (pagesDone st <= m)%nat)).
  - intros st [_ H] _. exact H.
  - intros st msg e [_ H] _. exact H.
  - intros st raw cp msg [Hc H] Hin m Hm. page_fields raw cp st.
    pose proof (withinMaxPages_le st m Hm Hin). lia.
  - intros st raw cp msg [Hc H] Hin _ m Hm. page_fields raw cp st.
    pose proof (withinMaxPages_le st m Hm Hin). lia.
  - intros st raw cp [Hc H] Hin _ m Hm. page_fields raw cp st.
    pose proof (withinMaxPages_le st m Hm Hin). lia.
  - intros st raw cp [Hc H] Hin _. split.
    + page_fields raw cp st. lia.
    + intros m Hm. page_fields raw cp st.
      pose proof (withinMaxPages_le st m Hm Hin). lia.
Qed.

(** *** Duplicates *)

Definition keysOf (reviews : list TransformedReview) : list string :=
  reviewKey <$> reviews.

Lemma filterUnique_keys reviews :
  forall seen,
    list_to_set (keysOf (fst (filterUnique seen reviews))) ∪ seen
    = snd (filterUnique seen reviews).
Proof.
  induction reviews as [|review rest IH]; intros seen; cbn [filterUnique].
  - cbn. set_solver.
  - case_bool_decide as Hseen; [apply IH|].
    specialize (IH ({[reviewKey review]} ∪ seen)).
    destruct (filterUnique ({[reviewKey review]} ∪ seen) rest) as [unique seen'].
    cbn [fst snd keysOf fmap list_fmap list_to_set] in *. rewrite <- IH. set_solver.
Qed.

Lemma filterUnique_sublist reviews :
  forall seen, fst (filterUnique seen reviews) `sublist_of` reviews.
Proof.
  induction reviews as [|review rest IH]; intros seen; cbn [filterUnique].
  - constructor.
  - case_bool_decide.
    + apply sublist_cons, IH.
    + specialize (IH ({[reviewKey review]} ∪ seen)).
      destruct (filterUnique ({[reviewKey review]} ∪ seen) rest) as [unique seen'].
      cbn [fst] in *. now apply sublist_skip.
Qed.

(** X26: the duplicate filter keeps one review for every new key.  Of the
    reviews of a page, [filterUnique] keeps a sub-sequence (nothing is
    reordered or invented) whose keys are pairwise distinct and are
    exactly the keys of the page that were not in the set of keys seen
    before; the set returned is the old one extended by the keys of the
    page. *)
Theorem filterUnique_new_keys (seen : gset string) (reviews : list TransformedReview) :
  let kept := fst (filterUnique seen reviews) in
  kept `sublist_of` reviews
  /\ NoDup (reviewKey <$> kept)
  /\ list_to_set (reviewKey <$> kept) = list_to_set (reviewKey <$> reviews) ∖ seen
  /\ snd (filterUnique seen reviews) = list_to_set (reviewKey <$> reviews) ∪ seen.
Proof.
  cbv zeta. destruct (filterUnique_fresh reviews seen) as [Hnodup Hfresh].
  pose proof (filterUnique_keys reviews seen) as Hkeys.
  pose proof (filterUnique_seen reviews seen) as Hseen.
  split; [apply filterUnique_sublist|]. split; [exact Hnodup|]. split; [|exact Hseen].
  unfold keysOf in Hkeys. rewrite Hseen in Hkeys.
  assert (Hdisjoint : forall key,
             key ∈ (reviewKey <$> fst (filterUnique seen reviews)) -> key ∉ seen).
  { intros key Hkey. apply list_elem_of_fmap in Hkey as [review [-> Hin]].
    now apply Hfresh in Hin as [Hin _]. }
  apply set_eq. intros key. rewrite elem_of_difference, !elem_of_list_to_set. split.
  - intros Hkey. split; [|now apply Hdisjoint].
    assert (Hin : key ∈ (list_to_set (reviewKey <$> reviews) ∪ seen : gset string)).
    { rewrite <- Hkeys. apply elem_of_union_l. now apply elem_of_list_to_set. }
    apply elem_of_union in Hin as [Hin|Hin]; [now apply elem_of_list_to_set in Hin|].
    now apply Hdisjoint in Hkey.
  - intros [Hkey Hnew].
    assert (Hin : key ∈ (list_to_set (reviewKey <$> fst (filterUnique seen reviews)) ∪ seen
                         : gset string)).
    { rewrite Hkeys. apply elem_of_union_l. now apply elem_of_list_to_set. }
    apply elem_of_union in Hin as [Hin|Hin]; [now apply elem_of_list_to_set in Hin | tauto].
Qed.

(** The reviews collected so far have pairwise distinct keys, the set
    [seenReviews] holds exactly these keys, and so it was for every list
    exported so far. *)
Definition deduplicated (st : Progress) : Prop :=
  NoDup (keysOf (allReviews st))
  /\ seenReviews st = list_to_set (keysOf (allReviews st))
  /\ Forall (fun exported => NoDup (keysOf (fst exported))) (exportsOf (trace st)).

Lemma deduplicated_log st ev :
  isExport ev = false -> deduplicated st -> deduplicated (emit ev st).
Proof.
  intros Hev (Hnd & Hseen & Hexp). repeat split; fields; trivial.
  rewrite exportsOf_app. destruct ev; try discriminate; cbn; now rewrite app_nil_r.
Qed.

Lemma deduplicated_processed raw cp st :
  deduplicated st -> deduplicated (processed raw cp st).
Proof.
  intros (Hnd & Hseen & Hexp). page_fields raw cp st.
  destruct (filterUnique_fresh (map (transform normalizeDate) raw) (seenReviews st))
    as [Hfresh Hnew].
  assert (Hall' : NoDup (keysOf (allReviews st ++ newReviews raw st))).
  { unfold keysOf. rewrite fmap_app. apply NoDup_app. split; [exact Hnd|]. split; [|exact Hfresh].
    intros key Hkey Hkey'. apply list_elem_of_fmap in Hkey' as [review [-> Hin]].
    apply Hnew in Hin as [Hin _]. apply Hin. rewrite Hseen. now apply elem_of_list_to_set. }
  repeat split.
  - rewrite Hall. exact Hall'.
  - rewrite Hseen0, Hall, <- filterUnique_keys. unfold keysOf, newReviews in *.
    rewrite fmap_app, list_to_set_app_L, <- Hseen. apply (comm_L (∪)).
  - rewrite Htrace, exportsOf_app, Hexp0. apply Forall_app. split; [exact Hexp|].
    unfold checkpointOf. destruct (_ =? _)%nat; [|constructor].
    constructor; [exact Hall' | constructor].
Qed.

Lemma deduplicated_frame st st' :
  allReviews st' = allReviews st -> seenReviews st' = seenReviews st ->
  trace st' = trace st ->
  deduplicated st -> deduplicated st'.
Proof. unfold deduplicated. now intros -> -> ->. Qed.

Ltac loop_steps log frame page :=
  unfold advancing, entering; cbn [emits fold_left];
  repeat first [ apply log; [reflexivity|]
               | apply page
               | eapply frame; [reflexivity | reflexivity | reflexivity |] ];
  trivial.

Lemma scrapeLoop_deduplicated page st :
  deduplicated st -> deduplicated (scrapeLoop normalizeDate config page st).
Proof.
  revert page st. apply (scrapeLoop_rule deduplicated deduplicated); intros;
    loop_steps deduplicated_log deduplicated_frame deduplicated_processed.
Qed.

(** *** Checkpoints *)

Lemma div50_next n :
  (S n mod 50 = 0 -> S n / 50 = S (n / 50) /\ 50 * S (n / 50) = S n)%nat
  /\ (S n mod 50 <> 0 -> S n / 50 = n / 50)%nat.
Proof.
  pose proof (Nat.div_mod_eq n 50). pose proof (Nat.mod_upper_bound n 50).
  pose proof (Nat.div_mod_eq (S n) 50). pose proof (Nat.mod_upper_bound (S n) 50).
  split; intros; lia.
Qed.

(** The checkpoints written so far are those of the pages 50, 100, ... up
    to [pagesProcessed], in this order, and each holds a prefix of the
    reviews collected so far. *)
Definition checkpointed (st : Progress) : Prop :=
  map snd (exportsOf (trace st))
  = map (fun k => checkpointFilename (outputFilename config) (50 * k)%nat)
        (seq 1 (pagesDone st / 50))
  /\ Forall (fun exported => fst exported `prefix_of` allReviews st) (exportsOf (trace st)).

Lemma checkpointed_log st ev :
  isExport ev = false -> checkpointed st -> checkpointed (emit ev st).
Proof.
  intros Hev (Hnames & Hprefix). unfold checkpointed. fields.
  rewrite exportsOf_app. destruct ev; try discriminate; cbn; now rewrite app_nil_r.
Qed.

Lemma checkpointed_frame st st' :
  allReviews st' = allReviews st -> pagesDone st' = pagesDone st ->
  trace st' = trace st ->
  checkpointed st -> checkpointed st'.
Proof. unfold checkpointed. now intros -> -> ->. Qed.

Lemma checkpointed_processed raw cp st :
  checkpointed st -> checkpointed (processed raw cp st).
Proof.
  intros (Hnames & Hprefix). unfold checkpointed. page_fields raw cp st.
  rewrite !exportsOf_app, Hexp, map_app, Hnames. unfold checkpointOf. split.
  - destruct (div50_next (pagesDone st)) as [Hzero Hother].
    destruct (Nat.eqb_spec (S (pagesDone st) mod 50) 0) as [Hmod|Hmod].
    + destruct (Hzero Hmod) as [-> Hmul]. rewrite seq_S, map_app. cbn [map snd Nat.add].
      now rewrite Hmul.
    + rewrite (Hother Hmod). cbn [map]. now rewrite app_nil_r.
  - apply Forall_app. split.
    + eapply Forall_impl; [exact Hprefix|]. intros exported H. now apply prefix_app_r.
    + destruct (_ =? _)%nat; repeat constructor. reflexivity.
Qed.

Lemma scrapeLoop_checkpointed page st :
  checkpointed st -> checkpointed (scrapeLoop normalizeDate config page st).
Proof.
  revert page st. apply (scrapeLoop_rule checkpointed checkpointed); intros;
    loop_steps checkpointed_log checkpointed_frame checkpointed_processed.
Qed.

(** *** The browser is closed by [finally] only *)







(** *** Pacing *)

(** Reading a trace from the left: is a rate-limit delay of the configured
    length on record since the last page was extracted?  [None] when a page
    is extracted without one, or when another delay is asked for. *)
Fixpoint pacing (ready : bool) (tr : list Event) : option bool :=
  match tr with
  | [] => Some ready
  | LogPageProgress _ _ :: rest => if ready then pacing false rest else None
  | RateDelay ms :: rest => if ms =? delayMs config then pacing true rest else None
  | _ :: rest => pacing ready rest
  end.

Lemma pacing_app tr1 tr2 ready :
  pacing ready (tr1 ++ tr2) = pacing ready tr1 ≫= fun ready' => pacing ready' tr2.
Proof.
  revert ready. induction tr1 as [|ev tr1 IH]; intros ready; [reflexivity|].
  destruct ev; cbn [app pacing]; try apply IH.
  - destruct ready; [apply IH | reflexivity].
  - destruct (_ =? _); [apply IH | reflexivity].
Qed.

Lemma pacing_neutral tr ready :
  Forall (fun ev => match ev with
                    | LogPageProgress _ _ | RateDelay _ => False
                    | _ => True
                    end) tr ->
  pacing ready tr = Some ready.
Proof.
  induction 1 as [|ev tr Hev _ IH]; [reflexivity|]. now destruct ev.
Qed.

Lemma pacing_page evs : pageEvents evs -> pacing true evs = Some false.
Proof.
  intros (before & after & -> & Hbefore & Hafter). rewrite pacing_app, pacing_neutral.
  - destruct after as [|[] rest]; try contradiction. cbn [mbind option_bind pacing].
    apply pacing_neutral. eapply Forall_impl; [exact Hafter|]. now intros [].
  - eapply Forall_impl; [exact Hbefore|]. now intros [].
Qed.

Definition paced (st : Progress) : Prop := is_Some (pacing true (trace st)).

Definition pacedReady (st : Progress) : Prop := pacing true (trace st) = Some true.

Lemma pacing_log st ev ready :
  match ev with LogPageProgress _ _ | RateDelay _ => False | _ => True end ->
  pacing true (trace st) = Some ready ->
  pacing true (trace (emit ev st)) = Some ready.
Proof.
  intros Hev H. fields. rewrite pacing_app, H. cbn [mbind option_bind]. now destruct ev.
Qed.

Lemma pacing_advancing st ready :
  pacing true (trace st) = Some ready -> pacedReady (advancing st).
Proof.
  intros H. unfold pacedReady. fields. rewrite <- !app_assoc, pacing_app, H.
  cbn [mbind option_bind app pacing]. now rewrite Z.eqb_refl.
Qed.

Lemma pacing_processed raw cp st :
  pacedReady st -> pacing true (trace (processed raw cp st)) = Some false.
Proof.
  unfold pacedReady. intros H. page_fields raw cp st.
  rewrite pacing_app, H. cbn [mbind option_bind]. now apply pacing_page.
Qed.

Lemma scrapeLoop_paced page st :
  pacedReady st -> paced (scrapeLoop normalizeDate config page st).
Proof.
  revert page st. apply (scrapeLoop_rule pacedReady paced); unfold paced.
  - intros st H _. now rewrite H.
  - intros st msg e H _. exists true. cbn [pushError trace]. unfold entering.
    do 2 (apply pacing_log; [exact I|]). exact H.
  - intros st raw cp msg H _. exists false.
    apply pacing_log; [exact I|]. now apply pacing_processed.
  - intros st raw cp msg H _ _. exists true. cbn [pushError trace].
    apply pacing_log; [exact I|]. eapply pacing_advancing. now apply pacing_processed.
  - intros st raw cp H _ _. exists true.
    change (trace (nextPage ?s)) with (trace s).
    eapply pacing_advancing. now apply pacing_processed.
  - intros st raw cp H _ _. unfold pacedReady.
    change (trace (nextPage ?s)) with (trace s).
    eapply pacing_advancing. now apply pacing_processed.
Qed.

(** *** A whole run *)

(** The state and the completion of [scrape] when its [finally] block is
    entered. *)
Definition settled (w : World) : Progress * Completion :=
  let '(st, c) := tryBlock normalizeDate config w in
  match c with
  | Returns r => (st, Returns r)
  | Throws error => catchBlock config w error st
  end.

Lemma scrape_settled w :
  scrape normalizeDate config w
  = (trace (fst (finallyBlock w (fst (settled w)) (snd (settled w)))),
     snd (finallyBlock w (fst (settled w)) (snd (settled w)))).
Proof.
  unfold scrape, settled. destruct (tryBlock normalizeDate config w) as [st [r|e]].
  - cbn [fst snd]. now destruct (finallyBlock w st (Returns r)).
  - destruct (catchBlock config w e st) as [st' c]. cbn [fst snd].
    now destruct (finallyBlock w st' c).
Qed.

Lemma finallyBlock_trace w st c :
  trace (fst (finallyBlock w st c)) = (trace st ++ closing w)%list.
Proof.
  unfold finallyBlock, closing. destruct (initialize w).
  - cbn. now rewrite app_nil_r.
  - destruct (close w); cbn [fst]; apply trace_emits.
Qed.

Lemma finallyBlock_returns w st c r :
  snd (finallyBlock w st c) = Returns r -> c = Returns r.
Proof.
  unfold finallyBlock. destruct (initialize w); [trivial|].
  destruct (close w); [discriminate | trivial].
Qed.

Lemma scrape_trace w :
  fst (scrape normalizeDate config w) = (trace (fst (settled w)) ++ closing w)%list.
Proof. rewrite scrape_settled. apply finallyBlock_trace. Qed.

(** Events that are neither an export, nor a delay, nor a page report, nor
    the closing of the browser. *)
Definition neutral (ev : Event) : bool :=
  match ev with
  | LogConfiguration | LogInfo _ | LogWarn _ | LogError _ _ | LogSummary _ _ _
  | WaitForUserInput => true
  | _ => false
  end.

(** [scrape] up to its [finally] block, read as a proof rule: [P] holds up
    to the loop, [Q] from the loop on. *)
Lemma run_rule (P Q : Progress -> Prop) :
  P initialProgress ->
  (forall st ev, neutral ev = true -> P st -> P (emit ev st)) ->
  (forall st ev, neutral ev = true -> Q st -> Q (emit ev st)) ->
  (forall st msg, Q st -> Q (pushError msg st)) ->
  (forall st, P st -> Q st) ->
  (forall page st, P st -> Q (scrapeLoop normalizeDate config page st)) ->
  (forall st reviews, reviews = allReviews st -> Q st ->
     Q (emit (Export reviews (outputFilename config)) st)) ->
  forall w, Q (fst (settled w)).
Proof.
  intros HPinit HPlog HQlog HQpush HPQ Hloop Hexport w.
  assert (HP : forall evs st, forallb neutral evs = true -> P st -> P (emits evs st)).
  { induction evs as [|ev evs IH]; intros st Hevs Hst; [exact Hst|].
    cbn [forallb] in Hevs. apply andb_true_iff in Hevs as [Hev Hevs].
    cbn [emits fold_left]. apply IH; [exact Hevs|]. now apply HPlog. }
  assert (Hcatch : forall st e, Q st -> Q (fst (catchBlock config w e st))).
  { intros st e Hst. unfold catchBlock.
    set (st1 := pushError (message e) (emit (LogError _ (Some e)) st)).
    assert (Hst1 : Q st1) by (apply HQpush, HQlog; [reflexivity | exact Hst]).
    destruct (0 <? length (allReviews st1))%nat; [|exact Hst1].
    cbn [emits fold_left].
    set (st2 := emit (Export _ _) _).
    assert (Hst2 : Q st2)
      by (apply Hexport; [reflexivity|]; apply HQlog; [reflexivity | exact Hst1]).
    destruct (exportInCatch w); cbn [fst].
    - apply HQlog; [reflexivity | exact Hst2].
    - apply HQpush, HQlog; [reflexivity | exact Hst2]. }
  unfold settled, tryBlock.
  set (st0 := emits [LogConfiguration; LogInfo "Initializing browser..."] initialProgress).
  assert (Hst0 : P st0) by (apply HP; [reflexivity | exact HPinit]).
  destruct (initialize w) as [e|]; [apply Hcatch, HPQ, Hst0|].
  destruct (createPage w) as [e|]; [apply Hcatch, HPQ, Hst0|].
  destruct (negb (navigateToURL w)).
  { apply Hcatch, HPQ, HPlog; [reflexivity | exact Hst0]. }
  set (st1 := if headless config then _ else _).
  assert (Hst1 : P st1).
  { subst st1. destruct (headless config).
    - apply HPlog; [reflexivity | exact Hst0].
    - apply HP; [reflexivity|]. apply HPlog; [reflexivity | exact Hst0]. }
  set (st2 := scrapeLoop normalizeDate config (site w) st1).
  assert (Hst2 : Q st2) by (apply Hloop, Hst1).
  cbn [emits fold_left]. set (st3 := emit (Export _ _) _).
  assert (Hst3 : Q st3)
    by (apply Hexport; [reflexivity|]; apply HQlog; [reflexivity | exact Hst2]).
  destruct (exportAfterLoop w) as [outputFile|e].
  - cbn [fst]. apply HQlog; [reflexivity | exact Hst3].
  - apply Hcatch, Hst3.
Qed.

Lemma settled_returns w r :
  snd (settled w) = Returns r ->
  pagesProcessed r = pagesDone (afterLoop normalizeDate config w)
  /\ totalReviews r = length (allReviews (afterLoop normalizeDate config w)).
Proof.
  unfold settled. destruct (setupFailure w) as [e|] eqn:Hsetup.
  - destruct (tryBlock_setup_fails normalizeDate config w e Hsetup) as (st & -> & Hall & _).
    now rewrite (proj1 (catchBlock_empty config w e st Hall)).
  - rewrite (tryBlock_setup_ok normalizeDate config w Hsetup).
    cbn [emits fold_left]. set (st := emit (Export _ _) _).
    destruct (exportAfterLoop w) as [outputFile|e].
    + cbn [snd]. intros [= <-]. now split.
    + cbv beta iota. destruct (allReviews st) as [|review rest] eqn:Hall.
      * now rewrite (proj1 (catchBlock_empty config w e st Hall)).
      * assert (Hne : allReviews st <> []) by congruence.
        rewrite (proj2 (catchBlock_records config w e st Hne)).
        destruct (exportInCatch w); [|discriminate]. intros [= <-]. now split.
Qed.

Lemma countsPages_beforeLoop : countsPages (beforeLoop config).
Proof. unfold beforeLoop. destruct (headless config); split; cbn; try reflexivity; lia. Qed.

(** X18: no exported file holds the same review twice.  In every run of
    [scrape], whatever the site serves and whichever calls fail, each list
    handed to the exporter (a checkpoint, the final export, or the export
    of partial data after a failure) has pairwise distinct review keys. *)
Theorem exports_without_duplicates (w : World) :
  Forall (fun exported => NoDup (reviewKey <$> fst exported))
         (exportsOf (fst (scrape normalizeDate config w))).
Proof.
  rewrite scrape_trace, exportsOf_app, exportsOf_closing, app_nil_r.
  apply (run_rule deduplicated deduplicated).
  - repeat split; [constructor | constructor].
  - intros st ev Hev. apply deduplicated_log. now destruct ev.
  - intros st ev Hev. apply deduplicated_log. now destruct ev.
  - intros st msg. now apply deduplicated_frame.
  - trivial.
  - apply scrapeLoop_deduplicated.
  - intros st reviews -> (Hnd & Hseen & Hexp). repeat split; fields; trivial.
    rewrite exportsOf_app. apply Forall_app. split; [exact Hexp|]. now repeat constructor.
Qed.

(** X19: the page limit is kept.  With [maxPages] set to a number [m], a
    run that returns a result has processed at most [m] pages. *)
Theorem pages_within_limit (w : World) (m : nat) (r : ScrapingResult) :
  maxPages config = Some m ->
  snd (scrape normalizeDate config w) = Returns r ->
  (pagesProcessed r <= m)%nat.
Proof.
  intros Hm Hr. rewrite scrape_settled in Hr. cbn [snd] in Hr.
  apply finallyBlock_returns, settled_returns in Hr as [-> _].
  unfold afterLoop. now apply scrapeLoop_pages; [apply countsPages_beforeLoop|].
Qed.

Lemma checkpointed_beforeLoop : checkpointed (beforeLoop config).
Proof. unfold beforeLoop. destruct (headless config); split; cbn; constructor. Qed.

(** X20: a checkpoint is written after every 50th page and after no other.
    When the loop of [scrape] is left after [n] pages, the exports made in
    the loop are, in this order, the checkpoints of the pages 50, 100, ...
    up to the last multiple of 50 that is at most [n], each under the
    checkpoint name of its page, and each
    holds a prefix of the reviews collected in the end: what was written
    to a checkpoint is never dropped or reordered later. *)
Theorem checkpoints_every_50_pages (w : World) :
  let st := afterLoop normalizeDate config w in
  map snd (exportsOf (trace st))
  = map (fun k => checkpointFilename (outputFilename config) (50 * k)%nat)
        (seq 1 (pagesDone st / 50))
  /\ Forall (fun exported => fst exported `prefix_of` allReviews st) (exportsOf (trace st)).
Proof. apply scrapeLoop_checkpointed, checkpointed_beforeLoop. Qed.


Lemma pacing_delay_between b :
  forall ready, is_Some (pacing ready b) ->
    (forall ms, RateDelay ms ∈ b -> ms = delayMs config)
    /\ (pacing ready b = Some true -> ready = true \/ RateDelay (delayMs config) ∈ b).
Proof.
  induction b as [|ev b IH]; intros ready Hsome.
  - split; [intros ms Hin; now apply elem_of_nil in Hin|]. intros [= ->]. now left.
  - destruct ev; cbn [pacing] in *;
      try (destruct (IH ready Hsome) as [Hms Hready]; split;
           [intros ms Hin; apply elem_of_cons in Hin as [Heq|Hin]; [discriminate | now apply Hms]
           |intros H; destruct (Hready H); [now left | right; now apply list_elem_of_further]]).
    + destruct ready; [|now destruct Hsome].
      destruct (IH false Hsome) as [Hms Hready]. split.
      * intros ms Hin. apply elem_of_cons in Hin as [Heq|Hin]; [discriminate | now apply Hms].
      * intros H. destruct (Hready H); [discriminate | right; now apply list_elem_of_further].
    + destruct (Z.eqb_spec milliseconds (delayMs config)) as [->|Hne]; [|now destruct Hsome].
      destruct (IH true Hsome) as [Hms Hready]. split.
      * intros ms Hin. apply elem_of_cons in Hin as [[= ->]|Hin]; [reflexivity | now apply Hms].
      * intros _. right. apply list_elem_of_here.
Qed.

(** X22: the pages are paced.  In every run of [scrape], between the
    reports of two extracted pages the rate limiter has been asked for a
    delay of the configured [delayMs], and it is never asked for any other
    delay. *)
Theorem pages_are_paced (w : World) :
  (forall a p n b p' n' c,
     fst (scrape normalizeDate config w)
     = (a ++ LogPageProgress p n :: b ++ LogPageProgress p' n' :: c)%list ->
     RateDelay (delayMs config) ∈ b)
  /\ (forall ms, RateDelay ms ∈ fst (scrape normalizeDate config w) -> ms = delayMs config).
Proof.
  assert (Hpaced : paced (fst (settled w))).
  { apply (run_rule pacedReady paced); unfold paced, pacedReady.
    - reflexivity.
    - intros st ev Hev. apply pacing_log. now destruct ev.
    - intros st ev Hev [ready H]. exists ready. apply pacing_log; [now destruct ev | exact H].
    - trivial.
    - intros st ->. now exists true.
    - apply scrapeLoop_paced.
    - intros st reviews _ [ready H]. exists ready. now apply pacing_log. }
  assert (Hrun : is_Some (pacing true (fst (scrape normalizeDate config w)))).
  { rewrite scrape_trace, pacing_app. destruct Hpaced as [ready ->].
    cbn [mbind option_bind]. unfold closing. now destruct (initialize w). }
  split.
  - intros a p n b p' n' c Htrace. rewrite Htrace, pacing_app in Hrun.
    destruct (pacing true a) as [ra|]; [|now destruct Hrun].
    cbn [mbind option_bind pacing] in Hrun. destruct ra; [|now destruct Hrun].
    rewrite pacing_app in Hrun.
    destruct (pacing false b) as [rb|] eqn:Hb; [|now destruct Hrun].
    cbn [mbind option_bind pacing] in Hrun. destruct rb; [|now destruct Hrun].
    destruct (pacing_delay_between b false) as [_ Hready]; [now rewrite Hb|].
    destruct (Hready Hb); [discriminate | assumption].
  - intros ms Hin. now apply (pacing_delay_between _ true Hrun).
Qed.

End Invariants.

(** A run limited to two pages on a site of three, every page showing the
    same review. *)
Definition limitedConfig : ScraperConfig :=
  {| targetURL := "https://www.trustpilot.com/review/example.com";
     outputFilename := "reviews.csv";
     maxPages := Some 2%nat;
     delayMs := 2000;
     headless := true |}.

Definition threePages : World :=
  {| initialize := None; createPage := None; navigateToURL := true;
     site := uniformSite 2 [oneReview] (Written "/data/reviews.csv");
     exportAfterLoop := Written "/data/reviews.csv";
     exportInCatch := Written "/data/reviews.csv";
     close := None |}.

Lemma pages_within_limit_witness :
  (pagesProcessed {| totalReviews := 1; pagesProcessed := 2;
                     outputFile := "/data/reviews.csv"; errors := [] |} <= 2)%nat.
Proof.
  apply (pages_within_limit sameDate limitedConfig threePages); vm_compute; reflexivity.
Defined.


Lemma pages_are_paced_witness :
  RateDelay (delayMs limitedConfig)
  ∈ [LogInfo "Waiting 2000ms before next page...";
     RateDelay 2000;
     LogInfo "Navigating to next page...";
     LogInfo "Extracting reviews from page 2...";
     LogWarn "Filtered out 1 duplicate reviews on page 2"].
Proof.
  apply (proj1 (pages_are_paced sameDate limitedConfig threePages)
           [LogConfiguration; LogInfo "Initializing browser...";
            LogInfo "Navigating to target URL...";
            LogInfo "Extracting reviews from page 1..."]
           1%nat 1%nat _ 2%nat 0%nat
           [LogInfo "Reached maximum pages limit (2)";
            LogInfo "Exporting 1 reviews to CSV...";
            Export [transform sameDate oneReview] "reviews.csv";
            LogSummary 1 2 "/data/reviews.csv";
            LogInfo "Closing browser...";
            BrowserClose]).
  vm_compute. reflexivity.
Defined.

Example threePages_run :
  snd (scrape sameDate limitedConfig threePages)
  = Returns {| totalReviews := 1; pagesProcessed := 2;
               outputFile := "/data/reviews.csv"; errors := [] |}.
Proof. vm_compute. reflexivity. Qed.

End LoopSpec.

(** ** The error classifier *)

Module ErrorHandlerSpec.
Import JsString JsStringFacts ErrorHandler.
Import ScraperOrchestrator (Error, message, Event, LogWarn, LogError).

Lemma toLowerCase_append a b : toLowerCase (a +:+ b) = toLowerCase a +:+ toLowerCase b.
Proof.
  induction a as [|c a IH]; [now rewrite !append_nil_l|].
  rewrite append_cons. cbn [toLowerCase]. now rewrite append_cons, IH.
Qed.

(** [includes] is kept by [toLowerCase]: this is what makes the tests of
    the classifier blind to the case of the message. *)
Lemma includes_toLowerCase needle s :
  includes needle s = true -> includes (toLowerCase needle) (toLowerCase s) = true.
Proof.
  intros H. apply includes_spec in H as (a & b & ->). apply includes_spec.
  exists (toLowerCase a), (toLowerCase b). now rewrite !toLowerCase_append.
Qed.

Lemma isCaptchaError_indicator indicator errorMessage :
  In indicator captchaIndicators -> includes indicator errorMessage = true ->
  isCaptchaError errorMessage = true.
Proof.
  intros Hin Hinc. unfold isCaptchaError. apply existsb_exists. now exists indicator.
Qed.

Lemma critical_captcha errorMessage context :
  isCaptchaError errorMessage = true -> isCriticalError errorMessage context = true.
Proof.
  intros H. unfold isCriticalError. rewrite H.
  destruct (_ && _); [reflexivity|]. destruct (_ && _); reflexivity.
Qed.

(** X23: an anti-bot signal always terminates.  If the message of an error
    contains one of the CAPTCHA indicators, in whatever letter case, then
    [handleError] returns [TERMINATE] and logs at error level, whatever the
    context and whatever else the message says; in particular a message
    that also names a timeout or a rate limit is not retried. *)
Theorem captcha_terminates (error : Error) (context : ErrorContext) (variant : string) :
  In (toLowerCase variant) captchaIndicators ->
  includes variant (message error) = true ->
  handleError error context = (logCriticalError error context, TERMINATE)
  /\ isCaptcha error = true.
Proof.
  intros Hin Hinc. apply includes_toLowerCase in Hinc.
  pose proof (isCaptchaError_indicator _ _ Hin Hinc) as Hcaptcha.
  unfold handleError, classifyError, isCaptcha.
  now rewrite (critical_captcha _ context Hcaptcha).
Qed.

Lemma captcha_terminates_witness :
  handleError {| message := "Navigation timeout: request BLOCKED by Cloudflare (429)" |}
    {| operation := "main"; url := None; pageNumber := None; attemptNumber := None;
       additionalInfo := Some [("phase", "initialization")] |}
  = (LogError "CRITICAL ERROR [main]: Navigation timeout: request BLOCKED by Cloudflare (429) [phase: initialization]"
       (Some {| message := "Navigation timeout: request BLOCKED by Cloudflare (429)" |}),
     TERMINATE)
  /\ isCaptcha {| message := "Navigation timeout: request BLOCKED by Cloudflare (429)" |} = true.
Proof.
  apply (captcha_terminates {| message := "Navigation timeout: request BLOCKED by Cloudflare (429)" |}
           {| operation := "main"; url := None; pageNumber := None; attemptNumber := None;
              additionalInfo := Some [("phase", "initialization")] |} "BLOCKED").
  - vm_compute. tauto.
  - reflexivity.
Defined.

(** X24: the classifier and the retry scheduler agree on rate limits.  An
    error whose message contains [429], for which [extractRetryAfter]
    gives the scheduler a wait hint, is never classified as non-critical:
    [handleError] returns [RETRY], or [TERMINATE] when the message also
    carries a critical signal, but never [CONTINUE]. *)
Theorem rate_limit_not_ignored (error : Error) (context : ErrorContext) :
  includes "429" (message error) = true ->
  RateLimiter.extractRetryAfter
    (RateLimiter.Err (RateLimiter.plainError (message error))) = Some 60
  /\ snd (handleError error context) <> CONTINUE
  /\ (isCriticalError (toLowerCase (message error)) context = false ->
      snd (handleError error context) = RETRY).
Proof.
  intros H. split.
  - unfold RateLimiter.extractRetryAfter, RateLimiter.extractRetryAfterErr,
      RateLimiter.parsedRetryAfterHeader, RateLimiter.mentions429.
    cbn [RateLimiter.plainError RateLimiter.response RateLimiter.message]. now rewrite H.
  - apply includes_toLowerCase in H. change (toLowerCase "429") with "429" in H.
    assert (Hrec : isRecoverableError (toLowerCase (message error)) = true).
    { unfold isRecoverableError. rewrite H. cbn [orb].
      repeat (destruct (_ || _); [reflexivity|]). reflexivity. }
    unfold handleError, classifyError. rewrite Hrec.
    destruct (isCriticalError _ context); cbn [snd]; split; congruence.
Qed.

Lemma rate_limit_not_ignored_witness :
  RateLimiter.extractRetryAfter
    (RateLimiter.Err (RateLimiter.plainError "HTTP 429 Too Many Requests")) = Some 60
  /\ snd (handleError {| message := "HTTP 429 Too Many Requests" |}
            {| operation := "navigation"; url := None; pageNumber := Some 3%nat;
               attemptNumber := Some 1%nat; additionalInfo := None |}) <> CONTINUE
  /\ (isCriticalError (toLowerCase "HTTP 429 Too Many Requests")
        {| operation := "navigation"; url := None; pageNumber := Some 3%nat;
           attemptNumber := Some 1%nat; additionalInfo := None |} = false ->
      snd (handleError {| message := "HTTP 429 Too Many Requests" |}
             {| operation := "navigation"; url := None; pageNumber := Some 3%nat;
                attemptNumber := Some 1%nat; additionalInfo := None |}) = RETRY).
Proof.
  apply (rate_limit_not_ignored {| message := "HTTP 429 Too Many Requests" |}).
  reflexivity.
Defined.

Example handleError_recoverable :
  handleError {| message := "HTTP 429 Too Many Requests" |}
    {| operation := "navigation"; url := Some "https://www.trustpilot.com/review/example.com";
       pageNumber := Some 3%nat; attemptNumber := Some 1%nat; additionalInfo := None |}
  = (LogWarn "Recoverable error [navigation] (attempt 1): HTTP 429 Too Many Requests [URL: https://www.trustpilot.com/review/example.com, Page: 3]",
     RETRY).
Proof. vm_compute. reflexivity. Qed.

End ErrorHandlerSpec.
